(** * Qdrant memory extension: a shallow embedding of [index.js]

    The extension buffers conversation turns, merges them into chunks,
    embeds and stores the chunks in a vector index, and injects retrieved
    chunks back into the live conversation.  This file embeds the pure core
    of [index.js] and the asynchronous functions around it, and proves the
    properties the design document states about them.

    Conventions of the embedding.
    - A JavaScript string is a [string]; its [length] is the number of code
      units, which the model takes to be the characters of the [string].
    - A JavaScript number that is used as a count, a size or an epoch is an
      integer [Z]; a number that may be [NaN] is a [number].
    - An [async] function is a function of the outcomes of the network calls
      it awaits; a rejected promise or a thrown exception is [Throw].
    - The source file holds two revisions of the extension, one after the
      other.  They differ in the embedding request and in the API-key guard;
      a [revision] argument selects between them where they differ.
    - The identifier [extension_settings] is read by the embedding adapter
      and declared nowhere in the file: its binding, [ExtensionSettings], is
      an argument of the adapter and of the functions that call it. *)

From Stdlib Require Import ZArith List String Ascii Bool Lia Arith QArith Qround.
From Stdlib Require Import DecimalString DecimalZ.
Import ListNotations.

#[local] Open Scope list_scope.
#[local] Open Scope string_scope.
#[local] Open Scope Z_scope.

(** ** JavaScript values used by the extension *)

Inductive revision : Type := Rev1 | Rev2.

(** The outcome of evaluating an expression or awaiting a promise. *)
Inductive completion (A : Type) : Type :=
| Normal (a : A)
| Throw.
Arguments Normal {A} a.
Arguments Throw {A}.

(** A number that may be [NaN] or infinite; finite values are integers
    (epochs in milliseconds). *)
Inductive number : Type :=
| NaN
| Num (z : Z)
| PInf
| NInf.

Definition isNaN (n : number) : bool :=
  match n with NaN => true | _ => false end.

(** [a < b] on numbers: a comparison with [NaN] is false. *)
Definition num_ltb (a b : number) : bool :=
  match a, b with
  | Num x, Num y => x <? y
  | Num _, PInf => true
  | NInf, Num _ => true
  | NInf, PInf => true
  | _, _ => false
  end.

(** [n > 0] *)
Definition num_gt0 (n : number) : bool := num_ltb (Num 0) n.

(** The digits of a number in a template literal. *)
Definition number_to_string (of_Z : Z -> string) (n : number) : string :=
  match n with
  | NaN => "NaN"
  | Num z => of_Z z
  | PInf => "Infinity"
  | NInf => "-Infinity"
  end.

(** ** Strings *)

Module Str.

Definition length (s : string) : Z := Z.of_nat (String.length s).

Definition chars (s : string) : list ascii := list_ascii_of_string s.
Definition of_chars (l : list ascii) : string := string_of_list_ascii l.

(** White space as [String.prototype.trim] sees it, among the code units
    below 256: TAB, LF, VT, FF, CR, SPACE and NBSP. *)
Definition is_space (c : ascii) : bool :=
  let n := nat_of_ascii c in
  ((9 <=? n) && (n <=? 13) || (n =? 32) || (n =? 160))%nat.

Fixpoint dropWhile {A} (p : A -> bool) (l : list A) : list A :=
  match l with
  | [] => []
  | x :: r => if p x then dropWhile p r else l
  end.

Definition trimStart (s : string) : string :=
  of_chars (dropWhile is_space (chars s)).

Definition trimEnd (s : string) : string :=
  of_chars (rev (dropWhile is_space (rev (chars s)))).

Definition trim (s : string) : string := trimEnd (trimStart s).

Definition lower (c : ascii) : ascii :=
  let n := nat_of_ascii c in
  if ((65 <=? n) && (n <=? 90))%nat then ascii_of_nat (n + 32) else c.

Definition toLowerCase (s : string) : string :=
  of_chars (map lower (chars s)).

(** [Array.prototype.join]. *)
Fixpoint join (sep : string) (l : list string) : string :=
  match l with
  | [] => ""
  | [x] => x
  | x :: r => x ++ sep ++ join sep r
  end.

Fixpoint concat (l : list string) : string :=
  match l with
  | [] => ""
  | x :: r => x ++ concat r
  end.

(** [s.replace(/\n/g, " ")]. *)
Definition flatten_newlines (s : string) : string :=
  of_chars (map (fun c => if (nat_of_ascii c =? 10)%nat then " "%char else c)
                (chars s)).

Fixpoint prefix_chars (p s : list ascii) : bool :=
  match p, s with
  | [], _ => true
  | _ :: _, [] => false
  | a :: p', b :: s' => Ascii.eqb a b && prefix_chars p' s'
  end.

Fixpoint includes_chars (p s : list ascii) : bool :=
  prefix_chars p s ||
  match s with
  | [] => false
  | _ :: s' => includes_chars p s'
  end.

(** [s.includes(p)]. *)
Definition includes (s p : string) : bool :=
  includes_chars (chars p) (chars s).

(** Lexicographic [<] on code units, as [<] compares two strings. *)
Fixpoint ltb_chars (a b : list ascii) : bool :=
  match a, b with
  | _, [] => false
  | [], _ :: _ => true
  | x :: a', y :: b' =>
      if (nat_of_ascii x <? nat_of_ascii y)%nat then true
      else if (nat_of_ascii y <? nat_of_ascii x)%nat then false
      else ltb_chars a' b'
  end.

Definition ltb (a b : string) : bool := ltb_chars (chars a) (chars b).

(** Decimal rendering of an integer, as a template literal renders it. *)
Definition of_Z (z : Z) : string := NilZero.string_of_int (Z.to_int z).

Definition nl : string := String (ascii_of_nat 10) EmptyString.

End Str.

(** ** Dates *)

Module DateJS.

Definition ms_per_day : Z := 86400000.

(** The time values a [Date] can hold. *)
Definition valid_time (t : Z) : bool :=
  (-8640000000000000 <=? t) && (t <=? 8640000000000000).

(** Civil date (year, month, day) of a day number counted from the epoch. *)
Definition civil_of_days (z : Z) : Z * Z * Z :=
  let z := z + 719468 in
  let era := z / 146097 in
  let doe := z mod 146097 in
  let yoe := (doe - doe / 1460 + doe / 36524 - doe / 146096) / 365 in
  let y := yoe + era * 400 in
  let doy := doe - (365 * yoe + yoe / 4 - yoe / 100) in
  let mp := (5 * doy + 2) / 153 in
  let d := doy - (153 * mp + 2) / 5 + 1 in
  let m := if mp <? 10 then mp + 3 else mp - 9 in
  (if m <=? 2 then y + 1 else y, m, d).

Fixpoint zeros (n : nat) : string :=
  match n with O => "" | S k => "0" ++ zeros k end.

Definition pad (w : nat) (z : Z) : string :=
  let s := Str.of_Z z in
  zeros (w - String.length s) ++ s.

Definition year_string (y : Z) : string :=
  if (0 <=? y) && (y <=? 9999) then pad 4 y
  else if y <? 0 then "-" ++ pad 6 (- y)
  else "+" ++ pad 6 y.

(** [new Date(t).toISOString().split("T")[0]]; [toISOString] throws a
    [RangeError] on an invalid date. *)
Definition isoDate (t : number) : completion string :=
  match t with
  | Num ms =>
      if valid_time ms then
        let '(y, m, d) := civil_of_days (ms / ms_per_day) in
        Normal (year_string y ++ "-" ++ pad 2 m ++ "-" ++ pad 2 d)
      else Throw
  | _ => Throw
  end.

End DateJS.


(** ** Settings and host data *)

(** The persisted settings record ([defaultSettings] merged with the stored
    blob).  A string field that is missing or empty is the empty string:
    the source only ever tests such fields for truthiness. *)
Record Settings : Type := {
  enabled : bool;
  provider : string;
  apiKey : string;
  baseUrl : string;
  qdrantUrl : string;
  collectionName : string;
  openaiApiKey : string;
  embeddingModel : string;
  memoryLimit : Z;
  scoreThreshold : Q;
  memoryPosition : Z;
  debugMode : bool;
  usePerCharacterCollections : bool;
  autoSaveMemories : bool;
  saveUserMessages : bool;
  saveCharacterMessages : bool;
  minMessageLength : Z;
  showMemoryNotifications : bool;
  retainRecentMessages : Z;
  chunkMinSize : Z;
  chunkMaxSize : Z;
  chunkTimeout : Z
}.

Definition defaultSettings : Settings := {|
  enabled := true;
  provider := "openai";
  apiKey := "";
  baseUrl := "https://api.openai.com/v1/embeddings";
  qdrantUrl := "http://localhost:6333";
  collectionName := "mem";
  openaiApiKey := "";
  embeddingModel := "text-embedding-3-large";
  memoryLimit := 5;
  scoreThreshold := (3 # 10)%Q;
  memoryPosition := 2;
  debugMode := false;
  usePerCharacterCollections := true;
  autoSaveMemories := true;
  saveUserMessages := true;
  saveCharacterMessages := true;
  minMessageLength := 5;
  showMemoryNotifications := true;
  retainRecentMessages := 5;
  chunkMinSize := 1200;
  chunkMaxSize := 1500;
  chunkTimeout := 30000
|}.

(** The forms a [send_date] takes: a [Date] object (its time value), a
    number, a string, or nothing. *)
Inductive sendDate : Type :=
| SDate (t : number)
| SNumber (n : number)
| SString (s : string)
| SUndefined
| SNull.

(** A turn of the host's live conversation or of a stored transcript.
    [qdrantMemory] is the truthiness of the [__qdrantMemory] marker; a
    missing [mes] or [name] is the empty string. *)
Record ChatMessage : Type := {
  name : string;
  is_user : bool;
  is_system : bool;
  mes : string;
  send_date : sendDate;
  qdrantMemory : bool
}.

(** What [getContext()] returns: the live conversation, the active
    character's name and the number of characters of the chat. *)
Record Context : Type := {
  chat : list ChatMessage;
  name2 : string;
  characters : nat
}.

Definition context_chat (context : Context) : list ChatMessage := chat context.

Definition isQdrantMemoryMessage (message : ChatMessage) : bool :=
  qdrantMemory message.

(** ** JSON bodies and the network *)

(** A parsed JSON body.  An object keeps its members in an association
    list; a member is looked up by its first binding. *)
#[local] Unset Elimination Schemes.
Inductive json : Type :=
| JNull
| JBool (b : bool)
| JNum (q : Q)
| JStr (s : string)
| JArr (l : list json)
| JObj (l : list (string * json)).
#[local] Set Elimination Schemes.

(** What [await fetch(...)] gives: a rejection, or a response with its [ok]
    flag and its body, [None] when the body does not parse. *)
Inductive fetch_outcome (B : Type) : Type :=
| NetError
| Response (ok : bool) (body : option B).
Arguments NetError {B}.
Arguments Response {B} ok body.

Fixpoint assoc {A} (k : string) (l : list (string * A)) : option A :=
  match l with
  | [] => None
  | (k', v) :: r => if String.eqb k k' then Some v else assoc k r
  end.

(** JavaScript truthiness of a JSON value. *)
Definition truthy (j : json) : bool :=
  match j with
  | JNull => false
  | JBool b => b
  | JNum q => negb (Qeq_bool q 0)
  | JStr s => negb (String.eqb s "")
  | JArr _ | JObj _ => true
  end.

(** [v[0]] for a value that is neither [null] nor [undefined]. *)
Definition index0 (j : json) : option json :=
  match j with
  | JArr l => nth_error l 0
  | JObj l => assoc "0" l
  | JStr (String c _) => Some (JStr (String c EmptyString))
  | _ => None
  end.

(** [v.k] for a value that is neither [null] nor [undefined]; [k] is not
    [length] or another built-in property. *)
Definition prop (k : string) (j : json) : option json :=
  match j with
  | JObj l => assoc k l
  | _ => None
  end.

(** [v?.[0]] and [v?.k], where [None] is [undefined]. *)
Definition opt_index0 (v : option json) : option json :=
  match v with
  | None | Some JNull => None
  | Some j => index0 j
  end.

Definition opt_prop (k : string) (v : option json) : option json :=
  match v with
  | None | Some JNull => None
  | Some j => prop k j
  end.

Definition isArray (v : option json) : bool :=
  match v with Some (JArr _) => true | _ => false end.



(** ** Asynchronous computations

    An [async] function runs against the outside world [W] (the embedding
    provider, the vector store, the clock, the random source).  It ends
    normally with a value or with a rejection, and leaves a new world. *)

Definition Async (W A : Type) : Type := W -> completion A * W.

Definition ret {W A} (a : A) : Async W A := fun w => (Normal a, w).

Definition throw {W A} : Async W A := fun w => (Throw, w).

Definition bind {W A B} (m : Async W A) (k : A -> Async W B) : Async W B :=
  fun w =>
    match m w with
    | (Normal a, w') => k a w'
    | (Throw, w') => (Throw, w')
    end.

(** [try { m } catch (e) { h }] *)
Definition try_catch {W A} (m : Async W A) (h : Async W A) : Async W A :=
  fun w =>
    match m w with
    | (Normal a, w') => (Normal a, w')
    | (Throw, w') => h w'
    end.

Notation "x <- m ;; k" := (bind m (fun x => k))
  (at level 61, m at next level, right associativity).

(** Lifts an effect of the world that cannot fail. *)
Definition perform {W A} (f : W -> A * W) : Async W A :=
  fun w => let '(a, w') := f w in (Normal a, w').

(** [await fetch(...)] followed by a use of the response: a network error
    rejects. *)
Definition await_fetch {W B} (f : W -> fetch_outcome B * W)
  : Async W (bool * option B) :=
  fun w =>
    match f w with
    | (NetError, w') => (Throw, w')
    | (Response ok body, w') => (Normal (ok, body), w')
    end.

(** [await response.json()]: rejects when the body does not parse. *)
Definition response_json {W B} (body : option B) : Async W B :=
  match body with
  | Some b => ret b
  | None => throw
  end.

(** *** Requests and responses *)

(** The embedding configuration, [extension_settings.qdrantMemory || {}]:
    a missing field is the empty string. *)
Module Cfg.
Record t : Type := {
  provider : string;
  apiKey : string;
  openaiApiKey : string;
  embeddingModel : string;
  baseUrl : string
}.
End Cfg.

(** [a || b] on strings. *)
Definition or_else (a b : string) : string :=
  if String.eqb a "" then b else a.

(** [{}]: every member is missing. *)
Definition empty_cfg : Cfg.t :=
  {| Cfg.provider := ""; Cfg.apiKey := ""; Cfg.openaiApiKey := "";
     Cfg.embeddingModel := ""; Cfg.baseUrl := "" |}.

(** The identifier [extension_settings], which [generateEmbedding] reads.
    The file neither declares nor imports it: the page binds it, or it does
    not.  [Unbound] is the page without a binding (the read throws a
    [ReferenceError]) and also a binding to [undefined] or [null] (the
    member access throws a [TypeError]); [Bound] holds the [qdrantMemory]
    member, [None] when it is missing or falsy. *)
Inductive ExtensionSettings : Type :=
| Unbound
| Bound (qdrantMemory : option Cfg.t).

(** The page binds [extension_settings] and its [qdrantMemory] member is
    [cfg].  A configuration stands for this binding wherever a binding is
    expected. *)
Definition configured (cfg : Cfg.t) : ExtensionSettings := Bound (Some cfg).
Coercion configured : Cfg.t >-> ExtensionSettings.

(** [extension_settings.qdrantMemory || {}] *)
Definition configuration (qdrantMemory : option Cfg.t) : Cfg.t :=
  match qdrantMemory with
  | Some cfg => cfg
  | None => empty_cfg
  end.

(** The request to the embedding provider: URL, headers and the members of
    the JSON payload. *)
Record EmbeddingRequest : Type := {
  apiUrl : string;
  headers : list (string * string);
  payload : list (string * string)
}.

(** The stored form of a chunk. *)
Module Payload.
Record t : Type := {
  text : string;
  speakers : string;
  messageCount : Z;
  timestamp : sendDate;
  messageIds : string;
  isChunk : bool
}.
End Payload.

(** [{ ...payload, character: characterName }] *)
Record CharacterPayload : Type := {
  base : Payload.t;
  character : string
}.

Record Point : Type := {
  id : string;
  vector : json;
  point_payload : CharacterPayload
}.

(** A condition of the search filter. *)
Inductive Condition : Type :=
| RangeLt (key : string) (lt : number)
| MatchValue (key : string) (value : string).

Record SearchPayload : Type := {
  search_vector : json;
  limit : Z;
  score_threshold : Q;
  with_payload : bool;
  filter_must : option (list Condition)
}.

(** A ranked result of the similarity search. *)
Module Memory.
Record t : Type := {
  score : Q;
  isChunk : bool;
  speakers : string;
  speaker : string;
  text : string
}.
End Memory.

(** The outside world as the extension reaches it.  Each [fetch] is named
    after the request it sends; its arguments are the URL and the body. *)
Record Host (W : Type) : Type := {
  date_now : W -> Z * W;
  (** [(Math.random() * 16) | 0], a value from 0 to 15 *)
  random16 : W -> Z * W;
  fetch_embedding : EmbeddingRequest -> W -> fetch_outcome json * W;
  fetch_collection : string -> W -> fetch_outcome unit * W;
  fetch_create : string -> Z -> W -> fetch_outcome unit * W;
  fetch_upsert : string -> Point -> W -> fetch_outcome unit * W;
  (** the body is [data.result || []] *)
  fetch_search : string -> SearchPayload -> W -> fetch_outcome (list Memory.t) * W;
  (** the body is [data.result?.points?.length], when there is one *)
  fetch_scroll : string -> list string -> W -> fetch_outcome (option Z) * W;
  (** [getCharacterChats]: the transcript files of a character *)
  list_transcripts : string -> W -> list string * W;
  (** [loadChatFile]: the turns of a transcript, [None] for its [null] *)
  load_transcript : string -> string -> W -> option (list ChatMessage) * W;
  (** whether the Cancel button of the indexing dialog was clicked *)
  cancel_clicked : W -> bool * W
}.
Arguments date_now {W}.
Arguments random16 {W}.
Arguments fetch_embedding {W}.
Arguments fetch_collection {W}.
Arguments fetch_create {W}.
Arguments fetch_upsert {W}.
Arguments fetch_search {W}.
Arguments fetch_scroll {W}.
Arguments list_transcripts {W}.
Arguments load_transcript {W}.
Arguments cancel_clicked {W}.


(** A turn held by the buffer or packed by the reindexer.  A buffered turn
    has no [timestamp]. *)
Module Turn.
Record t : Type := {
  text : string;
  characterName : string;
  isUser : bool;
  messageId : string;
  timestamp : sendDate
}.
End Turn.

(** A finalized memory unit. *)
Module Chunk.
Record t : Type := {
  text : string;
  speakers : list string;
  messageIds : list string;
  messageCount : Z;
  timestamp : sendDate
}.
End Chunk.

(** ** Temporal normalizer *)

Section Builtins.

(** [Number(s)], [Date.parse(s)] and [String(date)] are the platform's. *)
Variable Number_of_string : string -> number.
Variable Date_parse : string -> number.
Variable Date_toString : number -> string.

(** [(score * 100).toFixed(0)], a floating-point rendering. *)
Variable score_percent : Q -> string.

(** [normalizeSendDate]: [None] is the [null] it returns for an input it
    does not recognise. *)
Definition normalizeSendDate (sendDate : sendDate) : option number :=
  match sendDate with
  | SDate t => Some t
  | SNumber n => Some n
  | SString s =>
      let numeric := Number_of_string s in
      if negb (isNaN numeric) then Some numeric
      else
        let parsed := Date_parse s in
        if negb (isNaN parsed) then Some parsed else None
  | SUndefined | SNull => None
  end.

Definition resolvable (msg : ChatMessage) : bool :=
  match normalizeSendDate (send_date msg) with
  | Some _ => true
  | None => false
  end.

(** [getConversationMessages]: the turns that are not synthetic memory turns
    and whose timestamp normalises.  The entries of the model's chat are
    records, so the source's test for an empty entry has no counterpart. *)
Definition getConversationMessages (chat : list ChatMessage) : list ChatMessage :=
  filter (fun msg => if isQdrantMemoryMessage msg then false else resolvable msg)
         chat.

(** [removeExistingMemoryEntries] walks the array from its last index to its
    first and splices out every marked entry: the entries after position [i]
    are settled before position [i] is looked at. *)
Fixpoint removeExistingMemoryEntries (chat : list ChatMessage) : list ChatMessage :=
  match chat with
  | [] => []
  | msg :: rest =>
      let rest' := removeExistingMemoryEntries rest in
      if isQdrantMemoryMessage msg then rest' else msg :: rest'
  end.

(** ** Collection router *)

Definition name_char_ok (c : ascii) : bool :=
  let n := nat_of_ascii c in
  ((97 <=? n) && (n <=? 122) || (48 <=? n) && (n <=? 57)
   || (n =? 95) || (n =? 45))%nat.

Definition underscore : ascii := "_"%char.

(** [.replace(/_+/g, "_")]: [seen] tells that the previous character was an
    underscore already kept. *)
Fixpoint collapse_underscores (seen : bool) (l : list ascii) : list ascii :=
  match l with
  | [] => []
  | c :: r =>
      if Ascii.eqb c underscore then
        if seen then collapse_underscores true r
        else underscore :: collapse_underscores true r
      else c :: collapse_underscores false r
  end.

Definition strip_leading_underscore (l : list ascii) : list ascii :=
  match l with
  | c :: r => if Ascii.eqb c underscore then r else l
  | [] => []
  end.

(** [.replace(/^_|_$/g, "")] *)
Definition strip_underscores (l : list ascii) : list ascii :=
  rev (strip_leading_underscore (rev (strip_leading_underscore l))).

Definition sanitize (characterName : string) : string :=
  Str.of_chars
    (strip_underscores
       (collapse_underscores false
          (map (fun c => if name_char_ok c then c else underscore)
               (Str.chars (Str.toLowerCase characterName))))).

Definition getCollectionName (settings : Settings) (characterName : string) : string :=
  if negb (usePerCharacterCollections settings) then collectionName settings
  else collectionName settings ++ "_" ++ sanitize characterName.

(** ** Embedding provider adapter *)

Definition bearer (apiKey : string) : string * string :=
  ("Authorization", "Bearer " ++ apiKey).

Definition content_type_json : string * string :=
  ("Content-Type", "application/json").

(** [...(apiKey ? { Authorization: ... } : {})] *)
Definition optional_bearer (apiKey : string) : list (string * string) :=
  if String.eqb apiKey "" then [] else [bearer apiKey].

Definition openai_url : string := "https://api.openai.com/v1/embeddings".

(** The [switch] of [generateEmbedding]. *)
Definition embedding_request (rev : revision) (cfg : Cfg.t) (text : string)
  : EmbeddingRequest :=
  let provider := or_else (Cfg.provider cfg) "openai" in
  let apiKey := or_else (Cfg.apiKey cfg) (Cfg.openaiApiKey cfg) in
  let model := or_else (Cfg.embeddingModel cfg) "text-embedding-3-large" in
  let customUrl := or_else (Cfg.baseUrl cfg) openai_url in
  let auth :=
    match rev with
    | Rev1 => [bearer apiKey]
    | Rev2 => optional_bearer apiKey
    end in
  let p := Str.toLowerCase provider in
  if String.eqb p "openrouter" then
    {| apiUrl := "https://openrouter.ai/api/v1/embeddings";
       headers := content_type_json :: auth;
       payload := [("input", text); ("model", model)] |}
  else if String.eqb p "huggingface" then
    {| apiUrl := "https://api-inference.huggingface.co/pipeline/feature-extraction/"
                 ++ model;
       headers :=
         match rev with
         | Rev1 => [bearer apiKey]
         | Rev2 => if String.eqb apiKey "" then [content_type_json]
                   else [bearer apiKey]
         end;
       payload := [("inputs", text)] |}
  else if String.eqb p "custom" then
    {| apiUrl := customUrl;
       headers := content_type_json :: optional_bearer apiKey;
       payload := [("input", text); ("model", model)] |}
  else
    {| apiUrl := match rev with Rev1 => openai_url | Rev2 => customUrl end;
       headers := content_type_json :: auth;
       payload := [("input", text); ("model", model)] |}.

(** The response decoding of [generateEmbedding].  [json[0]] and
    [json.data] throw on a [null] body. *)
Definition extract_embedding {W} (provider : string) (body : json)
  : Async W json :=
  match body with
  | JNull => throw
  | _ =>
      if String.eqb provider "huggingface" then
        match index0 body with
        | Some (JArr l) => ret (JArr l)
        | _ => ret body
        end
      else
        match opt_prop "embedding" (opt_index0 (prop "data" body)) with
        | Some e => if truthy e then ret e else ret JNull
        | None => ret JNull
        end
  end.

(** [generateEmbedding]: the embedding, or [JNull] for the [null] it returns
    on failure.  The configuration is read from [extension_settings] before
    the [try]: where that read throws, the call rejects.  A key that is
    missing is the empty string here, also where the first revision would
    render [undefined] after [Bearer]. *)
Definition generateEmbedding {W} (host : Host W) (rev : revision)
    (extension_settings : ExtensionSettings) (text : string) : Async W json :=
  match extension_settings with
  | Unbound => throw
  | Bound qdrantMemory =>
      let cfg := configuration qdrantMemory in
      let provider := or_else (Cfg.provider cfg) "openai" in
      try_catch
        (response <- await_fetch
                       (fetch_embedding host (embedding_request rev cfg text)) ;;
         if negb (fst response) then ret JNull
         else
           body <- response_json (snd response) ;;
           extract_embedding provider body)
        (ret JNull)
  end.

(** ** Collections *)

Definition endsWith (s suffix : string) : bool :=
  Str.prefix_chars (rev (Str.chars suffix)) (rev (Str.chars s)).

(** [getEmbeddingDimensions]; the table has the three OpenAI models.  The
    model looks an identifier up among these three entries: an identifier
    that names a property the table object inherits ([constructor],
    [toString], ...) is outside it. *)
Definition getEmbeddingDimensions (rev : revision) (settings : Settings) : Z :=
  let modelId := embeddingModel settings in
  if String.eqb modelId "text-embedding-3-large" then 3072
  else if String.eqb modelId "text-embedding-3-small" then 1536
  else if String.eqb modelId "text-embedding-ada-002" then 1536
  else
    match rev with
    | Rev1 => 1536
    | Rev2 =>
        if endsWith modelId "text-embedding-3-large" then 3072
        else if endsWith modelId "text-embedding-3-small"
                || endsWith modelId "text-embedding-ada-002" then 1536
        else 1536
    end.

Definition collection_url (settings : Settings) (collectionName : string) : string :=
  qdrantUrl settings ++ "/collections/" ++ collectionName.

Definition collectionExists {W} (host : Host W) (settings : Settings)
    (collectionName : string) : Async W bool :=
  try_catch
    (response <- await_fetch
                   (fetch_collection host (collection_url settings collectionName)) ;;
     ret (fst response))
    (ret false).

Definition createCollection {W} (host : Host W) (rev : revision)
    (settings : Settings) (collectionName : string) : Async W bool :=
  try_catch
    (let dimensions := getEmbeddingDimensions rev settings in
     response <- await_fetch
                   (fetch_create host (collection_url settings collectionName)
                                 dimensions) ;;
     if fst response then ret true else ret false)
    (ret false).

Definition ensureCollection {W} (host : Host W) (rev : revision)
    (settings : Settings) (characterName : string) : Async W bool :=
  let collectionName := getCollectionName settings characterName in
  exists_ <- collectionExists host settings collectionName ;;
  if negb exists_ then createCollection host rev settings collectionName
  else ret true.

(** ** Retrieval engine *)

(** The recency cutoff of [searchMemories], from the conversation turns. *)
Definition timestampThreshold (settings : Settings)
    (conversationMessages : list ChatMessage) : number :=
  let len := Z.of_nat (List.length conversationMessages) in
  if (0 <? retainRecentMessages settings)
     && (retainRecentMessages settings <? len) then
    let retainIndex := len - retainRecentMessages settings in
    match nth_error conversationMessages (Z.to_nat retainIndex) with
    | Some retainMessage =>
        match normalizeSendDate (send_date retainMessage) with
        | Some normalizedTimestamp => normalizedTimestamp
        | None => Num 0
        end
    | None => Num 0
    end
  else Num 0.

Definition filterConditions (settings : Settings) (threshold : number)
    (characterName : string) : list Condition :=
  (if num_gt0 threshold then [RangeLt "timestamp" threshold] else [])
  ++ (if negb (usePerCharacterCollections settings)
      then [MatchValue "character" characterName] else []).

Definition searchPayload (settings : Settings) (embedding : json)
    (threshold : number) (characterName : string) : SearchPayload :=
  let conditions := filterConditions settings threshold characterName in
  {| search_vector := embedding;
     limit := memoryLimit settings;
     score_threshold := scoreThreshold settings;
     with_payload := true;
     filter_must :=
       match conditions with
       | [] => None
       | _ :: _ => Some conditions
       end |}.

(** [searchMemories] returns the ranked results; it also strips the
    synthetic turns from the context's chat, so the model returns the chat
    as the call leaves it.  The source has one [try] around the body; the
    model splits it where the chat is mutated, so that each handler returns
    the chat as it is when the exception is caught. *)
Definition searchMemories {W} (host : Host W) (rev : revision)
    (settings : Settings) (extension_settings : ExtensionSettings)
    (ctx_chat : list ChatMessage)
    (query characterName : string)
  : Async W (list Memory.t * list ChatMessage) :=
  if negb (enabled settings) then ret ([], ctx_chat)
  else
    try_catch
      (let collectionName := getCollectionName settings characterName in
       collectionReady <- ensureCollection host rev settings characterName ;;
       if negb collectionReady then ret ([], ctx_chat)
       else
         embedding <- generateEmbedding host rev extension_settings query ;;
         if negb (truthy embedding) then ret ([], ctx_chat)
         else
           let chat := removeExistingMemoryEntries ctx_chat in
           let conversationMessages := getConversationMessages chat in
           let threshold := timestampThreshold settings conversationMessages in
           try_catch
             (response <- await_fetch
                            (fetch_search host
                               (collection_url settings collectionName
                                ++ "/points/search")
                               (searchPayload settings embedding threshold
                                              characterName)) ;;
              if negb (fst response) then ret ([], chat)
              else
                data <- response_json (snd response) ;;
                ret (data, chat))
             (ret ([], chat)))
      (ret ([], ctx_chat)).

(** ** Chunk builder *)

(** [chat.slice(-n)] *)
Definition last_n {A} (n : nat) (l : list A) : list A :=
  skipn (List.length l - n) l.

(** [Set.prototype.add] on the insertion-ordered members of a set. *)
Definition set_add (members : list string) (x : string) : list string :=
  if existsb (String.eqb x) members then members else (members ++ [x])%list.

Definition getChatParticipants (context : Context) : list string :=
  let characterName := name2 context in
  if (1 <? characters context)%nat then
    let participants :=
      if String.eqb characterName "" then [] else [characterName] in
    fold_left
      (fun participants msg =>
         if negb (is_user msg) && negb (String.eqb (name msg) "")
            && negb (String.eqb (name msg) "System")
         then set_add participants (name msg) else participants)
      (last_n 50 (chat context)) participants
  else if String.eqb characterName "" then [] else [characterName].

Definition speaker_of (msg : Turn.t) : string :=
  if Turn.isUser msg then "You" else Turn.characterName msg.

Definition line_of (msg : Turn.t) : string :=
  speaker_of msg ++ ": " ++ Turn.text msg ++ Str.nl.

(** What the [forEach] of the chunk builders accumulates. *)
Record Assembly : Type := {
  chunkText : string;
  speakers_set : list string;
  ids : list string;
  oldestTimestamp : sendDate
}.

(** [finalText = `[${dateStr}]\n${finalText}`] inside [try]: a date that
    does not format leaves the text without its prefix. *)
Definition with_date_prefix (time : number) (finalText : string) : string :=
  match DateJS.isoDate time with
  | Normal dateStr => "[" ++ dateStr ++ "]" ++ Str.nl ++ finalText
  | Throw => finalText
  end.

Definition createChunkFromBuffer (now : Z) (messageBuffer : list Turn.t)
  : option Chunk.t :=
  match messageBuffer with
  | [] => None
  | _ :: _ =>
      let currentTimestamp := now in
      let a :=
        fold_left
          (fun a msg =>
             {| chunkText := chunkText a ++ line_of msg;
                speakers_set := set_add (speakers_set a) (speaker_of msg);
                ids := (ids a ++ [Turn.messageId msg])%list;
                oldestTimestamp := oldestTimestamp a |})
          messageBuffer
          {| chunkText := ""; speakers_set := []; ids := [];
             oldestTimestamp := SUndefined |} in
      let finalText := Str.trim (chunkText a) in
      Some {| Chunk.text := with_date_prefix (Num currentTimestamp) finalText;
              Chunk.speakers := speakers_set a;
              Chunk.messageIds := ids a;
              Chunk.messageCount := Z.of_nat (List.length messageBuffer);
              Chunk.timestamp := SNumber (Num currentTimestamp) |}
  end.

(** [ToNumber] of a timestamp. *)
Definition toNumber (v : sendDate) : number :=
  match v with
  | SDate t => t
  | SNumber n => n
  | SString s => Number_of_string s
  | SUndefined => NaN
  | SNull => Num 0
  end.

(** [a < b]: two strings compare by code units, anything else as numbers. *)
Definition js_lt (a b : sendDate) : bool :=
  match a, b with
  | SString x, SString y => Str.ltb x y
  | _, _ => num_ltb (toNumber a) (toNumber b)
  end.

(** [v !== Number.POSITIVE_INFINITY] *)
Definition not_infinity (v : sendDate) : bool :=
  match v with
  | SNumber PInf => false
  | _ => true
  end.

(** The time value of [new Date(v)]. *)
Definition date_of (v : sendDate) : number :=
  match v with
  | SDate t => t
  | SNumber n => n
  | SString s => Date_parse s
  | SUndefined => NaN
  | SNull => Num 0
  end.

Definition createChunkFromMessages (now : Z) (messages : list Turn.t) : Chunk.t :=
  let a :=
    fold_left
      (fun a msg =>
         {| chunkText := chunkText a ++ line_of msg;
            speakers_set := set_add (speakers_set a) (speaker_of msg);
            ids := (ids a ++ [Turn.messageId msg])%list;
            oldestTimestamp :=
              if js_lt (Turn.timestamp msg) (oldestTimestamp a)
              then Turn.timestamp msg else oldestTimestamp a |})
      messages
      {| chunkText := ""; speakers_set := []; ids := [];
         oldestTimestamp := SNumber PInf |} in
  let finalText := Str.trim (chunkText a) in
  {| Chunk.text :=
       if not_infinity (oldestTimestamp a)
       then with_date_prefix (date_of (oldestTimestamp a)) finalText
       else finalText;
     Chunk.speakers := speakers_set a;
     Chunk.messageIds := ids a;
     Chunk.messageCount := Z.of_nat (List.length messages);
     Chunk.timestamp :=
       if not_infinity (oldestTimestamp a) then oldestTimestamp a
       else SNumber (Num now) |}.

(** ** Storage write *)

Definition hex_digit (v : Z) : ascii :=
  nth (Z.to_nat v) (Str.chars "0123456789abcdef") "0"%char.

(** [generateUUID]: every [x] of the template takes a random hexadecimal
    digit [r], the [y] takes [(r & 0x3) | 0x8]. *)
Fixpoint uuid_chars {W} (host : Host W) (template : list ascii)
  : Async W (list ascii) :=
  match template with
  | [] => ret []
  | c :: rest =>
      if Ascii.eqb c "x"%char || Ascii.eqb c "y"%char then
        r <- perform (random16 host) ;;
        let v := if Ascii.eqb c "x"%char then r else Z.lor (Z.land r 3) 8 in
        tail <- uuid_chars host rest ;;
        ret (hex_digit v :: tail)
      else
        tail <- uuid_chars host rest ;;
        ret (c :: tail)
  end.

Definition generateUUID {W} (host : Host W) : Async W string :=
  l <- uuid_chars host (Str.chars "xxxxxxxx-xxxx-4xxx-yxxx-xxxxxxxxxxxx") ;;
  ret (Str.of_chars l).

(** [Promise.all]: every promise runs to its end; the result rejects when
    one of them rejects.  The promises are taken in the order in which
    [map] started them. *)
Fixpoint promise_all {W A} (ps : list (Async W A)) : Async W (list A) :=
  match ps with
  | [] => ret []
  | p :: rest =>
      fun w =>
        let '(r, w1) := p w in
        let '(rs, w2) := promise_all rest w1 in
        (match r, rs with
         | Normal a, Normal l => Normal (a :: l)
         | _, _ => Throw
         end, w2)
  end.

Definition chunk_payload (chunk : Chunk.t) : Payload.t :=
  {| Payload.text := Chunk.text chunk;
     Payload.speakers := Str.join ", " (Chunk.speakers chunk);
     Payload.messageCount := Chunk.messageCount chunk;
     Payload.timestamp := Chunk.timestamp chunk;
     Payload.messageIds := Str.join "," (Chunk.messageIds chunk);
     Payload.isChunk := true |}.

(** The point one participant's collection receives. *)
Definition participant_point (pointId : string) (embedding : json)
    (payload : Payload.t) (characterName : string) : Point :=
  {| id := pointId;
     vector := embedding;
     point_payload := {| base := payload; character := characterName |} |}.

Definition points_url (settings : Settings) (characterName : string) : string :=
  collection_url settings (getCollectionName settings characterName) ++ "/points".

(** The body of the [map] callback of [saveChunkToQdrant]. *)
Definition save_to_participant {W} (host : Host W) (rev : revision)
    (settings : Settings) (pointId : string) (embedding : json)
    (payload : Payload.t) (characterName : string) : Async W bool :=
  collectionReady <- ensureCollection host rev settings characterName ;;
  if negb collectionReady then ret false
  else
    response <- await_fetch
                  (fetch_upsert host (points_url settings characterName)
                     (participant_point pointId embedding payload characterName)) ;;
    if negb (fst response) then ret false else ret true.

Definition saveChunkToQdrant {W} (host : Host W) (rev : revision)
    (settings : Settings) (extension_settings : ExtensionSettings)
    (chunk : Chunk.t)
    (participants : list string) : Async W bool :=
  match participants with
  | [] => ret false
  | _ :: _ =>
      try_catch
        (embedding <- generateEmbedding host rev extension_settings
                                        (Chunk.text chunk) ;;
         if negb (truthy embedding) then ret false
         else
           pointId <- generateUUID host ;;
           let payload := chunk_payload chunk in
           results <- promise_all
                        (map (save_to_participant host rev settings pointId
                                                  embedding payload)
                             participants) ;;
           let successCount := List.length (filter (fun r => r) results) in
           ret (0 <? successCount)%nat)
        (ret false)
  end.

(** ** Buffering state machine *)

(** Where the synchronous start of [processMessageBuffer] leaves a flush. *)
Inductive FlushStart : Type :=
| NothingToFlush
| NoParticipants
| Saving (chunk : Chunk.t) (participants : list string).

(** [processMessageBuffer] up to its [await]. *)
Definition flush_start (now : Z) (context : Context)
    (messageBuffer : list Turn.t) : FlushStart :=
  match messageBuffer with
  | [] => NothingToFlush
  | _ :: _ =>
      match createChunkFromBuffer now messageBuffer with
      | None => NothingToFlush
      | Some chunk =>
          match getChatParticipants context with
          | [] => NoParticipants
          | p :: ps => Saving chunk (p :: ps)
          end
      end
  end.

(** [processMessageBuffer] run to its end with no other task in between:
    the value is the buffer it leaves.  On an empty buffer it returns
    before the clock is read. *)
Definition processMessageBuffer {W} (host : Host W) (rev : revision)
    (settings : Settings) (extension_settings : ExtensionSettings)
    (context : Context) (messageBuffer : list Turn.t)
  : Async W (list Turn.t) :=
  match messageBuffer with
  | [] => ret messageBuffer
  | _ :: _ =>
      now <- perform (date_now host) ;;
      match flush_start now context messageBuffer with
      | NothingToFlush => ret messageBuffer
      | NoParticipants => ret []
      | Saving chunk participants =>
          _ <- saveChunkToQdrant host rev settings extension_settings chunk
                                 participants ;;
          ret []
      end
  end.

(** The module's variables together with the host's pending work: the
    timeouts that are armed, and the flushes that wait for
    [saveChunkToQdrant].  Two histories are kept beside them: [accepted]
    lists every turn pushed into the buffer so far, [handed] every chunk
    handed to [saveChunkToQdrant]. *)
Record Machine : Type := {
  messageBuffer : list Turn.t;
  lastMessageTime : Z;
  chunkTimer : option nat;
  timers : list (nat * Z);
  next_timer : nat;
  inflight : list (Chunk.t * list string);
  accepted : list Turn.t;
  handed : list Chunk.t
}.

Definition initial : Machine :=
  {| messageBuffer := []; lastMessageTime := 0; chunkTimer := None;
     timers := []; next_timer := 1; inflight := []; accepted := [];
     handed := [] |}.

Definition set_buffer (m : Machine) (b : list Turn.t) : Machine :=
  {| messageBuffer := b; lastMessageTime := lastMessageTime m;
     chunkTimer := chunkTimer m; timers := timers m;
     next_timer := next_timer m; inflight := inflight m;
     accepted := accepted m; handed := handed m |}.

(** A call of [processMessageBuffer] that is not awaited: it runs to its
    [await] and leaves the rest pending. *)
Definition start_flush (now : Z) (context : Context) (m : Machine) : Machine :=
  match flush_start now context (messageBuffer m) with
  | NothingToFlush => m
  | NoParticipants => set_buffer m []
  | Saving chunk participants =>
      {| messageBuffer := messageBuffer m; lastMessageTime := lastMessageTime m;
         chunkTimer := chunkTimer m; timers := timers m;
         next_timer := next_timer m;
         inflight := (inflight m ++ [(chunk, participants)])%list;
         accepted := accepted m;
         handed := (handed m ++ [chunk])%list |}
  end.

(** The rest of [processMessageBuffer] once [saveChunkToQdrant] has
    settled: [messageBuffer = []].  [k] is the position of the flush among
    the pending ones. *)
Definition finish_flush (k : nat) (m : Machine) : Machine :=
  match nth_error (inflight m) k with
  | None => m
  | Some _ =>
      {| messageBuffer := []; lastMessageTime := lastMessageTime m;
         chunkTimer := chunkTimer m; timers := timers m;
         next_timer := next_timer m;
         inflight := (firstn k (inflight m) ++ skipn (S k) (inflight m))%list;
         accepted := accepted m; handed := handed m |}
  end.

(** [clearTimeout(h)] *)
Definition clearTimeout (h : nat) (timers : list (nat * Z)) : list (nat * Z) :=
  filter (fun t => negb (Nat.eqb (fst t) h)) timers.

Definition getEffectiveEmbeddingApiKey (settings : Settings) : string :=
  or_else (apiKey settings) (or_else (openaiApiKey settings) "").

Definition providerRequiresApiKey (provider : string) : bool :=
  let normalized := Str.toLowerCase (or_else provider "") in
  String.eqb normalized "openai" || String.eqb normalized "openrouter"
  || String.eqb normalized "huggingface".

(** The API-key guard of [bufferMessage] and [indexCharacterChats]. *)
Definition api_key_missing (rev : revision) (settings : Settings) : bool :=
  match rev with
  | Rev1 => String.eqb (openaiApiKey settings) ""
  | Rev2 => providerRequiresApiKey (provider settings)
            && String.eqb (getEffectiveEmbeddingApiKey settings) ""
  end.

Definition turn_size (msg : Turn.t) : Z :=
  Str.length (Turn.text msg) + Str.length (Turn.characterName msg) + 4.

Definition bufferSize (messageBuffer : list Turn.t) : Z :=
  fold_left (fun size msg => size + turn_size msg) messageBuffer 0.

(** The guards of [bufferMessage]. *)
Definition rejects (rev : revision) (settings : Settings) (text : string)
    (isUser : bool) : bool :=
  negb (autoSaveMemories settings)
  || api_key_missing rev settings
  || (Str.length text <? minMessageLength settings)
  || (isUser && negb (saveUserMessages settings))
  || (negb isUser && negb (saveCharacterMessages settings)).

(** [setTimeout(processMessageBuffer, delay)], kept in [chunkTimer]. *)
Definition arm (delay : Z) (m : Machine) : Machine :=
  {| messageBuffer := messageBuffer m; lastMessageTime := lastMessageTime m;
     chunkTimer := Some (next_timer m);
     timers := (timers m ++ [(next_timer m, delay)])%list;
     next_timer := S (next_timer m);
     inflight := inflight m; accepted := accepted m; handed := handed m |}.

Definition bufferMessage (rev : revision) (settings : Settings) (now : Z)
    (context : Context) (text characterName : string) (isUser : bool)
    (messageId : string) (m : Machine) : Machine :=
  if rejects rev settings text isUser then m
  else
    let turn :=
      {| Turn.text := text; Turn.characterName := characterName;
         Turn.isUser := isUser; Turn.messageId := messageId;
         Turn.timestamp := SUndefined |} in
    let buffer := (messageBuffer m ++ [turn])%list in
    let size := bufferSize buffer in
    let m1 :=
      {| messageBuffer := buffer; lastMessageTime := now;
         chunkTimer := chunkTimer m;
         timers := match chunkTimer m with
                   | Some h => clearTimeout h (timers m)
                   | None => timers m
                   end;
         next_timer := next_timer m;
         inflight := inflight m;
         accepted := (accepted m ++ [turn])%list;
         handed := handed m |} in
    if chunkMaxSize settings <=? size then start_flush now context m1
    else if chunkMinSize settings <=? size then arm 5000 m1
    else arm (chunkTimeout settings) m1.

(** The expiry of timeout [h]: its callback calls [processMessageBuffer]. *)
Definition timer_fires (h : nat) (now : Z) (context : Context) (m : Machine)
  : Machine :=
  if existsb (fun t => Nat.eqb (fst t) h) (timers m) then
    start_flush now context
      {| messageBuffer := messageBuffer m; lastMessageTime := lastMessageTime m;
         chunkTimer := chunkTimer m; timers := clearTimeout h (timers m);
         next_timer := next_timer m; inflight := inflight m;
         accepted := accepted m; handed := handed m |}
  else m.

(** The tasks the event loop runs one after the other. *)
Inductive Event : Type :=
| Arrives (now : Z) (text characterName : string) (isUser : bool)
          (messageId : string)
| TimerFires (h : nat) (now : Z)
| SaveSettles (k : nat).

Definition step (rev : revision) (settings : Settings) (context : Context)
    (m : Machine) (e : Event) : Machine :=
  match e with
  | Arrives now text characterName isUser messageId =>
      bufferMessage rev settings now context text characterName isUser
                    messageId m
  | TimerFires h now => timer_fires h now context m
  | SaveSettles k => finish_flush k m
  end.

Definition run (rev : revision) (settings : Settings) (context : Context)
    (m : Machine) (events : list Event) : Machine :=
  fold_left (step rev settings context) events m.

(** Nothing is pending: no timeout is armed and no flush is in flight. *)
Definition quiescent (m : Machine) : bool :=
  match timers m, inflight m with
  | [], [] => true
  | _, _ => false
  end.

(** The number of chunks handed to storage that hold a turn. *)
Definition times_handed (messageId : string) (m : Machine) : nat :=
  List.length
    (filter (fun c => existsb (String.eqb messageId) (Chunk.messageIds c))
            (handed m)).

(** ** Bulk reindexer *)

Definition chunkExists {W} (host : Host W) (settings : Settings)
    (collectionName : string) (messageIds : list string) : Async W bool :=
  try_catch
    (response <- await_fetch
                   (fetch_scroll host
                      (collection_url settings collectionName ++ "/points/scroll")
                      messageIds) ;;
     if negb (fst response) then ret false
     else
       data <- response_json (snd response) ;;
       ret (match data with
            | Some n => 0 <? n
            | None => false
            end))
    (ret false).

(** Truthiness of a [send_date], for [msg.send_date || Date.now()]. *)
Definition date_truthy (d : sendDate) : bool :=
  match d with
  | SDate _ => true
  | SNumber NaN => false
  | SNumber (Num z) => negb (z =? 0)
  | SNumber _ => true
  | SString s => negb (String.eqb s "")
  | SUndefined | SNull => false
  end.

(** A [send_date] inside a template literal. *)
Definition date_to_string (d : sendDate) : string :=
  match d with
  | SDate t => Date_toString t
  | SNumber n => number_to_string Str.of_Z n
  | SString s => s
  | SUndefined => "undefined"
  | SNull => "null"
  end.

(** The state of the loop of [createChunksFromChat]. *)
Record Packing : Type := {
  chunks : list Chunk.t;
  currentChunk : list Turn.t;
  currentSize : Z
}.

Definition close_chunk (now : Z) (p : Packing) : Packing :=
  {| chunks := (chunks p ++ [createChunkFromMessages now (currentChunk p)])%list;
     currentChunk := [];
     currentSize := 0 |}.

(** One iteration of the loop, on the message at position [i] of the
    transcript.  The members of a loaded transcript are distinct objects, so
    [messages.indexOf(msg)] is the position of [msg]. *)
Definition pack_message (settings : Settings) (characterName : string)
    (now : nat -> Z) (p : Packing) (im : nat * ChatMessage) : Packing :=
  let '(i, msg) := im in
  if is_system msg then p
  else
    let text := Str.trim (mes msg) in
    if String.eqb text "" || (Str.length text <? minMessageLength settings) then p
    else
      let isUser := is_user msg in
      if isUser && negb (saveUserMessages settings) then p
      else if negb isUser && negb (saveCharacterMessages settings) then p
      else
        let messageObj :=
          {| Turn.text := text;
             Turn.characterName := characterName;
             Turn.isUser := isUser;
             Turn.messageId :=
               characterName ++ "_" ++ date_to_string (send_date msg) ++ "_"
               ++ Str.of_Z (Z.of_nat i);
             Turn.timestamp :=
               if date_truthy (send_date msg) then send_date msg
               else SNumber (Num (now i)) |} in
        let messageSize := Str.length text + Str.length characterName + 4 in
        let p1 :=
          if (chunkMaxSize settings <? currentSize p + messageSize)
             && (0 <? List.length (currentChunk p))%nat
          then close_chunk (now i) p else p in
        let p2 :=
          {| chunks := chunks p1;
             currentChunk := (currentChunk p1 ++ [messageObj])%list;
             currentSize := currentSize p1 + messageSize |} in
        if (chunkMinSize settings <=? currentSize p2)
           && (3 <=? List.length (currentChunk p2))%nat
        then close_chunk (now i) p2 else p2.

Definition createChunksFromChat (settings : Settings) (now : nat -> Z)
    (messages : list ChatMessage) (characterName : string) : list Chunk.t :=
  let p :=
    fold_left (pack_message settings characterName now)
              (combine (seq 0 (List.length messages)) messages)
              {| chunks := []; currentChunk := []; currentSize := 0 |} in
  if (0 <? List.length (currentChunk p))%nat
  then chunks (close_chunk (now (List.length messages)) p)
  else chunks p.

(** The counters of [indexCharacterChats] and its [cancelled] flag. *)
Record Progress : Type := {
  totalChunks : Z;
  savedChunks : Z;
  skippedChunks : Z;
  cancelled : bool
}.

(** Reads the flag the click handler of the Cancel button sets. *)
Definition check_cancelled {W} (host : Host W) (p : Progress) : Async W Progress :=
  clicked <- perform (cancel_clicked host) ;;
  ret {| totalChunks := totalChunks p; savedChunks := savedChunks p;
         skippedChunks := skippedChunks p;
         cancelled := cancelled p || clicked |}.

Definition count_skipped (p : Progress) : Progress :=
  {| totalChunks := totalChunks p; savedChunks := savedChunks p;
     skippedChunks := skippedChunks p + 1; cancelled := cancelled p |}.

Definition count_saved (p : Progress) : Progress :=
  {| totalChunks := totalChunks p; savedChunks := savedChunks p + 1;
     skippedChunks := skippedChunks p; cancelled := cancelled p |}.

Definition count_total (n : Z) (p : Progress) : Progress :=
  {| totalChunks := totalChunks p + n; savedChunks := savedChunks p;
     skippedChunks := skippedChunks p; cancelled := cancelled p |}.

(** The loop over the chunks of one transcript. *)
Fixpoint index_chunks {W} (host : Host W) (rev : revision)
    (settings : Settings) (extension_settings : ExtensionSettings)
    (collectionName characterName : string)
    (chunks : list Chunk.t) (p : Progress) : Async W Progress :=
  match chunks with
  | [] => ret p
  | chunk :: rest =>
      p <- check_cancelled host p ;;
      if cancelled p then ret p
      else
        exists_ <- chunkExists host settings collectionName
                               (Chunk.messageIds chunk) ;;
        if exists_ then
          index_chunks host rev settings extension_settings collectionName
                       characterName rest (count_skipped p)
        else
          let participants := [characterName] in
          success <- saveChunkToQdrant host rev settings extension_settings
                                       chunk participants ;;
          index_chunks host rev settings extension_settings collectionName
                       characterName rest
                       (if success then count_saved p else p)
  end.

(** The loop over the transcripts.  The packing of a transcript is
    synchronous; the model reads the clock once for it. *)
Fixpoint index_files {W} (host : Host W) (rev : revision)
    (settings : Settings) (extension_settings : ExtensionSettings)
    (collectionName characterName : string)
    (chatFiles : list string) (p : Progress) : Async W Progress :=
  match chatFiles with
  | [] => ret p
  | chatFile :: rest =>
      p <- check_cancelled host p ;;
      if cancelled p then ret p
      else
        chatData <- perform (load_transcript host characterName chatFile) ;;
        match chatData with
        | None =>
            index_files host rev settings extension_settings collectionName
                        characterName rest p
        | Some messages =>
            now <- perform (date_now host) ;;
            let chunks :=
              createChunksFromChat settings (fun _ => now) messages
                                   characterName in
            p <- index_chunks host rev settings extension_settings
                              collectionName characterName chunks
                              (count_total (Z.of_nat (List.length chunks)) p) ;;
            index_files host rev settings extension_settings collectionName
                        characterName rest p
        end
  end.

(** How [indexCharacterChats] ends. *)
Inductive IndexOutcome : Type :=
| NoCharacter
| NoApiKey
| NoChatFiles
| Finished (p : Progress)
| IndexingError.

Definition indexCharacterChats {W} (host : Host W) (rev : revision)
    (settings : Settings) (extension_settings : ExtensionSettings)
    (context : Context)
  : Async W IndexOutcome :=
  let characterName := name2 context in
  if String.eqb characterName "" then ret NoCharacter
  else if api_key_missing rev settings then ret NoApiKey
  else
    try_catch
      (chatFiles <- perform (list_transcripts host characterName) ;;
       match chatFiles with
       | [] => ret NoChatFiles
       | _ :: _ =>
           let collectionName := getCollectionName settings characterName in
           _ <- ensureCollection host rev settings characterName ;;
           p <- index_files host rev settings extension_settings collectionName
                            characterName chatFiles
                            {| totalChunks := 0; savedChunks := 0;
                               skippedChunks := 0; cancelled := false |} ;;
           ret (Finished p)
       end)
      (ret IndexingError).

(** ** Injection formatter and interceptor *)

Definition dquote : string := String (ascii_of_nat 34) EmptyString.

(** The bullet U+2022 in UTF-8. *)
Definition bullet : string :=
  String (ascii_of_nat 226)
    (String (ascii_of_nat 128) (String (ascii_of_nat 162) EmptyString)).

Definition formatMemories (memories : list Memory.t) : string :=
  match memories with
  | [] => ""
  | _ :: _ =>
      fold_left
        (fun formatted memory =>
           let speakerLabel :=
             if Memory.isChunk memory
             then "Conversation (" ++ Memory.speakers memory ++ ")"
             else if String.eqb (Memory.speaker memory) "user"
                  then "You said" else "Character said" in
           let text := Str.flatten_newlines (Memory.text memory) in
           let score := score_percent (Memory.score memory) in
           formatted ++ bullet ++ " " ++ speakerLabel ++ ": " ++ dquote ++ text
           ++ dquote ++ " (score: " ++ score ++ "%)" ++ Str.nl ++ Str.nl)
        memories
        (Str.nl ++ "[Past chat memories]" ++ Str.nl ++ Str.nl)
  end.

(** [chat.splice(index, 0, entry)]: an index past the end inserts at the
    end, a negative one counts from the end. *)
Definition splice_insert {A} (l : list A) (index : Z) (x : A) : list A :=
  let len := Z.of_nat (List.length l) in
  let start :=
    if index <? 0 then Z.max 0 (len + index) else Z.min index len in
  (firstn (Z.to_nat start) l ++ x :: skipn (Z.to_nat start) l)%list.

(** [chat.slice().reverse().find((msg) => msg.is_user)] *)
Definition lastUserMessage (chat : list ChatMessage) : option ChatMessage :=
  find is_user (rev chat).

Definition memoryEntry (memoryText : string) (now : Z) : ChatMessage :=
  {| name := "System"; is_user := false; is_system := true;
     mes := memoryText; send_date := SNumber (Num now);
     qdrantMemory := true |}.

(** [qdrantMemoryInterceptor]: the value is the [chat] array as the pass
    leaves it.  Nothing inside its [try] throws before the marked turns are
    removed, so the handler returns the chat without them. *)
Definition qdrantMemoryInterceptor {W} (host : Host W) (rev : revision)
    (settings : Settings) (extension_settings : ExtensionSettings)
    (context : Context)
    (chat : list ChatMessage) : Async W (list ChatMessage) :=
  if negb (enabled settings) then ret chat
  else
    let characterName := name2 context in
    if String.eqb characterName "" then ret chat
    else
      let chat := removeExistingMemoryEntries chat in
      try_catch
        (match lastUserMessage chat with
         | None => ret chat
         | Some lastUserMsg =>
             if String.eqb (mes lastUserMsg) "" then ret chat
             else
               let query := mes lastUserMsg in
               found <- searchMemories host rev settings extension_settings
                                       (context_chat context) query
                                       characterName ;;
               let memories := fst found in
               if (0 <? List.length memories)%nat then
                 let memoryText := formatMemories memories in
                 now <- perform (date_now host) ;;
                 let insertIndex :=
                   Z.max 0 (Z.of_nat (List.length chat)
                            - memoryPosition settings) in
                 ret (splice_insert chat insertIndex (memoryEntry memoryText now))
               else ret chat
         end)
        (ret chat).

End Builtins.

(** ** Message hook *)

Section Hook.

Variable Date_toString : number -> string.

(** [onMessageSent], the handler of the host's message events: it hands
    the last turn of the conversation to [bufferMessage].  Nothing inside
    its [try] throws on a chat of records. *)
Definition onMessageSent (rev : revision) (settings : Settings) (now : Z)
    (context : Context) (m : Machine) : Machine :=
  if negb (autoSaveMemories settings) then m
  else
    let chat := context_chat context in
    let characterName := name2 context in
    if String.eqb characterName "" || (List.length chat =? 0)%nat then m
    else
      match nth_error chat (List.length chat - 1) with
      | None => m
      | Some lastMessage =>
          let messageId :=
            characterName ++ "_"
            ++ date_to_string Date_toString (send_date lastMessage) ++ "_"
            ++ Str.of_Z (Z.of_nat (List.length chat)) in
          if negb (String.eqb (mes lastMessage) "")
             && (0 <? Str.length (Str.trim (mes lastMessage)))
          then
            let isUser := is_user lastMessage in
            bufferMessage rev settings now context (mes lastMessage)
                          characterName isUser messageId m
          else m
      end.


End Hook.

(** ** Stored settings *)

(** The object [JSON.parse] makes of the stored text: a member that the
    text does not have is [None]. *)
Record StoredSettings : Type := {
  stored_enabled : option bool;
  stored_provider : option string;
  stored_apiKey : option string;
  stored_baseUrl : option string;
  stored_qdrantUrl : option string;
  stored_collectionName : option string;
  stored_openaiApiKey : option string;
  stored_embeddingModel : option string;
  stored_memoryLimit : option Z;
  stored_scoreThreshold : option Q;
  stored_memoryPosition : option Z;
  stored_debugMode : option bool;
  stored_usePerCharacterCollections : option bool;
  stored_autoSaveMemories : option bool;
  stored_saveUserMessages : option bool;
  stored_saveCharacterMessages : option bool;
  stored_minMessageLength : option Z;
  stored_showMemoryNotifications : option bool;
  stored_retainRecentMessages : option Z;
  stored_chunkMinSize : option Z;
  stored_chunkMaxSize : option Z;
  stored_chunkTimeout : option Z
}.

(** What [localStorage.getItem] gives for the extension: nothing (or the
    empty text), a text that [JSON.parse] refuses, or a parsed object. *)
Inductive StoredItem : Type :=
| NothingStored
| Unparsable
| Parsed (saved : StoredSettings).

Definition member_or {A} (saved : option A) (default : A) : A :=
  match saved with
  | Some v => v
  | None => default
  end.

(** [{ ...defaultSettings, ...saved }] *)
Definition merge_settings (saved : StoredSettings) : Settings := {|
  enabled := member_or (stored_enabled saved) (enabled defaultSettings);
  provider := member_or (stored_provider saved) (provider defaultSettings);
  apiKey := member_or (stored_apiKey saved) (apiKey defaultSettings);
  baseUrl := member_or (stored_baseUrl saved) (baseUrl defaultSettings);
  qdrantUrl := member_or (stored_qdrantUrl saved) (qdrantUrl defaultSettings);
  collectionName := member_or (stored_collectionName saved) (collectionName defaultSettings);
  openaiApiKey := member_or (stored_openaiApiKey saved) (openaiApiKey defaultSettings);
  embeddingModel := member_or (stored_embeddingModel saved) (embeddingModel defaultSettings);
  memoryLimit := member_or (stored_memoryLimit saved) (memoryLimit defaultSettings);
  scoreThreshold := member_or (stored_scoreThreshold saved) (scoreThreshold defaultSettings);
  memoryPosition := member_or (stored_memoryPosition saved) (memoryPosition defaultSettings);
  debugMode := member_or (stored_debugMode saved) (debugMode defaultSettings);
  usePerCharacterCollections := member_or (stored_usePerCharacterCollections saved) (usePerCharacterCollections defaultSettings);
  autoSaveMemories := member_or (stored_autoSaveMemories saved) (autoSaveMemories defaultSettings);
  saveUserMessages := member_or (stored_saveUserMessages saved) (saveUserMessages defaultSettings);
  saveCharacterMessages := member_or (stored_saveCharacterMessages saved) (saveCharacterMessages defaultSettings);
  minMessageLength := member_or (stored_minMessageLength saved) (minMessageLength defaultSettings);
  showMemoryNotifications := member_or (stored_showMemoryNotifications saved) (showMemoryNotifications defaultSettings);
  retainRecentMessages := member_or (stored_retainRecentMessages saved) (retainRecentMessages defaultSettings);
  chunkMinSize := member_or (stored_chunkMinSize saved) (chunkMinSize defaultSettings);
  chunkMaxSize := member_or (stored_chunkMaxSize saved) (chunkMaxSize defaultSettings);
  chunkTimeout := member_or (stored_chunkTimeout saved) (chunkTimeout defaultSettings)
|}.

(** [JSON.parse(JSON.stringify(settings))]: every member is there. *)
Definition stored_of (settings : Settings) : StoredSettings := {|
  stored_enabled := Some (enabled settings);
  stored_provider := Some (provider settings);
  stored_apiKey := Some (apiKey settings);
  stored_baseUrl := Some (baseUrl settings);
  stored_qdrantUrl := Some (qdrantUrl settings);
  stored_collectionName := Some (collectionName settings);
  stored_openaiApiKey := Some (openaiApiKey settings);
  stored_embeddingModel := Some (embeddingModel settings);
  stored_memoryLimit := Some (memoryLimit settings);
  stored_scoreThreshold := Some (scoreThreshold settings);
  stored_memoryPosition := Some (memoryPosition settings);
  stored_debugMode := Some (debugMode settings);
  stored_usePerCharacterCollections := Some (usePerCharacterCollections settings);
  stored_autoSaveMemories := Some (autoSaveMemories settings);
  stored_saveUserMessages := Some (saveUserMessages settings);
  stored_saveCharacterMessages := Some (saveCharacterMessages settings);
  stored_minMessageLength := Some (minMessageLength settings);
  stored_showMemoryNotifications := Some (showMemoryNotifications settings);
  stored_retainRecentMessages := Some (retainRecentMessages settings);
  stored_chunkMinSize := Some (chunkMinSize settings);
  stored_chunkMaxSize := Some (chunkMaxSize settings);
  stored_chunkTimeout := Some (chunkTimeout settings)
|}.

(** [JSON.parse("{}")]: an object without members. *)
Definition no_members : StoredSettings := {|
  stored_enabled := None;
  stored_provider := None;
  stored_apiKey := None;
  stored_baseUrl := None;
  stored_qdrantUrl := None;
  stored_collectionName := None;
  stored_openaiApiKey := None;
  stored_embeddingModel := None;
  stored_memoryLimit := None;
  stored_scoreThreshold := None;
  stored_memoryPosition := None;
  stored_debugMode := None;
  stored_usePerCharacterCollections := None;
  stored_autoSaveMemories := None;
  stored_saveUserMessages := None;
  stored_saveCharacterMessages := None;
  stored_minMessageLength := None;
  stored_showMemoryNotifications := None;
  stored_retainRecentMessages := None;
  stored_chunkMinSize := None;
  stored_chunkMaxSize := None;
  stored_chunkTimeout := None
|}.

(** [if (settings.openaiApiKey && !settings.apiKey)
      settings.apiKey = settings.openaiApiKey], of the second revision. *)
Definition migrate_api_key (s : Settings) : Settings :=
  if negb (String.eqb (openaiApiKey s) "") && String.eqb (apiKey s) "" then
    {|
       enabled := enabled s;
       provider := provider s;
       apiKey := openaiApiKey s;
       baseUrl := baseUrl s;
       qdrantUrl := qdrantUrl s;
       collectionName := collectionName s;
       openaiApiKey := openaiApiKey s;
       embeddingModel := embeddingModel s;
       memoryLimit := memoryLimit s;
       scoreThreshold := scoreThreshold s;
       memoryPosition := memoryPosition s;
       debugMode := debugMode s;
       usePerCharacterCollections := usePerCharacterCollections s;
       autoSaveMemories := autoSaveMemories s;
       saveUserMessages := saveUserMessages s;
       saveCharacterMessages := saveCharacterMessages s;
       minMessageLength := minMessageLength s;
       showMemoryNotifications := showMemoryNotifications s;
       retainRecentMessages := retainRecentMessages s;
       chunkMinSize := chunkMinSize s;
       chunkMaxSize := chunkMaxSize s;
       chunkTimeout := chunkTimeout s
    |}
  else s.

(** [loadSettings]: the value is the [settings] variable as the call leaves
    it. *)
Definition loadSettings (rev : revision) (settings : Settings)
    (item : StoredItem) : Settings :=
  match item with
  | NothingStored => settings
  | Unparsable => settings
  | Parsed saved =>
      match rev with
      | Rev1 => merge_settings saved
      | Rev2 => migrate_api_key (merge_settings saved)
      end
  end.

(** [saveSettings]: what the store holds afterwards. *)
Definition saveSettings (settings : Settings) : StoredItem :=
  Parsed (stored_of settings).

(** ** Transcripts of the host application *)

(** An entry of [context.characters]; a missing [avatar] is the empty
    string. *)
Record Character : Type := {
  char_name : string;
  avatar : string
}.

(** The host application's own endpoints, named after the request. *)
Record Backend (W : Type) : Type := {
  (** [POST /api/characters/chats] with the avatar *)
  fetch_chats : string -> W -> fetch_outcome json * W;
  (** [POST /api/chats/get] with [ch_name], [file_name] and [avatar_url] *)
  fetch_chat : string -> string -> string -> W -> fetch_outcome json * W
}.
Arguments fetch_chats {W}.
Arguments fetch_chat {W}.

(** The avatar both requests name: the one of the first character of that
    name, when it has one, and [<name>.png] otherwise. *)
Definition avatar_url (characters : list Character) (characterName : string)
  : string :=
  match find (fun c => String.eqb (char_name c) characterName) characters with
  | Some char =>
      if String.eqb (avatar char) "" then characterName ++ ".png"
      else avatar char
  | None => characterName ++ ".png"
  end.

(** A value that may be [undefined]. *)
Definition js_value : Type := option json.

Definition truthy_value (v : js_value) : bool :=
  match v with
  | Some j => truthy j
  | None => false
  end.

(** [item.k]: a [TypeError] on [null]. *)
Definition member (k : string) (item : json) : completion js_value :=
  match item with
  | JNull => Throw
  | _ => Normal (prop k item)
  end.

(** The callback of the [map]s of [getCharacterChats]: the item when it is
    a string, else its [file_name], else its [filename], else [null], here
    [None]. *)
Definition entry_name (item : json) : completion (option json) :=
  match item with
  | JStr _ => Normal (Some item)
  | JNull => Throw
  | _ =>
      match prop "file_name" item with
      | Some v =>
          if truthy v then Normal (Some v)
          else
            match prop "filename" item with
            | Some v' => if truthy v' then Normal (Some v') else Normal None
            | None => Normal None
            end
      | None =>
          match prop "filename" item with
          | Some v' => if truthy v' then Normal (Some v') else Normal None
          | None => Normal None
          end
      end
  end.

(** [Array.prototype.map] with a callback that may throw. *)
Fixpoint map_completion {A B} (f : A -> completion B) (l : list A)
  : completion (list B) :=
  match l with
  | [] => Normal []
  | x :: r =>
      match f x with
      | Normal y =>
          match map_completion f r with
          | Normal ys => Normal (y :: ys)
          | Throw => Throw
          end
      | Throw => Throw
      end
  end.

Fixpoint somes {A} (l : list (option A)) : list A :=
  match l with
  | [] => []
  | Some x :: r => x :: somes r
  | None :: r => somes r
  end.

(** [items.map(...).filter((f) => f !== null)] *)
Definition entry_names (items : list json) : completion (list js_value) :=
  match map_completion entry_name items with
  | Normal names => Normal (map Some (somes names))
  | Throw => Throw
  end.

(** The decoding of the answer of [/api/characters/chats]. *)
Definition chat_files (data : json) : completion (list js_value) :=
  match data with
  | JArr items =>
      match items with
      | JStr _ :: _ => Normal (map Some items)
      | first :: _ =>
          if truthy first && truthy_value (prop "file_name" first)
          then map_completion (member "file_name") items
          else entry_names items
      | [] => entry_names items
      end
  | JObj members =>
      match assoc "files" members with
      | Some (JArr items) => entry_names items
      | _ =>
          match assoc "chats" members with
          | Some (JArr items) => entry_names items
          | _ => Normal []
          end
      end
  | _ => Normal []
  end.

Definition lift {W A} (c : completion A) : Async W A :=
  match c with
  | Normal a => ret a
  | Throw => throw
  end.

(** [getCharacterChats]: the transcript files of a character, as the
    entries of the answer name them. *)
Definition getCharacterChats {W} (backend : Backend W)
    (characters : list Character) (characterName : string)
  : Async W (list js_value) :=
  try_catch
    (response <- await_fetch
                   (fetch_chats backend (avatar_url characters characterName)) ;;
     if negb (fst response) then ret []
     else
       data <- response_json (snd response) ;;
       lift (chat_files data))
    (ret []).

(** [chatFile.replace(/\.jsonl$/, "")] *)
Definition strip_jsonl (chatFile : string) : string :=
  if endsWith chatFile ".jsonl"
  then Str.of_chars (firstn (List.length (Str.chars chatFile) - 6)
                            (Str.chars chatFile))
  else chatFile.

(** The file name [loadChatFile] works with: the entry when it is a string,
    else the [file_name] of the entry.  An entry without a [file_name]
    returns [null]; a [file_name] that is not a string fails at [replace]
    and returns [null] from the handler: both are [None]. *)
Definition chat_file_name (chatFile : js_value) : option string :=
  match chatFile with
  | Some (JStr s) => Some s
  | Some entry =>
      if truthy entry then
        match prop "file_name" entry with
        | Some (JStr s) => if String.eqb s "" then None else Some s
        | _ => None
        end
      else None
  | None => None
  end.

(** The decoding of the answer of [/api/chats/get]: the array itself, else
    the array under [chat], else the array under [messages], else the
    object as the only message; [None] is [null]. *)
Definition chat_messages (chatData : json) : option (list json) :=
  match chatData with
  | JArr messages => Some messages
  | JObj members =>
      match assoc "chat" members with
      | Some (JArr messages) => Some messages
      | _ =>
          match assoc "messages" members with
          | Some (JArr messages) => Some messages
          | _ => Some [chatData]
          end
      end
  | _ => None
  end.

Definition loadChatFile {W} (backend : Backend W)
    (characters : list Character) (characterName : string)
    (chatFile : js_value) : Async W (option (list json)) :=
  try_catch
    (match chat_file_name chatFile with
     | None => ret None
     | Some name =>
         response <- await_fetch
                       (fetch_chat backend characterName (strip_jsonl name)
                                   (avatar_url characters characterName)) ;;
         if negb (fst response) then ret None
         else
           chatData <- response_json (snd response) ;;
           ret (chat_messages chatData)
     end)
    (ret None).

(** ** Model menu *)

(** An entry of a model list; a missing [label] is the empty string. *)
Record ModelOption : Type := {
  option_value : string;
  option_label : string
}.

(** The menu as [setModelOptions] leaves it: the options, each with its
    value and its text, and the value that is selected, if any. *)
Record Menu : Type := {
  rendered : list (string * string);
  selected : option string
}.

Definition has_value (value : string) (unique : list (string * string)) : bool :=
  existsb (fun entry => String.eqb (fst entry) value) unique.

(** The [Map] that [setModelOptions] fills: the first option of every
    value, in the order of the list. *)
Definition unique_options (options : list ModelOption)
  : list (string * string) :=
  fold_left
    (fun unique opt =>
       if String.eqb (option_value opt) "" then unique
       else if has_value (option_value opt) unique then unique
       else (unique
             ++ [(option_value opt,
                  or_else (option_label opt) (option_value opt))])%list)
    options [].

(** [setModelOptions]: the menu, and [settings.embeddingModel] as the call
    leaves it. *)
Definition setModelOptions (options : list ModelOption)
    (selectedModel : string) (embeddingModel : string) : Menu * string :=
  let unique := unique_options options in
  let found :=
    if negb (String.eqb selectedModel "") && has_value selectedModel unique
    then Some selectedModel else None in
  let '(shown, saved) :=
    match found with
    | Some v => (unique, Some v)
    | None =>
        if negb (String.eqb selectedModel "")
        then ((unique
               ++ [(selectedModel, (selectedModel ++ " (saved)")%string)])%list,
              Some selectedModel)
        else (unique, None)
    end in
  let finalValue :=
    match saved with
    | Some v => Some v
    | None =>
        match unique with
        | (v, _) :: _ => Some v
        | [] => None
        end
    end in
  ({| rendered := shown; selected := finalValue |},
   match finalValue with
   | Some v => v
   | None => embeddingModel
   end).

(** [EMBEDDING_MODEL_DEFAULTS] *)
Definition openai_models : list ModelOption :=
  [ {| option_value := "text-embedding-3-large";
       option_label := "text-embedding-3-large (best quality)" |};
    {| option_value := "text-embedding-3-small";
       option_label := "text-embedding-3-small (faster)" |};
    {| option_value := "text-embedding-ada-002";
       option_label := "text-embedding-ada-002 (legacy)" |} ].

Definition openrouter_models : list ModelOption :=
  [ {| option_value := "openai/text-embedding-3-large";
       option_label := "OpenAI text-embedding-3-large" |};
    {| option_value := "openai/text-embedding-3-small";
       option_label := "OpenAI text-embedding-3-small" |};
    {| option_value := "cohere/embed-english-v3.0";
       option_label := "Cohere embed-english-v3.0" |};
    {| option_value := "cohere/embed-multilingual-v3.0";
       option_label := "Cohere embed-multilingual-v3.0" |} ].

(** [getDefaultModelsForProvider], for the providers that have a list. *)
Definition getDefaultModelsForProvider (provider : string) : list ModelOption :=
  if String.eqb provider "openai" then openai_models
  else if String.eqb provider "openrouter" then openrouter_models
  else [].

Fixpoint take_segment (l : list ascii) : list ascii :=
  match l with
  | [] => []
  | c :: r => if Ascii.eqb c "/"%char then [] else c :: take_segment r
  end.

(** [s.split("/").pop()] *)
Definition last_segment (s : string) : string :=
  Str.of_chars (rev (take_segment (rev (Str.chars s)))).

(** [models.some((model) => model.value === value)] *)
Definition listed (value : string) (models : list ModelOption) : bool :=
  existsb (fun model => String.eqb (option_value model) value) models.

(** The model [updateModelControls] asks the menu to select. *)
Definition desiredModel (normalizedProvider : string)
    (models : list ModelOption) (savedModel : string) : string :=
  let desired :=
    if String.eqb normalizedProvider "openrouter"
       && negb (String.eqb savedModel "")
       && negb (Str.includes savedModel "/")
    then
      let namespaced := "openai/" ++ savedModel in
      if listed namespaced models then namespaced else savedModel
    else savedModel in
  if String.eqb normalizedProvider "openai"
     && negb (String.eqb savedModel "")
     && Str.includes savedModel "/"
  then
    let trimmed := last_segment savedModel in
    if negb (String.eqb trimmed "") && listed trimmed models then trimmed
    else desired
  else desired.

(** [updateModelControls] as its callers use it, with [forceRefresh], on a
    page that has the settings panel: the value is [settings.embeddingModel]
    as the call leaves it.  [fetched] is the outcome of
    [fetchOpenRouterEmbeddingModels].  The text field of a provider without
    a menu, or with an empty one, is given the saved model and read back. *)
Definition updateModelControls (provider : string)
    (fetched : completion (list ModelOption)) (embeddingModel : string)
  : string :=
  let savedModel := embeddingModel in
  let normalizedProvider := Str.toLowerCase provider in
  if String.eqb normalizedProvider "openai"
     || String.eqb normalizedProvider "openrouter"
  then
    let models :=
      if String.eqb normalizedProvider "openai"
      then getDefaultModelsForProvider "openai"
      else
        match fetched with
        | Normal (model :: more) => model :: more
        | _ => getDefaultModelsForProvider "openrouter"
        end in
    match models with
    | [] => savedModel
    | _ :: _ =>
        snd (setModelOptions models
                             (desiredModel normalizedProvider models savedModel)
                             embeddingModel)
    end
  else savedModel.

(** ** Concrete built-ins and a concrete host

    The theorems below hold for every host and for every choice of the
    platform's functions; where a theorem needs a fact about one of them,
    the fact is a hypothesis.  The instances here are used to run the
    definitions on concrete inputs. *)

Definition digit_value (c : ascii) : option Z :=
  let n := nat_of_ascii c in
  if ((48 <=? n) && (n <=? 57))%nat then Some (Z.of_nat (n - 48)) else None.

Fixpoint digits_value (acc : Z) (l : list ascii) : option Z :=
  match l with
  | [] => Some acc
  | c :: r =>
      match digit_value c with
      | Some d => digits_value (10 * acc + d) r
      | None => None
      end
  end.

(** [Number(s)] on strings of decimal digits; the empty string is [0], as
    in JavaScript, and every other string is [NaN]. *)
Definition digits_Number (s : string) : number :=
  match digits_value 0 (Str.chars (Str.trim s)) with
  | Some z => Num z
  | None => NaN
  end.

(** Day number of a civil date, the inverse of [DateJS.civil_of_days]. *)
Definition days_of_civil (y m d : Z) : Z :=
  let y := if m <=? 2 then y - 1 else y in
  let era := y / 400 in
  let yoe := y - era * 400 in
  let mp := if 2 <? m then m - 3 else m + 9 in
  let doy := (153 * mp + 2) / 5 + d - 1 in
  let doe := yoe * 365 + yoe / 4 - yoe / 100 + doy in
  era * 146097 + doe - 719468.

(** [Date.parse(s)] on dates written [YYYY-MM-DD]; other strings are
    [NaN]. *)
Definition iso_Date_parse (s : string) : number :=
  match Str.chars s with
  | [y1; y2; y3; y4; d1; m1; m2; d2; a1; a2] =>
      if Ascii.eqb d1 "-"%char && Ascii.eqb d2 "-"%char then
        match digits_value 0 [y1; y2; y3; y4], digits_value 0 [m1; m2],
              digits_value 0 [a1; a2] with
        | Some y, Some m, Some d =>
            if (1 <=? m) && (m <=? 12) && (1 <=? d) && (d <=? 31)
            then Num (days_of_civil y m d * DateJS.ms_per_day)
            else NaN
        | _, _, _ => NaN
        end
      else NaN
  | _ => NaN
  end.

Definition plain_Date_toString (t : number) : string :=
  number_to_string Str.of_Z t.

(** A percentage with the half rounded up. *)
Definition rounded_percent (q : Q) : string :=
  Str.of_Z (Qfloor (q * 100 + (1 # 2))%Q).

(** A world that is a clock and the points written so far, each under the
    URL it was sent to. *)
Record TestWorld : Type := {
  clock : Z;
  store : list (string * Point)
}.

Definition point_ids (pt : Point) : string :=
  Payload.messageIds (base (point_payload pt)).

(** A stored point answers a probe when its [messageIds] text holds one of
    the identifiers asked for. *)
Definition probe_hit (scroll_url : string) (messageIds : list string)
    (entry : string * Point) : bool :=
  String.eqb scroll_url (fst entry ++ "/scroll")
  && existsb (Str.includes (point_ids (snd entry))) messageIds.

(** A host in which the vector store works: a write is kept, a probe
    reports the points that were written.  The embedding provider answers
    [embedding]; the search answers [found]; the transcripts are those of
    [transcripts]. *)
Definition test_host (embedding : fetch_outcome json) (found : list Memory.t)
    (transcripts : list (string * list ChatMessage)) : Host TestWorld :=
  {| date_now := fun w => (clock w, {| clock := clock w + 1; store := store w |});
     random16 := fun w => (Z.of_nat (List.length (store w)) mod 16, w);
     fetch_embedding := fun _ w => (embedding, w);
     fetch_collection := fun _ w => (Response true (Some tt), w);
     fetch_create := fun _ _ w => (Response true (Some tt), w);
     fetch_upsert := fun url pt w =>
       (Response true (Some tt),
        {| clock := clock w; store := (store w ++ [(url, pt)])%list |});
     fetch_search := fun _ _ w => (Response true (Some found), w);
     fetch_scroll := fun url messageIds w =>
       (Response true
          (Some (Some (Z.min 1 (Z.of_nat
             (List.length (filter (probe_hit url messageIds) (store w))))))),
        w);
     list_transcripts := fun _ w => (map fst transcripts, w);
     load_transcript := fun _ chatFile w => (assoc chatFile transcripts, w);
     cancel_clicked := fun w => (false, w) |}.

Definition openai_body (v : json) : json :=
  JObj [("data", JArr [JObj [("embedding", v)]])].

Definition unit_vector : json := JArr [JNum 1; JNum 0].

Definition good_embedding : fetch_outcome json :=
  Response true (Some (openai_body unit_vector)).

Definition start_world : TestWorld := {| clock := 1793574540000; store := [] |}.

(** A turn of the live conversation sent at [t]. *)
Definition turn_at (user : bool) (text : string) (t : Z) : ChatMessage :=
  {| name := if user then "Me" else "Bob"; is_user := user; is_system := false;
     mes := text; send_date := SNumber (Num t); qdrantMemory := false |}.

(** * Properties *)

(** ** Platform functions *)

Example isoDate_epoch : DateJS.isoDate (Num 0) = Normal "1970-01-01".
Proof. reflexivity. Qed.

Example isoDate_2026 : DateJS.isoDate (Num 1793574540000) = Normal "2026-11-01".
Proof. reflexivity. Qed.

Example isoDate_before_epoch : DateJS.isoDate (Num (-1)) = Normal "1969-12-31".
Proof. reflexivity. Qed.

Example isoDate_leap_day : DateJS.isoDate (Num 951825600000) = Normal "2000-02-29".
Proof. reflexivity. Qed.

Example isoDate_invalid : DateJS.isoDate NaN = Throw.
Proof. reflexivity. Qed.

Example iso_Date_parse_2026 : iso_Date_parse "2026-11-01" = Num 1793491200000.
Proof. reflexivity. Qed.

Example digits_Number_epoch : digits_Number "1793574540000" = Num 1793574540000.
Proof. reflexivity. Qed.

Example digits_Number_date : digits_Number "2026-11-01" = NaN.
Proof. reflexivity. Qed.

Example getCollectionName_sanitizes :
  getCollectionName defaultSettings "  Dr. Bob-the_2nd!! " = "mem_dr_bob-the_2nd".
Proof. reflexivity. Qed.

(** ** Temporal normalizer *)

(** A string that looks like a number: decimal digits, one at least, with
    at most white space around them; its value. *)
Definition decimal_text (s : string) : option Z :=
  if String.eqb (Str.trim s) "" then None
  else digits_value 0 (Str.chars (Str.trim s)).

(** [Number.MAX_SAFE_INTEGER]: the integers up to it are numbers of the
    platform as they are written. *)
Definition max_safe_integer : Z := 9007199254740991.

Section NormalizerFacts.

Variable Number_of_string : string -> number.
Variable Date_parse : string -> number.

Let normalize := normalizeSendDate Number_of_string Date_parse.

(** A turn is kept by [getConversationMessages] when its timestamp
    normalises. *)
Lemma resolvable_iff (msg : ChatMessage) :
  resolvable Number_of_string Date_parse msg = true <->
  exists t, normalize (send_date msg) = Some t.
Proof.
  unfold resolvable, normalize.
  destruct (normalizeSendDate _ _ _) as [t|]; split; intro H.
  - exists t. reflexivity.
  - reflexivity.
  - discriminate.
  - destruct H as [t H]. discriminate.
Qed.

(** What the language fixes of [Number] on strings: white space around the
    text is ignored, the empty text is [0], and a run of decimal digits is
    the integer it writes. *)
Hypothesis Number_blank :
  forall s, Str.trim s = "" -> Number_of_string s = Num 0.
Hypothesis Number_decimal :
  forall s z, decimal_text s = Some z -> z <= max_safe_integer ->
              Number_of_string s = Num z.

(** C7, amended.  Normalization returns the time value of a [Date] object
    and the value of a number, also when that is [NaN] (an invalid [Date],
    the number [NaN]): it is returned, not the sentinel.  A string of
    decimal digits returns the integer it writes, whatever [Date.parse]
    would make of it; the empty string and a string of white space return
    [0], as [Number] reads them; every other string that [Number] reads
    returns that number, before [Date.parse] is tried.  A string that
    [Number] does not read and [Date.parse] reads returns the value of
    [Date.parse].  The sentinel is returned exactly for an input that is
    neither a [Date], a number nor a string, and for a string that neither
    function reads. *)
Theorem normalizeSendDate_forms :
  (forall t, normalize (SDate t) = Some t)
  /\ (forall n, normalize (SNumber n) = Some n)
  /\ normalize (SDate NaN) <> None
  /\ normalize (SNumber NaN) <> None
  /\ (forall s z, decimal_text s = Some z -> z <= max_safe_integer ->
                  normalize (SString s) = Some (Num z))
  /\ (forall s, Str.trim s = "" -> normalize (SString s) = Some (Num 0))
  /\ (forall s, isNaN (Number_of_string s) = false ->
                normalize (SString s) = Some (Number_of_string s))
  /\ (forall s, isNaN (Number_of_string s) = true ->
                isNaN (Date_parse s) = false ->
                normalize (SString s) = Some (Date_parse s))
  /\ (forall d, normalize d = None <->
                (d = SUndefined \/ d = SNull
                 \/ exists s, d = SString s
                              /\ isNaN (Number_of_string s) = true
                              /\ isNaN (Date_parse s) = true)).
Proof.
  unfold normalize.
  split; [reflexivity |]. split; [reflexivity |].
  split; [discriminate |]. split; [discriminate |].
  split.
  { intros s z Hz Hsafe. cbn [normalizeSendDate].
    rewrite (Number_decimal s z Hz Hsafe). reflexivity. }
  split.
  { intros s Hs. cbn [normalizeSendDate].
    rewrite (Number_blank s Hs). reflexivity. }
  split.
  { intros s Hn. cbn [normalizeSendDate]. rewrite Hn. reflexivity. }
  split.
  { intros s Hn Hd. cbn [normalizeSendDate]. rewrite Hn, Hd. reflexivity. }
  intro d. split.
  - destruct d as [t | n | s | | ]; cbn [normalizeSendDate]; intro H;
      try discriminate; auto.
    destruct (isNaN (Number_of_string s)) eqn:Hn; cbn [negb] in H;
      try discriminate.
    destruct (isNaN (Date_parse s)) eqn:Hd; cbn [negb] in H; try discriminate.
    right. right. exists s. auto.
  - intros [-> | [-> | (s & -> & Hn & Hd)]]; cbn [normalizeSendDate];
      try reflexivity.
    rewrite Hn, Hd. reflexivity.
Qed.

End NormalizerFacts.

(** The stand-ins read blank texts and decimal digits as [Number] does. *)
Lemma digits_Number_blank (s : string) :
  Str.trim s = "" -> digits_Number s = Num 0.
Proof. intro H. unfold digits_Number. rewrite H. reflexivity. Qed.

Lemma digits_Number_decimal (s : string) (z : Z) :
  decimal_text s = Some z -> z <= max_safe_integer -> digits_Number s = Num z.
Proof.
  unfold decimal_text, digits_Number. intros H _.
  destruct (String.eqb (Str.trim s) ""); [discriminate |].
  rewrite H. reflexivity.
Qed.

Lemma normalizeSendDate_forms_witness :
  normalizeSendDate digits_Number iso_Date_parse (SString "1793574540000")
  = Some (Num 1793574540000)
  /\ normalizeSendDate digits_Number iso_Date_parse (SString "   ")
     = Some (Num 0)
  /\ normalizeSendDate digits_Number iso_Date_parse (SString "2026-11-01")
     = Some (Num 1793491200000)
  /\ normalizeSendDate digits_Number iso_Date_parse (SString "yesterday") = None.
Proof.
  destruct (normalizeSendDate_forms digits_Number iso_Date_parse
              digits_Number_blank digits_Number_decimal)
    as (_ & _ & _ & _ & Hdecimal & Hblank & _ & Hdate & Hnone).
  split; [apply (Hdecimal "1793574540000"); [reflexivity | discriminate] |].
  split; [apply (Hblank "   "); reflexivity |].
  split; [apply (Hdate "2026-11-01"); reflexivity |].
  apply (proj2 (Hnone (SString "yesterday"))).
  right. right. exists "yesterday". repeat split.
Defined.

Example normalizeSendDate_empty_string :
  normalizeSendDate digits_Number iso_Date_parse (SString "") = Some (Num 0).
Proof. reflexivity. Qed.

(** The last clause of the claim of the design document, as it is stated:
    an input that cannot be parsed gets the sentinel.  A string cannot be
    parsed when it neither looks like a number nor is a calendar date. *)
Definition unparseable_gets_sentinel : Prop :=
  forall s : string,
    decimal_text s = None ->
    iso_Date_parse s = NaN ->
    normalizeSendDate digits_Number iso_Date_parse (SString s) = None.

(** C7, as stated, fails: the empty string holds no digit and no date, and
    normalization returns [0] for it, since [Number] reads it as [0]. *)
Lemma unparseable_gets_sentinel_fails : ~ unparseable_gets_sentinel.
Proof.
  intro H. specialize (H "" eq_refl eq_refl). discriminate H.
Qed.

(** ** Retrieval engine *)

(** Running a sequenced computation: the first part, then the rest. *)
Lemma bind_run {A B} {V : Type} (m : Async V A) (k : A -> Async V B) (v : V) :
  bind m k v
  = match m v with
    | (Normal a, v') => k a v'
    | (Throw, v') => (Throw, v')
    end.
Proof. reflexivity. Qed.

Section RetrievalFacts.

Variable Number_of_string : string -> number.
Variable Date_parse : string -> number.

Let normalize := normalizeSendDate Number_of_string Date_parse.
Let conversation := getConversationMessages Number_of_string Date_parse.
Let threshold := timestampThreshold Number_of_string Date_parse.

Lemma conversation_resolvable (chat : list ChatMessage) (msg : ChatMessage) :
  In msg (conversation chat) ->
  qdrantMemory msg = false /\ exists t, normalize (send_date msg) = Some t.
Proof.
  unfold conversation, getConversationMessages. intro H.
  apply filter_In in H. destruct H as [_ H].
  unfold isQdrantMemoryMessage in H.
  destruct (qdrantMemory msg); [discriminate |].
  split; [reflexivity |]. apply resolvable_iff. exact H.
Qed.

Lemma removeExistingMemoryEntries_filter (chat : list ChatMessage) :
  removeExistingMemoryEntries chat
  = filter (fun msg => negb (qdrantMemory msg)) chat.
Proof.
  induction chat as [| msg rest IH]; simpl; [reflexivity |].
  unfold isQdrantMemoryMessage. rewrite IH.
  destruct (qdrantMemory msg); reflexivity.
Qed.

Lemma removeExistingMemoryEntries_unmarked (chat : list ChatMessage) (msg : ChatMessage) :
  In msg (removeExistingMemoryEntries chat) -> qdrantMemory msg = false.
Proof.
  rewrite removeExistingMemoryEntries_filter. intro H.
  apply filter_In in H. destruct H as [_ H].
  destruct (qdrantMemory msg); [discriminate | reflexivity].
Qed.

(** The cutoff is the normalised timestamp of the turn at the retain
    boundary. *)
Lemma timestampThreshold_boundary (settings : Settings) (chat : list ChatMessage) :
  let conv := conversation (removeExistingMemoryEntries chat) in
  let retain := retainRecentMessages settings in
  0 < retain ->
  retain < Z.of_nat (List.length conv) ->
  exists msg,
    nth_error conv (List.length conv - Z.to_nat retain) = Some msg
    /\ normalize (send_date msg) = Some (threshold settings conv).
Proof.
  intros conv retain Hpos Hlen.
  assert (Hidx : (List.length conv - Z.to_nat retain < List.length conv)%nat) by lia.
  destruct (nth_error conv (List.length conv - Z.to_nat retain)) as [msg|] eqn:Hnth.
  2:{ apply nth_error_None in Hnth. lia. }
  exists msg. split; [reflexivity |].
  assert (Hin : In msg conv) by (eapply nth_error_In; exact Hnth).
  apply conversation_resolvable in Hin. destruct Hin as [_ [t Ht]].
  unfold threshold, timestampThreshold. fold conv. fold retain.
  replace (0 <? retain) with true by (symmetry; apply Z.ltb_lt; lia).
  replace (retain <? Z.of_nat (List.length conv)) with true
    by (symmetry; apply Z.ltb_lt; lia).
  simpl.
  replace (Z.to_nat (Z.of_nat (List.length conv) - retain))
    with (List.length conv - Z.to_nat retain)%nat by lia.
  rewrite Hnth. unfold normalize in *. rewrite Ht. reflexivity.
Qed.

(** The query [searchMemories] sends once the collection is ready and the
    query text is embedded: the payload built from the cutoff of the
    stripped conversation. *)
Lemma searchMemories_query {W : Type} (host : Host W) (rev : revision)
    (settings : Settings) (cfg : ExtensionSettings)
    (ctx_chat : list ChatMessage)
    (query characterName : string) (embedding : json) (w w1 w2 : W) :
  enabled settings = true ->
  ensureCollection host rev settings characterName w = (Normal true, w1) ->
  generateEmbedding host rev cfg query w1 = (Normal embedding, w2) ->
  truthy embedding = true ->
  let stripped := removeExistingMemoryEntries ctx_chat in
  let sent :=
    searchPayload settings embedding
                  (threshold settings (conversation stripped)) characterName in
  let url :=
    collection_url settings (getCollectionName settings characterName)
    ++ "/points/search" in
  searchMemories Number_of_string Date_parse host rev settings cfg ctx_chat
                 query characterName w
  = match fetch_search host url sent w2 with
    | (Response true (Some found), w3) => (Normal (found, stripped), w3)
    | (_, w3) => (Normal ([], stripped), w3)
    end.
Proof.
  intros Hen Hready Hemb Htruthy stripped sent url.
  unfold searchMemories. rewrite Hen. cbn [negb].
  unfold try_catch at 1. rewrite bind_run, Hready. cbn [negb].
  rewrite bind_run, Hemb, Htruthy. cbn [negb].
  fold stripped. unfold try_catch. rewrite bind_run. unfold await_fetch.
  fold conversation. fold threshold. fold sent. fold url.
  destruct (fetch_search host url sent w2) as [[| ok body] w3];
    [reflexivity |].
  cbn [fst snd]. destruct ok; cbn [negb]; [| reflexivity].
  rewrite bind_run. destruct body as [found |]; reflexivity.
Qed.

(** C6.  After the synthetic memory turns are stripped and only the turns
    with a resolvable timestamp are kept, a positive retention setting that
    is smaller than the number of such turns makes the cutoff the timestamp
    of the turn [retainRecentMessages] turns from the end: with ten turns and
    a retention of five, the turn at index 5.  The strictly-less-than
    timestamp condition is in the query exactly when the cutoff is greater
    than 0, and the exact-match condition on the character exactly when
    per-character collections are disabled.  The query that is sent carries
    these conditions and the cutoff of the stripped conversation. *)
Theorem searchMemories_recency_cutoff :
  (forall settings chat,
      let conv := conversation (removeExistingMemoryEntries chat) in
      let retain := retainRecentMessages settings in
      0 < retain ->
      retain < Z.of_nat (List.length conv) ->
      exists msg,
        nth_error conv (List.length conv - Z.to_nat retain) = Some msg
        /\ normalize (send_date msg) = Some (threshold settings conv))
  /\ (forall settings chat,
         let conv := conversation (removeExistingMemoryEntries chat) in
         List.length conv = 10%nat ->
         retainRecentMessages settings = 5 ->
         exists msg,
           nth_error conv 5 = Some msg
           /\ normalize (send_date msg) = Some (threshold settings conv))
  /\ (forall settings cutoff characterName key bound,
         In (RangeLt key bound) (filterConditions settings cutoff characterName)
         <-> (num_gt0 cutoff = true /\ key = "timestamp" /\ bound = cutoff))
  /\ (forall settings cutoff characterName key value,
         In (MatchValue key value) (filterConditions settings cutoff characterName)
         <-> (usePerCharacterCollections settings = false
              /\ key = "character" /\ value = characterName))
  /\ (forall settings embedding cutoff characterName,
         filter_must (searchPayload settings embedding cutoff characterName)
         = match filterConditions settings cutoff characterName with
           | [] => None
           | c :: cs => Some (c :: cs)
           end)
  /\ (forall (W : Type) (host : Host W) rev settings cfg ctx_chat query
             characterName embedding (w w1 w2 : W),
         enabled settings = true ->
         ensureCollection host rev settings characterName w = (Normal true, w1) ->
         generateEmbedding host rev cfg query w1 = (Normal embedding, w2) ->
         truthy embedding = true ->
         let stripped := removeExistingMemoryEntries ctx_chat in
         searchMemories Number_of_string Date_parse host rev settings cfg
                        ctx_chat query characterName w
         = match
             fetch_search host
               (collection_url settings (getCollectionName settings characterName)
                ++ "/points/search")
               (searchPayload settings embedding
                              (threshold settings (conversation stripped))
                              characterName) w2
           with
           | (Response true (Some found), w3) => (Normal (found, stripped), w3)
           | (_, w3) => (Normal ([], stripped), w3)
           end).
Proof.
  split; [exact timestampThreshold_boundary |].
  split.
  { intros settings chat conv Hlen Hret.
    destruct (timestampThreshold_boundary settings chat) as [msg [Hnth Hn]].
    - rewrite Hret. lia.
    - fold conv. rewrite Hlen, Hret. lia.
    - exists msg. fold conv in Hnth, Hn. rewrite Hlen, Hret in Hnth.
      split; [exact Hnth | exact Hn]. }
  split.
  { intros settings cutoff characterName key bound.
    unfold filterConditions. rewrite in_app_iff.
    destruct (num_gt0 cutoff); destruct (usePerCharacterCollections settings);
      simpl; split; intro H.
    all: repeat match goal with
           | H : _ \/ _ |- _ => destruct H
           | H : _ /\ _ |- _ => destruct H
           | H : False |- _ => destruct H
           | H : RangeLt _ _ = RangeLt _ _ |- _ => inversion H; clear H; subst
           | H : MatchValue _ _ = RangeLt _ _ |- _ => discriminate H
           | H : false = true |- _ => discriminate H
           end; subst; auto. }
  split.
  { intros settings cutoff characterName key value.
    unfold filterConditions. rewrite in_app_iff.
    destruct (num_gt0 cutoff); destruct (usePerCharacterCollections settings);
      simpl; split; intro H.
    all: repeat match goal with
           | H : _ \/ _ |- _ => destruct H
           | H : _ /\ _ |- _ => destruct H
           | H : False |- _ => destruct H
           | H : MatchValue _ _ = MatchValue _ _ |- _ => inversion H; clear H; subst
           | H : RangeLt _ _ = MatchValue _ _ |- _ => discriminate H
           | H : true = false |- _ => discriminate H
           end; subst; auto. }
  split.
  { intros settings embedding cutoff characterName. unfold searchPayload. simpl.
    destruct (filterConditions settings cutoff characterName); reflexivity. }
  intros W host rev settings cfg ctx_chat query characterName embedding w w1 w2.
  apply searchMemories_query.
Qed.

End RetrievalFacts.

(** Ten turns sent one second apart, and a synthetic memory turn among
    them. *)
Definition ten_turns : list ChatMessage :=
  map (fun i => turn_at (Nat.even i) "hello there" (1000 * Z.of_nat i)) (seq 1 10).

Definition injected_turn : ChatMessage := memoryEntry "[Past chat memories]" 99000.

Definition live_chat : list ChatMessage :=
  (firstn 8 ten_turns ++ injected_turn :: skipn 8 ten_turns)%list.

Lemma searchMemories_recency_cutoff_witness :
  exists msg,
    nth_error (getConversationMessages digits_Number iso_Date_parse
                 (removeExistingMemoryEntries live_chat)) 5 = Some msg
    /\ send_date msg = SNumber (Num 6000)
    /\ timestampThreshold digits_Number iso_Date_parse defaultSettings
         (getConversationMessages digits_Number iso_Date_parse
            (removeExistingMemoryEntries live_chat)) = Num 6000.
Proof.
  destruct (searchMemories_recency_cutoff digits_Number iso_Date_parse)
    as (Hcut & _).
  destruct (Hcut defaultSettings live_chat) as [msg [Hnth Hn]].
  - simpl. lia.
  - vm_compute. reflexivity.
  - exists msg. vm_compute in Hnth. vm_compute.
    injection Hnth as <-. split; [reflexivity |]. split; reflexivity.
Defined.

(** ** Buffering state machine *)

(** The API-key guard of [bufferMessage] as each revision has it.  The
    first revision tests [openaiApiKey] alone, whatever the provider; the
    second tests whether the provider requires a key and neither [apiKey]
    nor [openaiApiKey] holds one. *)
Definition api_key_guard (rev : revision) (settings : Settings) : Prop :=
  match rev with
  | Rev1 => openaiApiKey settings = ""
  | Rev2 => providerRequiresApiKey (provider settings) = true
            /\ getEffectiveEmbeddingApiKey settings = ""
  end.

Definition guarded (rev : revision) (settings : Settings) (text : string)
    (isUser : bool) : Prop :=
  autoSaveMemories settings = false
  \/ api_key_guard rev settings
  \/ Str.length text < minMessageLength settings
  \/ (isUser = true /\ saveUserMessages settings = false)
  \/ (isUser = false /\ saveCharacterMessages settings = false).

Lemma api_key_missing_iff (rev : revision) (settings : Settings) :
  api_key_missing rev settings = true <-> api_key_guard rev settings.
Proof.
  destruct rev; simpl.
  - apply String.eqb_eq.
  - rewrite andb_true_iff, String.eqb_eq. reflexivity.
Qed.

Lemma rejects_iff (rev : revision) (settings : Settings) (text : string)
    (isUser : bool) :
  rejects rev settings text isUser = true <-> guarded rev settings text isUser.
Proof.
  unfold rejects, guarded.
  rewrite !orb_true_iff, !andb_true_iff, !negb_true_iff, Z.ltb_lt,
    api_key_missing_iff.
  tauto.
Qed.

Lemma bufferSize_from (l : list Turn.t) (a : Z) :
  fold_left (fun size msg => size + turn_size msg) l a
  = a + fold_right Z.add 0 (map turn_size l).
Proof.
  revert a. induction l as [| x l IH]; intro a; simpl; [lia |].
  rewrite IH. lia.
Qed.

Lemma bufferSize_sum (l : list Turn.t) :
  bufferSize l = fold_right Z.add 0 (map turn_size l).
Proof. unfold bufferSize. rewrite bufferSize_from. lia. Qed.

Lemma clearTimeout_gone (h : nat) (d : Z) (l : list (nat * Z)) :
  ~ In (h, d) (clearTimeout h l).
Proof.
  unfold clearTimeout. intro H. apply filter_In in H. destruct H as [_ H].
  simpl in H. rewrite Nat.eqb_refl in H. discriminate.
Qed.

Lemma createChunkFromBuffer_some (now : Z) (buffer : list Turn.t) :
  buffer <> [] -> exists chunk, createChunkFromBuffer now buffer = Some chunk.
Proof.
  destruct buffer as [| t r]; [congruence |]. intros _.
  unfold createChunkFromBuffer. eexists. reflexivity.
Qed.

Lemma flush_start_cases (now : Z) (context : Context) (buffer : list Turn.t) :
  buffer <> [] ->
  exists chunk, createChunkFromBuffer now buffer = Some chunk
    /\ flush_start now context buffer
       = match getChatParticipants context with
         | [] => NoParticipants
         | p :: ps => Saving chunk (p :: ps)
         end.
Proof.
  intro Hne. destruct (createChunkFromBuffer_some now buffer Hne) as [chunk Hc].
  exists chunk. split; [exact Hc |].
  unfold flush_start. destruct buffer; [congruence |]. rewrite Hc. reflexivity.
Qed.

(** C4, amended.  [bufferMessage] leaves everything as it is exactly when
    auto-save is disabled, when the API-key guard of the revision holds
    (the first revision: [openaiApiKey] is empty, whatever the provider;
    the second: the provider requires an API key and neither [apiKey] nor
    [openaiApiKey] is set), when the text is shorter than the minimum
    length, or when the save-type toggles exclude the turn.  Otherwise the
    turn is appended; the buffered
    size is the sum of [text.length + characterName.length + 4] over the
    buffered turns; the pending timer is cancelled; at the maximum size the
    flush starts at once and no timer is armed, at the minimum size a
    5-second timer is armed, and below it the configured timeout. *)
Theorem bufferMessage_transitions
    (rev : revision) (settings : Settings) (now : Z) (context : Context)
    (text characterName : string) (isUser : bool) (messageId : string)
    (m : Machine) :
  let turn :=
    {| Turn.text := text; Turn.characterName := characterName;
       Turn.isUser := isUser; Turn.messageId := messageId;
       Turn.timestamp := SUndefined |} in
  let buffer := (messageBuffer m ++ [turn])%list in
  let size :=
    fold_right Z.add 0
      (map (fun t => Str.length (Turn.text t)
                     + Str.length (Turn.characterName t) + 4) buffer) in
  let pending :=
    match chunkTimer m with
    | Some h => clearTimeout h (timers m)
    | None => timers m
    end in
  let m' := bufferMessage rev settings now context text characterName isUser
                          messageId m in
  (m' = m <-> guarded rev settings text isUser)
  /\ (forall h d, chunkTimer m = Some h -> ~ In (h, d) pending)
  /\ (~ guarded rev settings text isUser ->
      accepted m' = (accepted m ++ [turn])%list
      /\ lastMessageTime m' = now
      /\ bufferSize buffer = size
      /\ (chunkMaxSize settings <= size ->
          timers m' = pending
          /\ chunkTimer m' = chunkTimer m
          /\ exists chunk,
               createChunkFromBuffer now buffer = Some chunk
               /\ match getChatParticipants context with
                  | [] => messageBuffer m' = []
                          /\ inflight m' = inflight m
                          /\ handed m' = handed m
                  | p :: ps =>
                      messageBuffer m' = buffer
                      /\ inflight m' = (inflight m ++ [(chunk, p :: ps)])%list
                      /\ handed m' = (handed m ++ [chunk])%list
                  end)
      /\ (size < chunkMaxSize settings ->
          messageBuffer m' = buffer
          /\ inflight m' = inflight m
          /\ handed m' = handed m
          /\ chunkTimer m' = Some (next_timer m)
          /\ timers m'
             = (pending
                ++ [(next_timer m,
                     if chunkMinSize settings <=? size then 5000
                     else chunkTimeout settings)])%list)).
Proof.
  intros turn buffer size pending m'.
  assert (Hsize : bufferSize buffer = size) by apply bufferSize_sum.
  assert (Hne : buffer <> []) by (unfold buffer; destruct (messageBuffer m); discriminate).
  assert (Hacc : rejects rev settings text isUser = false ->
                 accepted m' = (accepted m ++ [turn])%list
                 /\ lastMessageTime m' = now
                 /\ (chunkMaxSize settings <= size ->
                     m' = start_flush now context
                            {| messageBuffer := buffer; lastMessageTime := now;
                               chunkTimer := chunkTimer m; timers := pending;
                               next_timer := next_timer m; inflight := inflight m;
                               accepted := (accepted m ++ [turn])%list;
                               handed := handed m |})
                 /\ (size < chunkMaxSize settings ->
                     m' = arm (if chunkMinSize settings <=? size then 5000
                               else chunkTimeout settings)
                            {| messageBuffer := buffer; lastMessageTime := now;
                               chunkTimer := chunkTimer m; timers := pending;
                               next_timer := next_timer m; inflight := inflight m;
                               accepted := (accepted m ++ [turn])%list;
                               handed := handed m |})).
  { intro Hrej. unfold m', bufferMessage. rewrite Hrej.
    fold turn. fold buffer. rewrite Hsize. fold pending.
    destruct (chunkMaxSize settings <=? size) eqn:Hmax.
    - apply Z.leb_le in Hmax.
      unfold start_flush. simpl.
      destruct (flush_start now context buffer); simpl;
        repeat split; try reflexivity; intros; try lia.
    - apply Z.leb_gt in Hmax.
      destruct (chunkMinSize settings <=? size); simpl;
        repeat split; try reflexivity; intros; try lia. }
  split.
  { rewrite <- rejects_iff. split.
    - intro Heq. destruct (rejects rev settings text isUser) eqn:Hrej;
        [reflexivity |].
      destruct (Hacc eq_refl) as [Ha _]. rewrite Heq in Ha.
      apply (f_equal (@List.length _)) in Ha. rewrite length_app in Ha.
      simpl in Ha. lia.
    - intro Hrej. unfold m', bufferMessage. rewrite Hrej. reflexivity. }
  split.
  { intros h d Hh. unfold pending. rewrite Hh. apply clearTimeout_gone. }
  intro Hng.
  assert (Hrej : rejects rev settings text isUser = false).
  { destruct (rejects rev settings text isUser) eqn:E; [| reflexivity].
    exfalso. apply Hng. apply rejects_iff. exact E. }
  destruct (Hacc Hrej) as (Ha & Ht & Hflush & Harm).
  split; [exact Ha |]. split; [exact Ht |]. split; [exact Hsize |].
  split.
  - intro Hmax. specialize (Hflush Hmax).
    destruct (flush_start_cases now context buffer Hne) as [chunk [Hc Hfs]].
    rewrite Hflush. unfold start_flush. simpl. rewrite Hfs.
    destruct (getChatParticipants context) as [| p ps]; simpl.
    + repeat split; try reflexivity. exists chunk. repeat split; assumption.
    + repeat split; try reflexivity. exists chunk. repeat split; assumption.
  - intro Hlt. specialize (Harm Hlt). rewrite Harm. simpl.
    repeat split; reflexivity.
Qed.

Definition with_api_key (key : string) (s : Settings) : Settings :=
  {| enabled := enabled s; provider := provider s; apiKey := key;
     baseUrl := baseUrl s; qdrantUrl := qdrantUrl s;
     collectionName := collectionName s; openaiApiKey := key;
     embeddingModel := embeddingModel s; memoryLimit := memoryLimit s;
     scoreThreshold := scoreThreshold s; memoryPosition := memoryPosition s;
     debugMode := debugMode s;
     usePerCharacterCollections := usePerCharacterCollections s;
     autoSaveMemories := autoSaveMemories s;
     saveUserMessages := saveUserMessages s;
     saveCharacterMessages := saveCharacterMessages s;
     minMessageLength := minMessageLength s;
     showMemoryNotifications := showMemoryNotifications s;
     retainRecentMessages := retainRecentMessages s;
     chunkMinSize := chunkMinSize s; chunkMaxSize := chunkMaxSize s;
     chunkTimeout := chunkTimeout s |}.

Definition keyed_settings : Settings := with_api_key "sk-test" defaultSettings.

(** A one-on-one chat with the character Bob. *)
Definition solo_context : Context :=
  {| chat := []; name2 := "Bob"; characters := 1 |}.

Lemma bufferMessage_transitions_witness :
  let m' := bufferMessage Rev2 keyed_settings 1000 solo_context
                          "hello there" "Bob" false "Bob_1000_1" initial in
  List.length (messageBuffer m') = 1%nat
  /\ inflight m' = []
  /\ chunkTimer m' = Some 1%nat
  /\ timers m' = [(1%nat, 30000)].
Proof.
  intro m'.
  destruct (bufferMessage_transitions Rev2 keyed_settings 1000 solo_context
              "hello there" "Bob" false "Bob_1000_1" initial)
    as (_ & _ & Haccepted).
  destruct Haccepted as (_ & _ & _ & _ & Harm).
  - intro G. apply rejects_iff in G. vm_compute in G. discriminate G.
  - destruct Harm as (Hb & Hi & _ & Hc & Ht).
    + vm_compute. reflexivity.
    + fold m' in Hb, Hi, Hc, Ht.
      rewrite Hb, Hi, Hc, Ht. repeat split.
Defined.

(** The guard as the design document states it: the configured provider
    requires an API key and none is set. *)
Definition key_required_and_missing (settings : Settings) : Prop :=
  providerRequiresApiKey (provider settings) = true
  /\ getEffectiveEmbeddingApiKey settings = "".

Definition ignored_as_stated (settings : Settings) (text : string)
    (isUser : bool) : Prop :=
  autoSaveMemories settings = false
  \/ key_required_and_missing settings
  \/ Str.length text < minMessageLength settings
  \/ (isUser = true /\ saveUserMessages settings = false)
  \/ (isUser = false /\ saveCharacterMessages settings = false).

(** The claim of the design document, as it is stated, for both
    revisions. *)
Definition ignores_exactly_as_stated : Prop :=
  forall (rev : revision) (settings : Settings) (now : Z) (context : Context)
         (text characterName : string) (isUser : bool) (messageId : string)
         (m : Machine),
    bufferMessage rev settings now context text characterName isUser
                  messageId m = m
    <-> ignored_as_stated settings text isUser.

Definition with_provider (p : string) (s : Settings) : Settings :=
  {| enabled := enabled s; provider := p; apiKey := apiKey s;
     baseUrl := baseUrl s; qdrantUrl := qdrantUrl s;
     collectionName := collectionName s; openaiApiKey := openaiApiKey s;
     embeddingModel := embeddingModel s; memoryLimit := memoryLimit s;
     scoreThreshold := scoreThreshold s; memoryPosition := memoryPosition s;
     debugMode := debugMode s;
     usePerCharacterCollections := usePerCharacterCollections s;
     autoSaveMemories := autoSaveMemories s;
     saveUserMessages := saveUserMessages s;
     saveCharacterMessages := saveCharacterMessages s;
     minMessageLength := minMessageLength s;
     showMemoryNotifications := showMemoryNotifications s;
     retainRecentMessages := retainRecentMessages s;
     chunkMinSize := chunkMinSize s; chunkMaxSize := chunkMaxSize s;
     chunkTimeout := chunkTimeout s |}.

(** C4, as stated, fails on the first revision: with the provider
    [custom], which requires no API key, and no key set, a turn of eleven
    characters is ignored although auto-save is on, the text is long enough
    and character turns are saved. *)
Lemma ignores_exactly_as_stated_fails : ~ ignores_exactly_as_stated.
Proof.
  intro H.
  destruct (H Rev1 (with_provider "custom" defaultSettings) 1000 solo_context
              "hello there" "Bob" false "Bob_1000_1" initial) as [Hignored _].
  destruct (Hignored eq_refl) as [Ha | [[Hp _] | [Hl | [[Hu _] | [_ Hc]]]]].
  - discriminate Ha.
  - vm_compute in Hp. discriminate Hp.
  - vm_compute in Hl. discriminate Hl.
  - discriminate Hu.
  - discriminate Hc.
Qed.

Example bufferMessage_rejects_without_key :
  bufferMessage Rev2 defaultSettings 1000 solo_context
                "hello there" "Bob" false "Bob_1000_1" initial = initial.
Proof. reflexivity. Qed.

(** ** Asynchronous functions never reject when their body is caught *)

Section AsyncFacts.

Context {W : Type}.

(** A computation that ends normally in every world. *)
Definition settles {A} (m : Async W A) : Prop :=
  forall w, exists a w', m w = (Normal a, w').

Lemma settles_ret {A} (a : A) : settles (ret a).
Proof. intro w. exists a, w. reflexivity. Qed.

Lemma settles_bind {A B} (m : Async W A) (k : A -> Async W B) :
  settles m -> (forall a, settles (k a)) -> settles (bind m k).
Proof.
  intros Hm Hk w. destruct (Hm w) as (a & w1 & E).
  destruct (Hk a w1) as (b & w2 & E2).
  exists b, w2. unfold bind. rewrite E. exact E2.
Qed.

Lemma settles_perform {A} (f : W -> A * W) : settles (perform f).
Proof.
  intro w. unfold perform. destruct (f w) as [a w']. exists a, w'. reflexivity.
Qed.

Lemma settles_try_catch {A} (m h : Async W A) :
  settles h -> settles (try_catch m h).
Proof.
  intros Hh w. unfold try_catch.
  destruct (m w) as [[a |] w1].
  - exists a, w1. reflexivity.
  - apply Hh.
Qed.

Variable host : Host W.
Variable rev : revision.
Variable settings : Settings.
Variable cfg : ExtensionSettings.

(** Once the configuration is read, the adapter ends normally. *)
Lemma generateEmbedding_settles (qdrantMemory : option Cfg.t) (text : string) :
  settles (generateEmbedding host rev (Bound qdrantMemory) text).
Proof. apply settles_try_catch, settles_ret. Qed.

Lemma collectionExists_settles (collectionName : string) :
  settles (collectionExists host settings collectionName).
Proof. apply settles_try_catch, settles_ret. Qed.

Lemma createCollection_settles (collectionName : string) :
  settles (createCollection host rev settings collectionName).
Proof. apply settles_try_catch, settles_ret. Qed.

Lemma ensureCollection_settles (characterName : string) :
  settles (ensureCollection host rev settings characterName).
Proof.
  unfold ensureCollection. apply settles_bind.
  - apply collectionExists_settles.
  - intros [|]; simpl; [apply settles_ret | apply createCollection_settles].
Qed.

Lemma saveChunkToQdrant_settles (chunk : Chunk.t) (participants : list string) :
  settles (saveChunkToQdrant host rev settings cfg chunk participants).
Proof.
  unfold saveChunkToQdrant. destruct participants.
  - apply settles_ret.
  - apply settles_try_catch, settles_ret.
Qed.

Lemma chunkExists_settles (collectionName : string) (messageIds : list string) :
  settles (chunkExists host settings collectionName messageIds).
Proof. apply settles_try_catch, settles_ret. Qed.

(** C3.  A flush that runs to its end leaves the buffer empty in every
    world: whether the embedding is produced or not, and whether the writes
    to the participants succeed, fail or reject. *)
Theorem processMessageBuffer_clears (context : Context)
    (messageBuffer : list Turn.t) (w : W) :
  exists w',
    processMessageBuffer host rev settings cfg context messageBuffer w
    = (Normal [], w').
Proof.
  unfold processMessageBuffer.
  destruct messageBuffer as [| t r].
  - exists w. reflexivity.
  - unfold bind at 1, perform.
    destruct (date_now host w) as [now w1].
    destruct (flush_start_cases now context (t :: r)) as [chunk [_ Hfs]];
      [discriminate |].
    rewrite Hfs. destruct (getChatParticipants context) as [| p ps].
    + exists w1. reflexivity.
    + destruct (saveChunkToQdrant_settles chunk (p :: ps) w1) as (b & w2 & E).
      exists w2. unfold bind. rewrite E. reflexivity.
Qed.

End AsyncFacts.

(** A host whose vector store refuses every write. *)
Definition writes_refused {W} (host : Host W) : Host W :=
  {| date_now := date_now host;
     random16 := random16 host;
     fetch_embedding := fetch_embedding host;
     fetch_collection := fetch_collection host;
     fetch_create := fetch_create host;
     fetch_upsert := fun _ _ w => (Response false None, w);
     fetch_search := fetch_search host;
     fetch_scroll := fetch_scroll host;
     list_transcripts := list_transcripts host;
     load_transcript := load_transcript host;
     cancel_clicked := cancel_clicked host |}.

Definition two_buffered : list Turn.t :=
  [ {| Turn.text := "hello there"; Turn.characterName := "Bob";
       Turn.isUser := true; Turn.messageId := "Bob_1000_1";
       Turn.timestamp := SUndefined |};
    {| Turn.text := "hello to you"; Turn.characterName := "Bob";
       Turn.isUser := false; Turn.messageId := "Bob_2000_2";
       Turn.timestamp := SUndefined |} ].

(** The flush stores the chunk when everything works, and drops it when the
    embedding fails or when the write is refused; the buffer is empty in
    all three cases. *)
Example flush_stores :
  let r := processMessageBuffer (test_host good_embedding [] []) Rev2
             keyed_settings empty_cfg solo_context two_buffered start_world in
  fst r = Normal [] /\ List.length (store (snd r)) = 1%nat.
Proof. split; reflexivity. Qed.

Example flush_embedding_fails :
  let r := processMessageBuffer (test_host NetError [] []) Rev2
             keyed_settings empty_cfg solo_context two_buffered start_world in
  fst r = Normal [] /\ store (snd r) = [].
Proof. split; reflexivity. Qed.

Example flush_write_refused :
  let r := processMessageBuffer (writes_refused (test_host good_embedding [] []))
             Rev2 keyed_settings empty_cfg solo_context two_buffered
             start_world in
  fst r = Normal [] /\ store (snd r) = [].
Proof. split; reflexivity. Qed.

(** Where [extension_settings] cannot be read, the rejection of the adapter
    is caught by [saveChunkToQdrant]: nothing is stored, and the buffer is
    empty all the same. *)
Example flush_settings_unreadable :
  let r := processMessageBuffer (test_host good_embedding [] []) Rev2
             keyed_settings Unbound solo_context two_buffered start_world in
  fst r = Normal [] /\ store (snd r) = [].
Proof. split; reflexivity. Qed.

(** ** Embedding provider adapter *)


Definition huggingface_cfg : Cfg.t :=
  {| Cfg.provider := "huggingface"; Cfg.apiKey := "hf_test";
     Cfg.openaiApiKey := "";
     Cfg.embeddingModel := "sentence-transformers/all-MiniLM-L6-v2";
     Cfg.baseUrl := "" |}.

(** A successful response whose body is an error object. *)
Definition loading_body : json := JObj [("error", JStr "Model is loading")].

Example generateEmbedding_huggingface_object :
  fst (generateEmbedding (test_host (Response true (Some loading_body)) [] [])
         Rev2 huggingface_cfg "hello" start_world)
  = Normal loading_body.
Proof. reflexivity. Qed.

Example generateEmbedding_openai_string :
  fst (generateEmbedding
         (test_host (Response true (Some (openai_body (JStr "oops")))) [] [])
         Rev2 empty_cfg "hello" start_world)
  = Normal (JStr "oops").
Proof. reflexivity. Qed.


Section AdapterFacts.

Context {W : Type}.
Variable host : Host W.
Variable rev : revision.
Variable qdrantMemory : option Cfg.t.
Variable text : string.

Let cfg := configuration qdrantMemory.
Let provider := or_else (Cfg.provider cfg) "openai".
Let request := embedding_request rev cfg text.


Lemma extract_embedding_huggingface (body : json) (w : W) :
  body <> JNull ->
  extract_embedding "huggingface" body w
  = (Normal (match index0 body with
             | Some (JArr l) => JArr l
             | _ => body
             end), w).
Proof.
  intro Hb. unfold extract_embedding.
  destruct body as [| b | q | s | l | l]; [congruence | | | | |];
    simpl String.eqb; cbv iota;
    destruct (index0 _) as [[| | | | l' |] |]; reflexivity.
Qed.



(** Where [extension_settings] cannot be read, the call rejects before it
    makes any request: the read sits before the [try]. *)
Lemma generateEmbedding_unbound (w : W) :
  generateEmbedding host rev Unbound text w = (Throw, w).
Proof. reflexivity. Qed.


End AdapterFacts.

Example generateEmbedding_vector :
  fst (generateEmbedding (test_host good_embedding [] []) Rev2 empty_cfg
                         "hello" start_world)
  = Normal unit_vector.
Proof. reflexivity. Qed.

Example generateEmbedding_network_error :
  fst (generateEmbedding (test_host NetError [] []) Rev1 empty_cfg
                         "hello" start_world)
  = Normal JNull.
Proof. reflexivity. Qed.

(** A page that binds [extension_settings] without the [qdrantMemory]
    member: the adapter runs on the empty configuration. *)
Example generateEmbedding_member_missing :
  fst (generateEmbedding (test_host good_embedding [] []) Rev2 (Bound None)
                         "hello" start_world)
  = Normal unit_vector.
Proof. reflexivity. Qed.


(** ** Chunk builder *)

Lemma append_assoc (a b c : string) : (a ++ b) ++ c = a ++ (b ++ c).
Proof. induction a as [| x a IH]; simpl; [reflexivity | rewrite IH; reflexivity]. Qed.

Lemma append_empty_r (a : string) : a ++ "" = a.
Proof. induction a as [| x a IH]; simpl; [reflexivity | rewrite IH; reflexivity]. Qed.

Lemma chars_append (a b : string) :
  Str.chars (a ++ b) = (Str.chars a ++ Str.chars b)%list.
Proof.
  unfold Str.chars. induction a as [| x a IH]; simpl;
    [reflexivity | rewrite IH; reflexivity].
Qed.

Lemma set_add_In (members : list string) (x y : string) :
  In y (set_add members x) <-> In y members \/ y = x.
Proof.
  unfold set_add. destruct (existsb (String.eqb x) members) eqn:E.
  - split; [auto |]. intros [H | ->]; [exact H |].
    apply existsb_exists in E. destruct E as (z & Hz & Hxz).
    apply String.eqb_eq in Hxz. subst z. exact Hz.
  - rewrite in_app_iff. simpl. intuition.
Qed.

Lemma set_add_NoDup (members : list string) (x : string) :
  NoDup members -> NoDup (set_add members x).
Proof.
  intro H. unfold set_add. destruct (existsb (String.eqb x) members) eqn:E;
    [exact H |].
  apply NoDup_app; [exact H | constructor; [intros [] | constructor] |].
  intros y Hy [Heq | []]. subst y.
  assert (existsb (String.eqb x) members = true).
  { apply existsb_exists. exists x. split; [exact Hy | apply String.eqb_refl]. }
  congruence.
Qed.

(** The members of the speaker set, in the order of their first turn. *)
Definition labels (acc : list string) (l : list Turn.t) : list string :=
  fold_left set_add (map speaker_of l) acc.



(** The step of the [forEach] of the chunk builders; [oldest] is what the
    step does to the oldest timestamp. *)
Definition assemble (oldest : sendDate -> Turn.t -> sendDate)
    (l : list Turn.t) (a : Assembly) : Assembly :=
  fold_left
    (fun a msg =>
       {| chunkText := chunkText a ++ line_of msg;
          speakers_set := set_add (speakers_set a) (speaker_of msg);
          ids := (ids a ++ [Turn.messageId msg])%list;
          oldestTimestamp := oldest (oldestTimestamp a) msg |})
    l a.

Lemma assemble_fields (oldest : sendDate -> Turn.t -> sendDate)
    (l : list Turn.t) (a : Assembly) :
  chunkText (assemble oldest l a) = chunkText a ++ Str.concat (map line_of l)
  /\ speakers_set (assemble oldest l a) = labels (speakers_set a) l
  /\ ids (assemble oldest l a) = (ids a ++ map Turn.messageId l)%list
  /\ oldestTimestamp (assemble oldest l a)
     = fold_left oldest l (oldestTimestamp a).
Proof.
  unfold assemble, labels. revert a.
  induction l as [| m l IH]; intro a; simpl.
  - rewrite append_empty_r, app_nil_r. repeat split.
  - destruct (IH {| chunkText := chunkText a ++ line_of m;
                    speakers_set := set_add (speakers_set a) (speaker_of m);
                    ids := (ids a ++ [Turn.messageId m])%list;
                    oldestTimestamp := oldest (oldestTimestamp a) m |})
      as (H1 & H2 & H3 & H4).
    rewrite H1, H2, H3, H4. simpl.
    rewrite append_assoc, <- app_assoc. repeat split.
Qed.

Section ChunkFacts.

Variable Number_of_string : string -> number.
Variable Date_parse : string -> number.

(** The oldest timestamp among numbers. *)
Definition older (o : sendDate) (msg : Turn.t) : sendDate :=
  if js_lt Number_of_string (Turn.timestamp msg) o then Turn.timestamp msg else o.

Definition numeric (msg : Turn.t) : Prop :=
  exists z, Turn.timestamp msg = SNumber (Num z).







End ChunkFacts.

(** The turns [{You, "hi"}, {Bob, "hey"}] of the design document. *)
Definition hi_hey : list Turn.t :=
  [ {| Turn.text := "hi"; Turn.characterName := "Bob"; Turn.isUser := true;
       Turn.messageId := "Bob_1714557600000_1";
       Turn.timestamp := SNumber (Num 1714557600000) |};
    {| Turn.text := "hey"; Turn.characterName := "Bob"; Turn.isUser := false;
       Turn.messageId := "Bob_1714557500000_2";
       Turn.timestamp := SNumber (Num 1714557500000) |} ].


Example createChunkFromBuffer_hi_hey :
  option_map Chunk.speakers (createChunkFromBuffer 1793574540000 hi_hey)
  = Some ["You"; "Bob"].
Proof. reflexivity. Qed.



(** A character whose name starts with a space. *)
Definition spaced_turn : Turn.t :=
  {| Turn.text := "hi"; Turn.characterName := " Bob"; Turn.isUser := false;
     Turn.messageId := " Bob_0_1"; Turn.timestamp := SUndefined |}.

(** Two turns of a transcript whose dates are calendar strings. *)
Definition dated_turns : list Turn.t :=
  [ {| Turn.text := "hi"; Turn.characterName := "Bob"; Turn.isUser := true;
       Turn.messageId := "Bob_2024-05-01_1";
       Turn.timestamp := SString "2024-05-01" |};
    {| Turn.text := "hey"; Turn.characterName := "Bob"; Turn.isUser := false;
       Turn.messageId := "Bob_2024-05-02_2";
       Turn.timestamp := SString "2024-05-02" |} ].

Example createChunkFromBuffer_trims_leading :
  option_map Chunk.text (createChunkFromBuffer 0 [spaced_turn])
  = Some ("[1970-01-01]" ++ Str.nl ++ "Bob: hi").
Proof. reflexivity. Qed.

Example createChunkFromMessages_calendar_strings :
  let chunk := createChunkFromMessages digits_Number iso_Date_parse 777 dated_turns in
  Chunk.timestamp chunk = SNumber (Num 777)
  /\ Chunk.text chunk = "You: hi" ++ Str.nl ++ "Bob: hey".
Proof. split; reflexivity. Qed.


(** ** Storage write *)

(** A host that also records every point sent to the store, with the URL
    it is sent to, in the order of sending. *)
Definition Sent : Type := list (string * Point).

Definition aside {W A} (f : W -> A * W) : W * Sent -> A * (W * Sent) :=
  fun wl => let '(a, w') := f (fst wl) in (a, (w', snd wl)).

Definition recording {W} (host : Host W) : Host (W * Sent) :=
  {| date_now := aside (date_now host);
     random16 := aside (random16 host);
     fetch_embedding := fun r => aside (fetch_embedding host r);
     fetch_collection := fun url => aside (fetch_collection host url);
     fetch_create := fun url n => aside (fetch_create host url n);
     fetch_upsert := fun url pt wl =>
       let '(o, w') := fetch_upsert host url pt (fst wl) in
       (o, (w', (snd wl ++ [(url, pt)])%list));
     fetch_search := fun url q => aside (fetch_search host url q);
     fetch_scroll := fun url messageIds => aside (fetch_scroll host url messageIds);
     list_transcripts := fun n => aside (list_transcripts host n);
     load_transcript := fun n f => aside (load_transcript host n f);
     cancel_clicked := aside (cancel_clicked host) |}.

Section RecordingFacts.

Context {W : Type}.
Variable host : Host W.
Variable rev : revision.
Variable settings : Settings.
Variable cfg : ExtensionSettings.

(** A computation that sends no point. *)
Definition silent {A} (m : Async (W * Sent) A) : Prop :=
  forall wl, snd (snd (m wl)) = snd wl.

Lemma silent_ret {A} (a : A) : silent (ret a).
Proof. intro wl. reflexivity. Qed.

Lemma silent_throw {A} : silent (@throw _ A).
Proof. intro wl. reflexivity. Qed.

Lemma silent_bind {A B} (m : Async (W * Sent) A) (k : A -> Async (W * Sent) B) :
  silent m -> (forall a, silent (k a)) -> silent (bind m k).
Proof.
  intros Hm Hk wl. unfold bind. specialize (Hm wl).
  destruct (m wl) as [[a |] wl1]; simpl in *.
  - rewrite Hk. exact Hm.
  - exact Hm.
Qed.

Lemma silent_try_catch {A} (m h : Async (W * Sent) A) :
  silent m -> silent h -> silent (try_catch m h).
Proof.
  intros Hm Hh wl. unfold try_catch. specialize (Hm wl).
  destruct (m wl) as [[a |] wl1]; simpl in *.
  - exact Hm.
  - rewrite Hh. exact Hm.
Qed.


Lemma silent_await {B} (f : W -> fetch_outcome B * W) :
  silent (await_fetch (aside f)).
Proof.
  intro wl. unfold await_fetch, aside. destruct (f (fst wl)) as [[| ok body] w'];
    reflexivity.
Qed.

Lemma silent_response_json {B} (body : option B) :
  silent (@response_json (W * Sent) B body).
Proof. destruct body; [apply silent_ret | apply silent_throw]. Qed.

Lemma silent_if {A} (b : bool) (m1 m2 : Async (W * Sent) A) :
  silent m1 -> silent m2 -> silent (if b then m1 else m2).
Proof. destruct b; auto. Qed.

Lemma extract_embedding_silent (p : string) (body : json) :
  silent (@extract_embedding (W * Sent) p body).
Proof.
  unfold extract_embedding.
  destruct body; try apply silent_throw;
    (destruct (String.eqb p "huggingface");
     [ destruct (index0 _) as [[| | | | l' |] |]; apply silent_ret
     | destruct (opt_prop "embedding" _) as [e |];
       [destruct (truthy e) |]; apply silent_ret ]).
Qed.

Lemma generateEmbedding_silent (text : string) :
  silent (generateEmbedding (recording host) rev cfg text).
Proof.
  unfold generateEmbedding.
  destruct cfg as [| qdrantMemory]; [apply silent_throw |].
  apply silent_try_catch; [| apply silent_ret].
  apply silent_bind; [apply (silent_await (fetch_embedding host _)) |].
  intros [ok body]. apply silent_if; [apply silent_ret |].
  apply silent_bind; [apply silent_response_json |].
  intro b. apply extract_embedding_silent.
Qed.






Definition placeholder (c : ascii) : bool :=
  Ascii.eqb c "x"%char || Ascii.eqb c "y"%char.

(** A template with its placeholders filled from a list of draws, in
    order: a hexadecimal digit [r] for an [x], [(r & 0x3) | 0x8] for the
    [y]. *)
Fixpoint filled (template : list ascii) (rs : list Z) : list ascii :=
  match template with
  | [] => []
  | c :: rest =>
      if placeholder c then
        match rs with
        | r :: rs' =>
            hex_digit (if Ascii.eqb c "x"%char then r
                       else Z.lor (Z.land r 3) 8)
            :: filled rest rs'
        | [] => []
        end
      else c :: filled rest rs
  end.







End RecordingFacts.

Definition hi_hey_chunk : Chunk.t :=
  createChunkFromMessages digits_Number iso_Date_parse 0 hi_hey.

Example saveChunkToQdrant_two_participants :
  map (fun e => (fst e, id (snd e), character (point_payload (snd e))))
      (store (snd (saveChunkToQdrant (test_host good_embedding [] []) Rev2
                     keyed_settings empty_cfg hi_hey_chunk ["Bob"; "Alice"]
                     start_world)))
  = [ ("http://localhost:6333/collections/mem_bob/points",
       "00000000-0000-4000-8000-000000000000", "Bob");
      ("http://localhost:6333/collections/mem_alice/points",
       "00000000-0000-4000-8000-000000000000", "Alice") ].
Proof. reflexivity. Qed.



(** ** Interceptor *)

(** The number of synthetic memory turns of a conversation. *)
Definition marked (chat : list ChatMessage) : nat :=
  List.length (filter qdrantMemory chat).

Lemma marked_app (a b : list ChatMessage) :
  marked (a ++ b) = (marked a + marked b)%nat.
Proof. unfold marked. rewrite filter_app, length_app. reflexivity. Qed.

Lemma removeExistingMemoryEntries_marked (chat : list ChatMessage) :
  marked (removeExistingMemoryEntries chat) = 0%nat.
Proof.
  unfold marked.
  induction chat as [| msg rest IH]; simpl; [reflexivity |].
  unfold isQdrantMemoryMessage. destruct (qdrantMemory msg) eqn:E; simpl;
    [exact IH | rewrite E; exact IH].
Qed.

Lemma removeExistingMemoryEntries_idempotent (chat : list ChatMessage) :
  removeExistingMemoryEntries (removeExistingMemoryEntries chat)
  = removeExistingMemoryEntries chat.
Proof.
  induction chat as [| msg rest IH]; simpl; [reflexivity |].
  unfold isQdrantMemoryMessage. destruct (qdrantMemory msg) eqn:E; simpl;
    [exact IH |].
  unfold isQdrantMemoryMessage. rewrite E, IH. reflexivity.
Qed.

Lemma splice_insert_at {A} (l : list A) (index : Z) (x : A) :
  0 <= index <= Z.of_nat (List.length l) ->
  splice_insert l index x
  = (firstn (Z.to_nat index) l ++ x :: skipn (Z.to_nat index) l)%list
  /\ nth_error (splice_insert l index x) (Z.to_nat index) = Some x.
Proof.
  intro H. unfold splice_insert.
  replace (index <? 0) with false by (symmetry; apply Z.ltb_ge; lia).
  replace (Z.min index (Z.of_nat (List.length l))) with index by lia.
  split; [reflexivity |].
  rewrite nth_error_app2; rewrite length_firstn.
  - replace (Z.to_nat index - Nat.min (Z.to_nat index) (List.length l))%nat
      with 0%nat by lia.
    reflexivity.
  - lia.
Qed.

Lemma splice_insert_parts {A} (l : list A) (index : Z) (x : A) :
  exists k, splice_insert l index x = (firstn k l ++ x :: skipn k l)%list.
Proof. unfold splice_insert. eexists. reflexivity. Qed.

Lemma splice_insert_marked (chat : list ChatMessage) (index : Z)
    (entry : ChatMessage) :
  marked (splice_insert chat index entry)
  = (marked chat + if qdrantMemory entry then 1 else 0)%nat.
Proof.
  destruct (splice_insert_parts chat index entry) as [k ->].
  rewrite <- (firstn_skipn k chat) at 3.
  rewrite !marked_app. unfold marked at 2. simpl.
  destruct (qdrantMemory entry); simpl; unfold marked; lia.
Qed.

Lemma splice_insert_unmarked (chat : list ChatMessage) (index : Z)
    (entry : ChatMessage) :
  qdrantMemory entry = true ->
  removeExistingMemoryEntries (splice_insert chat index entry)
  = removeExistingMemoryEntries chat.
Proof.
  intro He. destruct (splice_insert_parts chat index entry) as [k ->].
  rewrite <- (firstn_skipn k chat) at 3.
  rewrite !removeExistingMemoryEntries_filter, !filter_app. simpl.
  rewrite He. reflexivity.
Qed.

Section InterceptorFacts.

Context {W : Type}.
Variable Number_of_string : string -> number.
Variable Date_parse : string -> number.
Variable score_percent : Q -> string.
Variable host : Host W.
Variable rev : revision.
Variable settings : Settings.
Variable cfg : ExtensionSettings.

Let search := searchMemories Number_of_string Date_parse host rev settings cfg.
Let intercept :=
  qdrantMemoryInterceptor Number_of_string Date_parse score_percent host rev
                          settings cfg.

Lemma searchMemories_settles (ctx_chat : list ChatMessage)
    (query characterName : string) :
  settles (search ctx_chat query characterName).
Proof.
  unfold search, searchMemories.
  destruct (enabled settings); simpl; [| apply settles_ret].
  apply settles_try_catch, settles_ret.
Qed.

(** C9, amended.  On a pass with the extension enabled and a character
    selected, the conversation that results has the turns that were not
    marked, in their order, and none of the marked turns that were there
    before: it is the stripped conversation itself when there is no user
    turn with a text and when retrieval returns nothing, and the stripped
    conversation with one turn spliced in otherwise.  When the last user
    turn has a text and retrieval for it returns a result list that is not
    empty, the conversation that results holds exactly one marked turn: the
    new one, spliced into the stripped conversation at index
    [max(0, length - memoryPosition)], which is where it is found whenever
    [memoryPosition] is not negative. *)
Theorem interceptor_pass (context : Context) (chat : list ChatMessage) (w : W) :
  enabled settings = true ->
  name2 context <> "" ->
  let stripped := removeExistingMemoryEntries chat in
  let insertIndex :=
    Z.max 0 (Z.of_nat (List.length stripped) - memoryPosition settings) in
  exists chat' w',
    intercept context chat w = (Normal chat', w')
    /\ removeExistingMemoryEntries chat' = stripped
    /\ (marked chat' <= 1)%nat
    /\ ((forall msg, lastUserMessage stripped = Some msg -> mes msg = "") ->
        chat' = stripped /\ w' = w)
    /\ (forall lastUserMsg memories ctx_chat w1,
           lastUserMessage stripped = Some lastUserMsg ->
           mes lastUserMsg <> "" ->
           search (context_chat context) (mes lastUserMsg) (name2 context) w
           = (Normal (memories, ctx_chat), w1) ->
           (memories = [] -> chat' = stripped /\ w' = w1)
           /\ (memories <> [] ->
               chat' = splice_insert stripped insertIndex
                         (memoryEntry (formatMemories score_percent memories)
                                      (fst (date_now host w1)))
               /\ marked chat' = 1%nat
               /\ (0 <= memoryPosition settings ->
                   nth_error chat' (Z.to_nat insertIndex)
                   = Some (memoryEntry (formatMemories score_percent memories)
                                       (fst (date_now host w1)))))).
Proof.
  intros Hen Hname stripped insertIndex.
  unfold intercept, qdrantMemoryInterceptor. rewrite Hen.
  apply String.eqb_neq in Hname. rewrite Hname. cbn [negb].
  fold stripped. unfold try_catch.
  destruct (lastUserMessage stripped) as [lastUserMsg |] eqn:Hlast.
  2:{ exists stripped, w. split; [reflexivity |].
      split; [apply removeExistingMemoryEntries_idempotent |].
      split; [unfold stripped; rewrite removeExistingMemoryEntries_marked; lia |].
      split; [intros _; split; reflexivity |].
      intros; discriminate. }
  destruct (String.eqb (mes lastUserMsg) "") eqn:Hmes.
  { exists stripped, w. split; [reflexivity |].
    split; [apply removeExistingMemoryEntries_idempotent |].
    split; [unfold stripped; rewrite removeExistingMemoryEntries_marked; lia |].
    split; [intros _; split; reflexivity |].
    intros m memories c w1 Hm Hne. injection Hm as <-.
    apply String.eqb_neq in Hne. congruence. }
  apply String.eqb_neq in Hmes.
  rewrite bind_run.
  destruct (searchMemories_settles (context_chat context) (mes lastUserMsg)
              (name2 context) w) as ([memories c] & w1 & Hsearch).
  unfold search in Hsearch. rewrite Hsearch. cbn [fst].
  destruct memories as [| memory rest].
  { exists stripped, w1. split; [reflexivity |].
    split; [apply removeExistingMemoryEntries_idempotent |].
    split; [unfold stripped; rewrite removeExistingMemoryEntries_marked; lia |].
    split.
    { intro Hnone. exfalso. apply Hmes. apply Hnone. reflexivity. }
    intros m memories c' w1' Hm _ Hs. injection Hm as <-.
    unfold search in Hs. rewrite Hsearch in Hs. injection Hs as <- _ <-.
    split; [intros _; split; reflexivity | congruence]. }
  cbn [List.length Nat.ltb Nat.leb]. rewrite bind_run. unfold perform.
  destruct (date_now host w1) as [now w2] eqn:Hnow.
  set (entry := memoryEntry (formatMemories score_percent (memory :: rest)) now).
  exists (splice_insert stripped insertIndex entry), w2.
  split; [reflexivity |].
  split.
  { rewrite splice_insert_unmarked by reflexivity.
    apply removeExistingMemoryEntries_idempotent. }
  assert (Hone : marked (splice_insert stripped insertIndex entry) = 1%nat).
  { rewrite splice_insert_marked. unfold stripped.
    rewrite removeExistingMemoryEntries_marked. reflexivity. }
  split; [lia |].
  split.
  { intro Hnone. exfalso. apply Hmes. apply Hnone. reflexivity. }
  intros m memories c' w1' Hm _ Hs. injection Hm as <-.
  unfold search in Hs. rewrite Hsearch in Hs. injection Hs as <- _ <-.
  split; [discriminate |]. intros _.
  rewrite Hnow. cbn [fst]. fold entry.
  split; [reflexivity |]. split; [exact Hone |].
  intro Hpos. apply splice_insert_at. unfold insertIndex. lia.
Qed.

End InterceptorFacts.

(** The claim of the design document, as it is stated: every pass removes
    the marked turns that were there before. *)
Definition strips_on_every_pass : Prop :=
  forall (W : Type) (host : Host W) (rev : revision) (settings : Settings)
         (cfg : ExtensionSettings) (context : Context)
         (chat chat' : list ChatMessage)
         (w w' : W),
    qdrantMemoryInterceptor digits_Number iso_Date_parse rounded_percent host
      rev settings cfg context chat w = (Normal chat', w') ->
    forall msg, In msg chat -> qdrantMemory msg = true -> ~ In msg chat'.

Definition with_enabled (b : bool) (s : Settings) : Settings :=
  {| enabled := b; provider := provider s; apiKey := apiKey s;
     baseUrl := baseUrl s; qdrantUrl := qdrantUrl s;
     collectionName := collectionName s; openaiApiKey := openaiApiKey s;
     embeddingModel := embeddingModel s; memoryLimit := memoryLimit s;
     scoreThreshold := scoreThreshold s; memoryPosition := memoryPosition s;
     debugMode := debugMode s;
     usePerCharacterCollections := usePerCharacterCollections s;
     autoSaveMemories := autoSaveMemories s;
     saveUserMessages := saveUserMessages s;
     saveCharacterMessages := saveCharacterMessages s;
     minMessageLength := minMessageLength s;
     showMemoryNotifications := showMemoryNotifications s;
     retainRecentMessages := retainRecentMessages s;
     chunkMinSize := chunkMinSize s; chunkMaxSize := chunkMaxSize s;
     chunkTimeout := chunkTimeout s |}.

Definition one_memory : Memory.t :=
  {| Memory.score := (87 # 100)%Q; Memory.isChunk := true;
     Memory.speakers := "You, Bob"; Memory.speaker := "";
     Memory.text := "[2024-05-01]" ++ Str.nl ++ "You: hi" ++ Str.nl ++ "Bob: hey" |}.

Definition live_context : Context :=
  {| chat := live_chat; name2 := "Bob"; characters := 1 |}.

(** C9, as stated, fails: a pass with the extension disabled returns before
    it strips anything, and a turn injected earlier stays in the
    conversation. *)
Lemma strips_on_every_pass_fails : ~ strips_on_every_pass.
Proof.
  intro H.
  apply (H TestWorld (test_host good_embedding [one_memory] []) Rev2
           (with_enabled false keyed_settings) empty_cfg live_context
           live_chat live_chat start_world start_world eq_refl injected_turn).
  - unfold live_chat. apply in_or_app. right. left. reflexivity.
  - reflexivity.
  - unfold live_chat. apply in_or_app. right. left. reflexivity.
Qed.

Example interceptor_no_character :
  fst (qdrantMemoryInterceptor digits_Number iso_Date_parse rounded_percent
         (test_host good_embedding [one_memory] []) Rev2 keyed_settings
         empty_cfg {| chat := live_chat; name2 := ""; characters := 1 |}
         live_chat start_world)
  = Normal live_chat.
Proof. reflexivity. Qed.

Lemma interceptor_pass_witness :
  exists chat' w',
    qdrantMemoryInterceptor digits_Number iso_Date_parse rounded_percent
      (test_host good_embedding [one_memory] []) Rev2 keyed_settings empty_cfg
      live_context live_chat start_world = (Normal chat', w')
    /\ marked chat' = 1%nat
    /\ List.length chat' = 11%nat
    /\ option_map qdrantMemory (nth_error chat' 8) = Some true.
Proof.
  destruct (interceptor_pass digits_Number iso_Date_parse rounded_percent
              (test_host good_embedding [one_memory] []) Rev2 keyed_settings
              empty_cfg live_context live_chat start_world eq_refl)
    as (chat' & w' & E & _ & _ & _ & Hfound).
  - discriminate.
  - exists chat', w'. split; [exact E |].
    destruct (Hfound (turn_at true "hello there" 10000) [one_memory]
                (removeExistingMemoryEntries live_chat) start_world)
      as (_ & Hinserted).
    + reflexivity.
    + discriminate.
    + reflexivity.
    + destruct Hinserted as (Hchat & Hone & Hat); [discriminate |].
      split; [exact Hone |]. rewrite Hchat.
      split; reflexivity.
Defined.

(** ** Flushes and arrivals in between *)

(** The claims of the design document about a flush, as they are stated:
    the flush clears the buffer before it awaits, and, in a chat that has
    participants, every turn that was accepted is handed to storage exactly
    once by the time nothing is pending. *)
Definition clears_before_awaiting : Prop :=
  forall now context m chunk participants,
    flush_start now context (messageBuffer m) = Saving chunk participants ->
    messageBuffer (start_flush now context m) = [].

Definition no_turn_lost_or_duplicated : Prop :=
  forall rev settings context events,
    let m := run rev settings context initial events in
    getChatParticipants context <> [] ->
    NoDup (map Turn.messageId (accepted m)) ->
    quiescent m = true ->
    messageBuffer m = [] ->
    forall turn, In turn (accepted m) ->
                 times_handed (Turn.messageId turn) m = 1%nat.

(** A turn arrives while the flush of the first turn is in flight. *)
Definition late_arrival : list Event :=
  [ Arrives 1000 "hello there" "Bob" false "Bob_1000_1";
    TimerFires 1 31000;
    Arrives 32000 "are you there" "Bob" true "Bob_32000_2";
    SaveSettles 0;
    TimerFires 2 62000 ].

Example late_arrival_end :
  let m := run Rev2 keyed_settings solo_context initial late_arrival in
  quiescent m = true
  /\ messageBuffer m = []
  /\ map Turn.messageId (accepted m) = ["Bob_1000_1"; "Bob_32000_2"]
  /\ map Chunk.messageIds (handed m) = [["Bob_1000_1"]]
  /\ times_handed "Bob_32000_2" m = 0%nat.
Proof. repeat split; reflexivity. Qed.

Definition with_sizes (lo hi : Z) (s : Settings) : Settings :=
  {| enabled := enabled s; provider := provider s; apiKey := apiKey s;
     baseUrl := baseUrl s; qdrantUrl := qdrantUrl s;
     collectionName := collectionName s; openaiApiKey := openaiApiKey s;
     embeddingModel := embeddingModel s; memoryLimit := memoryLimit s;
     scoreThreshold := scoreThreshold s; memoryPosition := memoryPosition s;
     debugMode := debugMode s;
     usePerCharacterCollections := usePerCharacterCollections s;
     autoSaveMemories := autoSaveMemories s;
     saveUserMessages := saveUserMessages s;
     saveCharacterMessages := saveCharacterMessages s;
     minMessageLength := minMessageLength s;
     showMemoryNotifications := showMemoryNotifications s;
     retainRecentMessages := retainRecentMessages s;
     chunkMinSize := lo; chunkMaxSize := hi;
     chunkTimeout := chunkTimeout s |}.

(** Two turns arrive one after the other, each with the buffer at its
    maximum size: the second flush starts while the first is in flight. *)
Definition full_buffer : list Event :=
  [ Arrives 1000 "hello there, my friend" "Bob" false "Bob_1000_1";
    Arrives 1200 "are you there" "Bob" true "Bob_1200_2";
    SaveSettles 0;
    SaveSettles 0 ].

Example full_buffer_end :
  let m := run Rev2 (with_sizes 10 20 keyed_settings) solo_context initial
               full_buffer in
  quiescent m = true
  /\ messageBuffer m = []
  /\ map Chunk.messageIds (handed m)
     = [["Bob_1000_1"]; ["Bob_1000_1"; "Bob_1200_2"]]
  /\ times_handed "Bob_1000_1" m = 2%nat.
Proof. repeat split; reflexivity. Qed.

(** C1, as stated, fails.  The buffer is cleared after the save has
    settled, not before the flush awaits; a turn that arrives in between is
    in the buffer when it is cleared and is handed to storage by no
    flush. *)
Lemma flush_claims_fail :
  ~ clears_before_awaiting /\ ~ no_turn_lost_or_duplicated.
Proof.
  split.
  - intro H.
    specialize (H 31000 solo_context
                  (run Rev2 keyed_settings solo_context initial
                       (firstn 1 late_arrival))).
    vm_compute in H. specialize (H _ _ eq_refl). discriminate H.
  - intro H.
    specialize (H Rev2 keyed_settings solo_context late_arrival).
    cbv zeta in H.
    pose proof (H ltac:(discriminate)
                  ltac:(vm_compute; repeat constructor; simpl;
                        intuition discriminate)
                  eq_refl eq_refl
                  {| Turn.text := "are you there"; Turn.characterName := "Bob";
                     Turn.isUser := true; Turn.messageId := "Bob_32000_2";
                     Turn.timestamp := SUndefined |}
                  ltac:(vm_compute; auto)) as Honce.
    vm_compute in Honce. discriminate Honce.
Qed.

Lemma createChunkFromBuffer_ids (now : Z) (buffer : list Turn.t) (chunk : Chunk.t) :
  createChunkFromBuffer now buffer = Some chunk ->
  Chunk.messageIds chunk = map Turn.messageId buffer.
Proof.
  destruct buffer as [| t r]; [discriminate |].
  intro H. unfold createChunkFromBuffer in H. injection H as <-.
  cbn [Chunk.messageIds].
  pose proof (assemble_fields (fun o _ => o) (t :: r)
                {| chunkText := ""; speakers_set := []; ids := [];
                   oldestTimestamp := SUndefined |}) as (_ & _ & H3 & _).
  exact H3.
Qed.

Lemma flush_start_saving (now : Z) (context : Context) (buffer : list Turn.t)
    (chunk : Chunk.t) (participants : list string) :
  flush_start now context buffer = Saving chunk participants ->
  createChunkFromBuffer now buffer = Some chunk
  /\ participants = getChatParticipants context
  /\ participants <> [].
Proof.
  unfold flush_start. destruct buffer as [| t r]; [discriminate |].
  destruct (createChunkFromBuffer now (t :: r)) as [c |]; [| discriminate].
  destruct (getChatParticipants context) as [| p ps]; [discriminate |].
  intro H. injection H as <- <-. repeat split. discriminate.
Qed.

Lemma start_flush_inflight (now : Z) (context : Context) (m : Machine)
    (k : nat) (entry : Chunk.t * list string) :
  nth_error (inflight m) k = Some entry ->
  nth_error (inflight (start_flush now context m)) k = Some entry.
Proof.
  intro H. unfold start_flush.
  destruct (flush_start now context (messageBuffer m)); simpl; try exact H.
  rewrite nth_error_app1; [exact H |].
  apply nth_error_Some. congruence.
Qed.

Lemma arm_inflight (delay : Z) (m : Machine) : inflight (arm delay m) = inflight m.
Proof. reflexivity. Qed.

(** An arrival leaves the flushes in flight as they are. *)
Lemma bufferMessage_inflight (rev : revision) (settings : Settings) (now : Z)
    (context : Context) (text characterName : string) (isUser : bool)
    (messageId : string) (m : Machine) (k : nat)
    (entry : Chunk.t * list string) :
  nth_error (inflight m) k = Some entry ->
  nth_error (inflight (bufferMessage rev settings now context text
                                     characterName isUser messageId m)) k
  = Some entry.
Proof.
  intro H. unfold bufferMessage.
  destruct (rejects rev settings text isUser); [exact H |].
  destruct (chunkMaxSize settings <=? _).
  - apply start_flush_inflight. exact H.
  - destruct (chunkMinSize settings <=? _); rewrite arm_inflight; exact H.
Qed.

(** C1, amended.  A flush that has something to save builds its chunk from
    the turns that are buffered when it starts, before it awaits, and leaves
    the buffer as it is.  While the save is in flight a turn that arrives
    does not change that chunk.  The buffer is cleared when the save has
    settled. *)
Theorem flush_snapshot (rev : revision) (settings : Settings) (now : Z)
    (context : Context) (m : Machine) (chunk : Chunk.t)
    (participants : list string) :
  flush_start now context (messageBuffer m) = Saving chunk participants ->
  let started := start_flush now context m in
  let k := List.length (inflight m) in
  Chunk.messageIds chunk = map Turn.messageId (messageBuffer m)
  /\ messageBuffer started = messageBuffer m
  /\ nth_error (inflight started) k = Some (chunk, participants)
  /\ (forall now' text characterName isUser messageId,
         nth_error
           (inflight (bufferMessage rev settings now' context text characterName
                                    isUser messageId started)) k
         = Some (chunk, participants))
  /\ (forall later,
         nth_error (inflight later) k = Some (chunk, participants) ->
         messageBuffer (finish_flush k later) = []).
Proof.
  intros Hfs started k.
  destruct (flush_start_saving now context (messageBuffer m) chunk participants Hfs)
    as (Hc & _ & _).
  assert (Hk : nth_error (inflight started) k = Some (chunk, participants)).
  { unfold started, start_flush. rewrite Hfs. simpl.
    rewrite nth_error_app2 by (unfold k; lia).
    unfold k. rewrite Nat.sub_diag. reflexivity. }
  split; [eapply createChunkFromBuffer_ids; exact Hc |].
  split; [unfold started, start_flush; rewrite Hfs; reflexivity |].
  split; [exact Hk |].
  split.
  - intros. apply bufferMessage_inflight. exact Hk.
  - intros later Hl. unfold finish_flush. rewrite Hl. reflexivity.
Qed.

Lemma flush_snapshot_witness :
  let before := run Rev2 keyed_settings solo_context initial
                    [Arrives 1000 "hello there" "Bob" false "Bob_1000_1"] in
  let during := run Rev2 keyed_settings solo_context before
                    [TimerFires 1 31000;
                     Arrives 32000 "are you there" "Bob" true "Bob_32000_2"] in
  map (fun e => Chunk.messageIds (fst e)) (inflight during) = [["Bob_1000_1"]]
  /\ map Turn.messageId (messageBuffer during) = ["Bob_1000_1"; "Bob_32000_2"]
  /\ messageBuffer (finish_flush 0 during) = [].
Proof.
  intros before during.
  destruct (createChunkFromBuffer 31000 (messageBuffer before)) as [chunk |] eqn:E;
    [| discriminate E].
  destruct (flush_snapshot Rev2 keyed_settings 31000 solo_context before chunk ["Bob"])
    as (Hids & _ & _ & Harrive & Hsettle).
  - unfold flush_start. rewrite E. reflexivity.
  - specialize (Harrive 32000 "are you there" "Bob" true "Bob_32000_2").
    split.
    + vm_compute. reflexivity.
    + split; [vm_compute; reflexivity |].
      apply Hsettle. exact Harrive.
Defined.

(** ** Bulk reindexer *)

Section PackingFacts.

Variable Number_of_string : string -> number.
Variable Date_parse : string -> number.
Variable Date_toString : number -> string.
Variable settings : Settings.
Variable characterName : string.

Let pack := pack_message Number_of_string Date_parse Date_toString settings
                         characterName.
Let close := close_chunk Number_of_string Date_parse.

Lemma createChunkFromMessages_ids (now : Z) (turns : list Turn.t) :
  Chunk.messageIds (createChunkFromMessages Number_of_string Date_parse now turns)
  = map Turn.messageId turns.
Proof.
  unfold createChunkFromMessages. cbn [Chunk.messageIds].
  pose proof (assemble_fields (older Number_of_string) turns
                {| chunkText := ""; speakers_set := []; ids := [];
                   oldestTimestamp := SNumber PInf |}) as (_ & _ & H3 & _).
  exact H3.
Qed.

(** What the packing keeps of its state when the clock is left out: the
    member identifiers of the chunks and of the group in progress, and the
    size of that group. *)
Definition shape (p : Packing) : list (list string) * list string * Z :=
  (map Chunk.messageIds (chunks p), map Turn.messageId (currentChunk p),
   currentSize p).

Lemma shape_close (now1 now2 : Z) (p q : Packing) :
  shape p = shape q -> shape (close now1 p) = shape (close now2 q).
Proof.
  unfold shape, close, close_chunk. cbn [chunks currentChunk currentSize].
  intro H. injection H as Hc Hg _.
  rewrite !map_app. cbn [map]. rewrite !createChunkFromMessages_ids, Hc, Hg.
  reflexivity.
Qed.

Lemma shape_length (p q : Packing) :
  shape p = shape q ->
  List.length (currentChunk p) = List.length (currentChunk q).
Proof.
  unfold shape. intro H. injection H as _ Hg _.
  apply (f_equal (@List.length _)) in Hg. rewrite !length_map in Hg. exact Hg.
Qed.

Lemma shape_size (p q : Packing) :
  shape p = shape q -> currentSize p = currentSize q.
Proof. unfold shape. intro H. injection H as _ _ Hs. exact Hs. Qed.

Lemma shape_push (p q : Packing) (t1 t2 : Turn.t) (n : Z) :
  shape p = shape q ->
  Turn.messageId t1 = Turn.messageId t2 ->
  shape {| chunks := chunks p; currentChunk := (currentChunk p ++ [t1])%list;
           currentSize := currentSize p + n |}
  = shape {| chunks := chunks q; currentChunk := (currentChunk q ++ [t2])%list;
             currentSize := currentSize q + n |}.
Proof.
  unfold shape. cbn [chunks currentChunk currentSize].
  intros H Ht. injection H as Hc Hg Hs.
  rewrite !map_app. cbn [map]. rewrite Hc, Hg, Hs, Ht. reflexivity.
Qed.

Lemma pack_shape (now1 now2 : nat -> Z) (p q : Packing) (im : nat * ChatMessage) :
  shape p = shape q -> shape (pack now1 p im) = shape (pack now2 q im).
Proof.
  intro H. unfold pack, pack_message. destruct im as [i msg].
  destruct (is_system msg); [exact H |].
  destruct (_ || _); [exact H |].
  destruct (is_user msg && _); [exact H |].
  destruct (negb (is_user msg) && _); [exact H |].
  cbv zeta.
  set (sz := Str.length (Str.trim (mes msg)) + Str.length characterName + 4).
  set (full1 := (chunkMaxSize settings <? currentSize p + sz)
                && (0 <? List.length (currentChunk p))%nat).
  set (full2 := (chunkMaxSize settings <? currentSize q + sz)
                && (0 <? List.length (currentChunk q))%nat).
  assert (Hfull : full1 = full2).
  { unfold full1, full2.
    rewrite (shape_size p q H), (shape_length p q H). reflexivity. }
  clearbody full1 full2. subst full2.
  assert (H1 : shape (if full1 then close_chunk Number_of_string Date_parse (now1 i) p else p)
               = shape (if full1 then close_chunk Number_of_string Date_parse (now2 i) q else q)).
  { destruct full1; [apply shape_close; exact H | exact H]. }
  set (p1 := if full1 then close_chunk _ _ (now1 i) p else p) in *.
  set (q1 := if full1 then close_chunk _ _ (now2 i) q else q) in *.
  cbn [chunks currentChunk currentSize].
  match goal with
  | |- shape (if ?c1 then _ else _) = shape (if ?c2 then _ else _) =>
      assert (Hc : c1 = c2);
      [ rewrite !length_app; cbn [List.length];
        rewrite (shape_size p1 q1 H1), (shape_length p1 q1 H1); reflexivity
      | rewrite Hc; destruct c2 ]
  end.
  - apply shape_close. apply shape_push; [exact H1 | reflexivity].
  - apply shape_push; [exact H1 | reflexivity].
Qed.

Lemma fold_pack_shape (now1 now2 : nat -> Z) (l : list (nat * ChatMessage))
    (p q : Packing) :
  shape p = shape q ->
  shape (fold_left (pack now1) l p) = shape (fold_left (pack now2) l q).
Proof.
  revert p q. induction l as [| im l IH]; intros p q H; simpl; [exact H |].
  apply IH, pack_shape, H.
Qed.

(** The member identifiers of the chunks of a transcript do not depend on
    the clock. *)
Lemma createChunksFromChat_ids (now1 now2 : nat -> Z) (messages : list ChatMessage) :
  map Chunk.messageIds
      (createChunksFromChat Number_of_string Date_parse Date_toString settings
                            now1 messages characterName)
  = map Chunk.messageIds
        (createChunksFromChat Number_of_string Date_parse Date_toString settings
                              now2 messages characterName).
Proof.
  unfold createChunksFromChat.
  set (init := {| chunks := []; currentChunk := []; currentSize := 0 |}).
  pose proof (fold_pack_shape now1 now2
                (combine (seq 0 (List.length messages)) messages) init init
                eq_refl) as H.
  fold pack.
  set (p := fold_left (pack now1) _ init) in *.
  set (q := fold_left (pack now2) _ init) in *.
  rewrite (shape_length p q H).
  destruct (0 <? List.length (currentChunk q))%nat.
  - pose proof (shape_close (now1 (List.length messages))
                  (now2 (List.length messages)) p q H) as Hc.
    apply (f_equal (fun x => fst (fst x))) in Hc. exact Hc.
  - apply (f_equal (fun x => fst (fst x))) in H. exact H.
Qed.

(** Every chunk has a member. *)
Definition populated (p : Packing) : Prop :=
  forall c, In c (chunks p) -> Chunk.messageIds c <> [].

Lemma populated_close (now : Z) (p : Packing) :
  populated p -> currentChunk p <> [] -> populated (close now p).
Proof.
  intros Hp Hne c Hc. unfold close, close_chunk in Hc. cbn [chunks] in Hc.
  apply in_app_or in Hc. destruct Hc as [Hc | [<- | []]]; [apply Hp, Hc |].
  rewrite createChunkFromMessages_ids.
  destruct (currentChunk p); [congruence | discriminate].
Qed.

Lemma pack_populated (now : nat -> Z) (p : Packing) (im : nat * ChatMessage) :
  populated p -> populated (pack now p im).
Proof.
  intro H. unfold pack, pack_message. destruct im as [i msg].
  destruct (is_system msg); [exact H |].
  destruct (_ || _); [exact H |].
  destruct (is_user msg && _); [exact H |].
  destruct (negb (is_user msg) && _); [exact H |].
  cbv zeta.
  set (full := (_ <? _) && (_ <? _)%nat).
  assert (H1 : populated (if full then close_chunk Number_of_string Date_parse (now i) p else p)).
  { destruct full eqn:E; [| exact H].
    apply populated_close; [exact H |].
    unfold full in E. apply andb_true_iff in E. destruct E as [_ E].
    apply Nat.ltb_lt in E. destruct (currentChunk p); [simpl in E; lia | discriminate]. }
  set (p1 := if full then close_chunk _ _ (now i) p else p) in *.
  match goal with
  | |- populated (if ?c then _ else _) => destruct c
  end.
  - apply populated_close; [exact H1 |]. cbn [currentChunk].
    destruct (currentChunk p1); discriminate.
  - exact H1.
Qed.

Lemma createChunksFromChat_populated (now : nat -> Z) (messages : list ChatMessage)
    (c : Chunk.t) :
  In c (createChunksFromChat Number_of_string Date_parse Date_toString settings
                             now messages characterName) ->
  Chunk.messageIds c <> [].
Proof.
  unfold createChunksFromChat. fold pack.
  set (init := {| chunks := []; currentChunk := []; currentSize := 0 |}).
  assert (H : populated (fold_left (pack now)
                           (combine (seq 0 (List.length messages)) messages) init)).
  { assert (Hi : populated init) by (intros x []).
    revert Hi. generalize init.
    induction (combine (seq 0 (List.length messages)) messages) as [| im l IH];
      intros p Hp; simpl; [exact Hp |].
    apply IH, pack_populated, Hp. }
  set (p := fold_left (pack now) _ init) in *.
  destruct (0 <? List.length (currentChunk p))%nat eqn:E.
  - apply populated_close; [exact H |].
    apply Nat.ltb_lt in E. destruct (currentChunk p); [simpl in E; lia | discriminate].
  - apply H.
Qed.

End PackingFacts.

(** Whether the answer to a probe says that a point exists. *)
Definition hit (o : fetch_outcome (option Z)) : bool :=
  match o with
  | Response true (Some (Some n)) => 0 <? n
  | _ => false
  end.

Section ReindexFacts.

Context {W : Type}.
Variable Number_of_string : string -> number.
Variable Date_parse : string -> number.
Variable Date_toString : number -> string.
Variable host : Host W.
Variable rev : revision.
Variable settings : Settings.
Variable cfg : ExtensionSettings.
Variable characterName : string.

(** The points the store holds in a world, and the store's reading of
    "this point lists that member identifier". *)
Variable written : W -> list (string * Point).
Variable lists : Point -> string -> Prop.

(** The transcript set. *)
Variable files : list string.
Variable transcript : string -> option (list ChatMessage).

(** An effect that loses no point. *)
Definition kept {A} (f : W -> A * W) : Prop :=
  forall w, incl (written w) (written (snd (f w))).

(** The storage reports faithfully, the transcripts do not change, and
    nobody cancels: no effect loses a point, an acknowledged write is held, a
    point lists the members it was written with, and a probe is answered
    with a hit exactly when the collection holds a point that lists one of
    the identifiers asked for. *)
Record Faithful : Prop := {
  kept_date_now : kept (date_now host);
  kept_random16 : kept (random16 host);
  kept_embedding : forall r, kept (fetch_embedding host r);
  kept_collection : forall url, kept (fetch_collection host url);
  kept_create : forall url n, kept (fetch_create host url n);
  kept_upsert : forall url pt, kept (fetch_upsert host url pt);
  kept_scroll : forall url messageIds, kept (fetch_scroll host url messageIds);
  kept_list : forall n, kept (list_transcripts host n);
  kept_load : forall n f, kept (load_transcript host n f);
  kept_cancel : kept (cancel_clicked host);
  upsert_held : forall url pt w body w',
      fetch_upsert host url pt w = (Response true body, w') ->
      In (url, pt) (written w');
  member_listed : forall pt members member,
      point_ids pt = Str.join "," members -> In member members ->
      lists pt member;
  scroll_faithful : forall base messageIds w,
      hit (fst (fetch_scroll host (base ++ "/points/scroll") messageIds w)) = true
      <-> exists pt member,
            In (base ++ "/points", pt) (written w)
            /\ In member messageIds /\ lists pt member;
  same_files : forall w, fst (list_transcripts host characterName w) = files;
  same_transcript : forall f w,
      fst (load_transcript host characterName f w) = transcript f;
  never_cancelled : forall w, fst (cancel_clicked host w) = false
}.

Hypothesis faithful : Faithful.

Let collection := getCollectionName settings characterName.
Let base_url := collection_url settings collection.

(** The collection holds a point that lists one of the identifiers. *)
Definition covered (w : W) (messageIds : list string) : Prop :=
  exists pt member,
    In (points_url settings characterName, pt) (written w)
    /\ In member messageIds /\ lists pt member.

Lemma covered_later (w w' : W) (messageIds : list string) :
  incl (written w) (written w') -> covered w messageIds -> covered w' messageIds.
Proof.
  intros Hi (pt & member & Hin & Hm & Hl). exists pt, member.
  split; [apply Hi, Hin | split; assumption].
Qed.

(** A computation that loses no point. *)
Definition keeps {A} (m : Async W A) : Prop :=
  forall w, incl (written w) (written (snd (m w))).

Lemma keeps_ret {A} (a : A) : keeps (ret a).
Proof. intro w. apply incl_refl. Qed.

Lemma keeps_throw {A} : keeps (@throw W A).
Proof. intro w. apply incl_refl. Qed.

Lemma keeps_bind {A B} (m : Async W A) (k : A -> Async W B) :
  keeps m -> (forall a, keeps (k a)) -> keeps (bind m k).
Proof.
  intros Hm Hk w. unfold bind. specialize (Hm w).
  destruct (m w) as [[a |] w1]; cbn [snd] in *; [| exact Hm].
  eapply incl_tran; [exact Hm | apply Hk].
Qed.

Lemma keeps_try_catch {A} (m h : Async W A) :
  keeps m -> keeps h -> keeps (try_catch m h).
Proof.
  intros Hm Hh w. unfold try_catch. specialize (Hm w).
  destruct (m w) as [[a |] w1]; cbn [snd] in *; [exact Hm |].
  eapply incl_tran; [exact Hm | apply Hh].
Qed.

Lemma keeps_perform {A} (f : W -> A * W) : kept f -> keeps (perform f).
Proof.
  intros Hf w. unfold perform. specialize (Hf w).
  destruct (f w) as [a w1]. exact Hf.
Qed.

Lemma keeps_await {B} (f : W -> fetch_outcome B * W) :
  kept f -> keeps (await_fetch f).
Proof.
  intros Hf w. unfold await_fetch. specialize (Hf w).
  destruct (f w) as [[| ok body] w1]; exact Hf.
Qed.

Lemma keeps_if {A} (b : bool) (m1 m2 : Async W A) :
  keeps m1 -> keeps m2 -> keeps (if b then m1 else m2).
Proof. destruct b; auto. Qed.

Lemma keeps_response_json {B} (body : option B) :
  keeps (@response_json W B body).
Proof. destruct body; [apply keeps_ret | apply keeps_throw]. Qed.

Lemma extract_embedding_keeps (p : string) (body : json) :
  keeps (@extract_embedding W p body).
Proof.
  unfold extract_embedding.
  destruct body; try apply keeps_throw;
    (destruct (String.eqb p "huggingface");
     [ destruct (index0 _) as [[| | | | l' |] |]; apply keeps_ret
     | destruct (opt_prop "embedding" _) as [e |];
       [destruct (truthy e) |]; apply keeps_ret ]).
Qed.

Lemma generateEmbedding_keeps (text : string) :
  keeps (generateEmbedding host rev cfg text).
Proof.
  unfold generateEmbedding.
  destruct cfg as [| qdrantMemory]; [apply keeps_throw |].
  apply keeps_try_catch; [| apply keeps_ret].
  apply keeps_bind; [apply keeps_await, (kept_embedding faithful) |].
  intros [ok body]. apply keeps_if; [apply keeps_ret |].
  apply keeps_bind; [apply keeps_response_json |].
  intro b. apply extract_embedding_keeps.
Qed.

Lemma ensureCollection_keeps (name : string) :
  keeps (ensureCollection host rev settings name).
Proof.
  unfold ensureCollection, collectionExists, createCollection.
  apply keeps_bind.
  - apply keeps_try_catch; [| apply keeps_ret].
    apply keeps_bind; [apply keeps_await, (kept_collection faithful) |].
    intro. apply keeps_ret.
  - intro b. apply keeps_if; [| apply keeps_ret].
    apply keeps_try_catch; [| apply keeps_ret].
    apply keeps_bind; [apply keeps_await, (kept_create faithful) |].
    intros [ok body]. apply keeps_if; apply keeps_ret.
Qed.

Lemma uuid_chars_keeps (template : list ascii) : keeps (uuid_chars host template).
Proof.
  induction template as [| c rest IH]; simpl; [apply keeps_ret |].
  apply keeps_if.
  - apply keeps_bind; [apply keeps_perform, (kept_random16 faithful) |].
    intro r. apply keeps_bind; [exact IH |]. intro. apply keeps_ret.
  - apply keeps_bind; [exact IH |]. intro. apply keeps_ret.
Qed.

Lemma generateUUID_keeps : keeps (generateUUID host).
Proof.
  unfold generateUUID. apply keeps_bind; [apply uuid_chars_keeps |].
  intro. apply keeps_ret.
Qed.

Lemma save_to_participant_keeps (pointId : string) (embedding : json)
    (payload : Payload.t) (name : string) :
  keeps (save_to_participant host rev settings pointId embedding payload name).
Proof.
  unfold save_to_participant.
  apply keeps_bind; [apply ensureCollection_keeps |].
  intro ready. apply keeps_if; [apply keeps_ret |].
  apply keeps_bind; [apply keeps_await, (kept_upsert faithful) |].
  intros [ok body]. apply keeps_if; apply keeps_ret.
Qed.

Lemma promise_all_keeps {A} (ps : list (Async W A)) :
  (forall p, In p ps -> keeps p) -> keeps (promise_all ps).
Proof.
  induction ps as [| p rest IH]; intro H; simpl; [apply keeps_ret |].
  intro w.
  pose proof (H p (or_introl eq_refl) w) as Hp.
  destruct (p w) as [r w1]. cbn [snd] in Hp.
  pose proof (IH (fun q Hq => H q (or_intror Hq)) w1) as Hr.
  destruct (promise_all rest w1) as [rs w2]. cbn [snd] in Hr |- *.
  eapply incl_tran; eassumption.
Qed.

Lemma saveChunkToQdrant_keeps (chunk : Chunk.t) (participants : list string) :
  keeps (saveChunkToQdrant host rev settings cfg chunk participants).
Proof.
  unfold saveChunkToQdrant. destruct participants as [| p ps];
    [apply keeps_ret |].
  apply keeps_try_catch; [| apply keeps_ret].
  apply keeps_bind; [apply generateEmbedding_keeps |].
  intro embedding. apply keeps_if; [apply keeps_ret |].
  apply keeps_bind; [apply generateUUID_keeps |].
  intro pointId. apply keeps_bind; [| intro; apply keeps_ret].
  apply promise_all_keeps. intros q Hq.
  apply in_map_iff in Hq. destruct Hq as (name & <- & _).
  apply save_to_participant_keeps.
Qed.

Lemma chunkExists_keeps (messageIds : list string) :
  keeps (chunkExists host settings collection messageIds).
Proof.
  unfold chunkExists. apply keeps_try_catch; [| apply keeps_ret].
  apply keeps_bind; [apply keeps_await, (kept_scroll faithful) |].
  intros [ok body]. apply keeps_if; [apply keeps_ret |].
  apply keeps_bind; [apply keeps_response_json |]. intro. apply keeps_ret.
Qed.

(** The probe of [chunkExists] says that the chunk exists exactly when the
    collection holds a point that lists one of its members. *)
Lemma chunkExists_covered (messageIds : list string) (w : W) :
  exists b w',
    chunkExists host settings collection messageIds w = (Normal b, w')
    /\ incl (written w) (written w')
    /\ (b = true <-> covered w messageIds).
Proof.
  pose proof (chunkExists_keeps messageIds w) as Hk.
  pose proof (scroll_faithful faithful base_url messageIds w) as Hf.
  unfold covered. unfold points_url. fold collection. fold base_url.
  unfold chunkExists in *. fold base_url in Hk |- *.
  unfold try_catch, bind, await_fetch in *.
  destruct (fetch_scroll host (base_url ++ "/points/scroll") messageIds w)
    as [[| ok body] w1]; cbn [fst snd hit] in *.
  - exists false, w1. split; [reflexivity |]. split; [exact Hk |].
    rewrite <- Hf. split; discriminate.
  - destruct ok; cbn [negb fst snd] in *.
    + destruct body as [[n |] |]; cbn in *.
      * exists (0 <? n), w1. split; [reflexivity |]. split; [exact Hk |].
        exact Hf.
      * exists false, w1. split; [reflexivity |]. split; [exact Hk |].
        rewrite <- Hf. split; discriminate.
      * exists false, w1. split; [reflexivity |]. split; [exact Hk |].
        rewrite <- Hf. split; discriminate.
    + exists false, w1. split; [reflexivity |]. split; [exact Hk |].
      rewrite <- Hf. split; discriminate.
Qed.

Lemma promise_all_single {A} (m : Async W A) (w : W) :
  promise_all [m] w
  = match m w with
    | (Normal a, w1) => (Normal [a], w1)
    | (Throw, w1) => (Throw, w1)
    end.
Proof.
  cbn [promise_all]. destruct (m w) as [[a |] w1]; reflexivity.
Qed.

(** The write to the one participant of the reindexer was acknowledged
    when [saveChunkToQdrant] reports success. *)
Lemma save_to_participant_acknowledged (pointId : string) (embedding : json)
    (payload : Payload.t) (w w' : W) :
  save_to_participant host rev settings pointId embedding payload
                      characterName w = (Normal true, w') ->
  In (points_url settings characterName,
      participant_point pointId embedding payload characterName) (written w').
Proof.
  unfold save_to_participant. rewrite bind_run.
  destruct (ensureCollection host rev settings characterName w)
    as [[ready |] w1]; [| discriminate].
  destruct ready; cbn [negb]; [| discriminate].
  rewrite bind_run. unfold await_fetch.
  destruct (fetch_upsert host (points_url settings characterName)
              (participant_point pointId embedding payload characterName) w1)
    as [[| ok body] w2] eqn:Hup; [discriminate |].
  cbn [fst negb]. destruct ok; cbn [negb]; [| discriminate].
  intro H. injection H as <-.
  eapply (upsert_held faithful). exact Hup.
Qed.

Lemma saveChunkToQdrant_single (chunk : Chunk.t) (w w' : W) :
  saveChunkToQdrant host rev settings cfg chunk [characterName] w
  = (Normal true, w') ->
  exists pointId embedding w2,
    save_to_participant host rev settings pointId embedding
                        (chunk_payload chunk) characterName w2
    = (Normal true, w').
Proof.
  unfold saveChunkToQdrant, try_catch. rewrite bind_run.
  destruct (generateEmbedding host rev cfg (Chunk.text chunk) w)
    as [[embedding |] w1]; [| discriminate].
  destruct (truthy embedding); cbn [negb]; [| discriminate].
  rewrite bind_run.
  destruct (generateUUID host w1) as [[pointId |] w2]; [| discriminate].
  rewrite bind_run. cbn [map]. rewrite promise_all_single.
  destruct (save_to_participant host rev settings pointId embedding
              (chunk_payload chunk) characterName w2) as [[b |] w3] eqn:Hs;
    [| discriminate].
  destruct b; [| discriminate].
  intro H. injection H as <-.
  exists pointId, embedding, w2. exact Hs.
Qed.

(** A chunk that [saveChunkToQdrant] reports as saved is held by the
    collection afterwards. *)
Lemma saveChunkToQdrant_covered (chunk : Chunk.t) (w w' : W) :
  Chunk.messageIds chunk <> [] ->
  saveChunkToQdrant host rev settings cfg chunk [characterName] w
  = (Normal true, w') ->
  covered w' (Chunk.messageIds chunk).
Proof.
  intros Hne Hrun.
  destruct (saveChunkToQdrant_single chunk w w' Hrun)
    as (pointId & embedding & w2 & Hs).
  apply save_to_participant_acknowledged in Hs.
  destruct (Chunk.messageIds chunk) as [| member members] eqn:Hids;
    [congruence |].
  exists (participant_point pointId embedding (chunk_payload chunk) characterName),
         member.
  split; [exact Hs |]. split; [left; reflexivity |].
  apply (member_listed faithful) with (members := member :: members);
    [| left; reflexivity].
  unfold point_ids, participant_point, chunk_payload.
  cbn [point_payload base Payload.messageIds]. rewrite Hids. reflexivity.
Qed.

Lemma check_cancelled_run (p : Progress) (w : W) :
  cancelled p = false ->
  exists w',
    check_cancelled host p w = (Normal p, w')
    /\ incl (written w) (written w').
Proof.
  intro Hc. unfold check_cancelled. rewrite bind_run. unfold perform.
  pose proof (never_cancelled faithful w) as Hn.
  pose proof (kept_cancel faithful w) as Hk.
  destruct (cancel_clicked host w) as [clicked w1]. cbn [fst snd] in Hn, Hk.
  subst clicked. exists w1. split; [| exact Hk].
  destruct p as [t s k c]. cbn in Hc |- *. subst c. reflexivity.
Qed.

Let index :=
  index_chunks host rev settings cfg collection characterName.

(** A run over the chunks of a transcript: every chunk is skipped, saved
    or left unsaved; when none is left unsaved, the collection holds a point
    for each of them afterwards. *)
Lemma index_chunks_first (chunks : list Chunk.t) :
  forall p w,
    cancelled p = false ->
    (forall c, In c chunks -> Chunk.messageIds c <> []) ->
    exists p' w',
      index chunks p w = (Normal p', w')
      /\ cancelled p' = false
      /\ totalChunks p' = totalChunks p
      /\ incl (written w) (written w')
      /\ savedChunks p' + skippedChunks p'
         <= savedChunks p + skippedChunks p + Z.of_nat (List.length chunks)
      /\ (savedChunks p' + skippedChunks p'
          = savedChunks p + skippedChunks p + Z.of_nat (List.length chunks) ->
          forall c, In c chunks -> covered w' (Chunk.messageIds c)).
Proof.
  unfold index.
  induction chunks as [| chunk rest IH]; intros p w Hc Hne.
  { exists p, w. cbn [index_chunks List.length]. split; [reflexivity |].
    split; [exact Hc |]. split; [reflexivity |]. split; [apply incl_refl |].
    split; [lia |]. intros _ c []. }
  assert (Hrest : forall c, In c rest -> Chunk.messageIds c <> [])
    by (intros c Hin; apply Hne; right; exact Hin).
  cbn [index_chunks]. rewrite bind_run.
  destruct (check_cancelled_run p w Hc) as (w1 & -> & Hk1).
  rewrite Hc, bind_run.
  destruct (chunkExists_covered (Chunk.messageIds chunk) w1)
    as (b & w2 & -> & Hk2 & Hb).
  destruct b.
  - destruct (IH (count_skipped p) w2 Hc Hrest)
      as (p' & w' & Hrun & Hc' & Ht & Hk3 & Hle & Hall).
    exists p', w'. split; [exact Hrun |]. split; [exact Hc' |].
    split; [exact Ht |].
    split; [eapply incl_tran; [exact Hk1 |]; eapply incl_tran; eassumption |].
    cbn [count_skipped savedChunks skippedChunks List.length] in *.
    split; [lia |].
    intros Heq c [<- | Hin].
    + eapply covered_later; [| apply Hb; reflexivity].
      eapply incl_tran; eassumption.
    + apply Hall; [lia | exact Hin].
  - rewrite bind_run.
    pose proof (saveChunkToQdrant_keeps chunk [characterName] w2) as Hk3.
    destruct (saveChunkToQdrant_settles host rev settings cfg chunk
                [characterName] w2) as (success & w3 & Hsave).
    rewrite Hsave in Hk3 |- *. cbn [snd] in Hk3.
    destruct success.
    + destruct (IH (count_saved p) w3 Hc Hrest)
        as (p' & w' & Hrun & Hc' & Ht & Hk4 & Hle & Hall).
      exists p', w'. split; [exact Hrun |]. split; [exact Hc' |].
      split; [exact Ht |].
      split; [eapply incl_tran; [exact Hk1 |]; eapply incl_tran; [exact Hk2 |];
              eapply incl_tran; eassumption |].
      cbn [count_saved savedChunks skippedChunks List.length] in *.
      split; [lia |].
      intros Heq c [<- | Hin].
      * eapply covered_later; [exact Hk4 |].
        apply (saveChunkToQdrant_covered chunk w2 w3);
          [apply Hne; left; reflexivity | exact Hsave].
      * apply Hall; [lia | exact Hin].
    + destruct (IH p w3 Hc Hrest)
        as (p' & w' & Hrun & Hc' & Ht & Hk4 & Hle & Hall).
      exists p', w'. split; [exact Hrun |]. split; [exact Hc' |].
      split; [exact Ht |].
      split; [eapply incl_tran; [exact Hk1 |]; eapply incl_tran; [exact Hk2 |];
              eapply incl_tran; eassumption |].
      cbn [List.length] in *.
      split; [lia |]. intro Heq. lia.
Qed.

(** A run over chunks that the collection already holds skips them all. *)
Lemma index_chunks_second (chunks : list Chunk.t) :
  forall p w,
    cancelled p = false ->
    (forall c, In c chunks -> covered w (Chunk.messageIds c)) ->
    exists p' w',
      index chunks p w = (Normal p', w')
      /\ cancelled p' = false
      /\ totalChunks p' = totalChunks p
      /\ incl (written w) (written w')
      /\ savedChunks p' = savedChunks p
      /\ skippedChunks p'
         = skippedChunks p + Z.of_nat (List.length chunks).
Proof.
  unfold index.
  induction chunks as [| chunk rest IH]; intros p w Hc Hcov.
  { exists p, w. cbn [index_chunks List.length]. split; [reflexivity |].
    split; [exact Hc |]. split; [reflexivity |]. split; [apply incl_refl |].
    split; [reflexivity | lia]. }
  cbn [index_chunks]. rewrite bind_run.
  destruct (check_cancelled_run p w Hc) as (w1 & -> & Hk1).
  rewrite Hc, bind_run.
  destruct (chunkExists_covered (Chunk.messageIds chunk) w1)
    as (b & w2 & -> & Hk2 & Hb).
  assert (b = true) as ->.
  { apply Hb. eapply covered_later; [exact Hk1 |].
    apply Hcov. left. reflexivity. }
  destruct (IH (count_skipped p) w2 Hc)
    as (p' & w' & Hrun & Hc' & Ht & Hk3 & Hs & Hsk).
  { intros c Hin. eapply covered_later; [| apply Hcov; right; exact Hin].
    eapply incl_tran; eassumption. }
  exists p', w'. split; [exact Hrun |]. split; [exact Hc' |].
  split; [exact Ht |].
  split; [eapply incl_tran; [exact Hk1 |]; eapply incl_tran; eassumption |].
  cbn [count_skipped savedChunks skippedChunks List.length] in *.
  split; [exact Hs | lia].
Qed.

(** The member identifiers of the chunks of a transcript file. *)
Definition member_lists (chatFile : string) : list (list string) :=
  match transcript chatFile with
  | None => []
  | Some messages =>
      map Chunk.messageIds
          (createChunksFromChat Number_of_string Date_parse Date_toString
                                settings (fun _ => 0) messages characterName)
  end.

(** The number of chunks of a list of transcript files. *)
Definition chunk_count (chatFiles : list string) : Z :=
  fold_right (fun f n => Z.of_nat (List.length (member_lists f)) + n) 0 chatFiles.

Lemma load_run (chatFile : string) (w : W) :
  exists w',
    perform (load_transcript host characterName chatFile) w
    = (Normal (transcript chatFile), w')
    /\ incl (written w) (written w').
Proof.
  unfold perform.
  pose proof (same_transcript faithful chatFile w) as Hs.
  pose proof (kept_load faithful characterName chatFile w) as Hk.
  destruct (load_transcript host characterName chatFile w) as [data w1].
  cbn [fst snd] in Hs, Hk. subst data. exists w1. split; [reflexivity | exact Hk].
Qed.

Lemma date_now_run (w : W) :
  exists now w',
    perform (date_now host) w = (Normal now, w')
    /\ incl (written w) (written w').
Proof.
  unfold perform. pose proof (kept_date_now faithful w) as Hk.
  destruct (date_now host w) as [now w1]. exists now, w1.
  split; [reflexivity | exact Hk].
Qed.

Lemma chunks_member_lists (chatFile : string) (messages : list ChatMessage)
    (now : Z) :
  transcript chatFile = Some messages ->
  map Chunk.messageIds
      (createChunksFromChat Number_of_string Date_parse Date_toString settings
                            (fun _ => now) messages characterName)
  = member_lists chatFile.
Proof.
  intro H. unfold member_lists. rewrite H. apply createChunksFromChat_ids.
Qed.

Let index_all :=
  index_files Number_of_string Date_parse Date_toString host rev settings cfg
              collection characterName.

Lemma index_files_first (chatFiles : list string) :
  forall p w,
    cancelled p = false ->
    exists p' w',
      index_all chatFiles p w = (Normal p', w')
      /\ cancelled p' = false
      /\ incl (written w) (written w')
      /\ totalChunks p' = totalChunks p + chunk_count chatFiles
      /\ savedChunks p' + skippedChunks p'
         <= savedChunks p + skippedChunks p + chunk_count chatFiles
      /\ (savedChunks p' + skippedChunks p'
          = savedChunks p + skippedChunks p + chunk_count chatFiles ->
          forall f messageIds,
            In f chatFiles -> In messageIds (member_lists f) ->
            covered w' messageIds).
Proof.
  unfold index_all.
  induction chatFiles as [| chatFile rest IH]; intros p w Hc.
  { exists p, w. cbn [index_files chunk_count fold_right].
    split; [reflexivity |]. split; [exact Hc |]. split; [apply incl_refl |].
    split; [lia |]. split; [lia |]. intros _ f ids []. }
  cbn [index_files]. rewrite bind_run.
  destruct (check_cancelled_run p w Hc) as (w1 & -> & Hk1).
  rewrite Hc, bind_run.
  destruct (load_run chatFile w1) as (w2 & -> & Hk2).
  cbn [chunk_count fold_right]. fold (chunk_count rest).
  destruct (transcript chatFile) as [messages |] eqn:Ht.
  - rewrite bind_run.
    destruct (date_now_run w2) as (now & w3 & -> & Hk3).
    cbv zeta. rewrite bind_run.
    pose proof (chunks_member_lists chatFile messages now Ht) as Hids.
    set (chunks := createChunksFromChat Number_of_string Date_parse
                     Date_toString settings (fun _ => now) messages
                     characterName) in *.
    assert (Hlen : List.length chunks = List.length (member_lists chatFile))
      by (rewrite <- Hids; rewrite length_map; reflexivity).
    destruct (index_chunks_first chunks
                (count_total (Z.of_nat (List.length chunks)) p) w3 Hc)
      as (p1 & w4 & Hrun & Hc1 & Ht1 & Hk4 & Hle1 & Hall1).
    { intros c Hin. unfold chunks in Hin.
      eapply createChunksFromChat_populated. exact Hin. }
    unfold index in Hrun. fold collection. rewrite Hrun.
    destruct (IH p1 w4 Hc1) as (p' & w' & Hrun' & Hc' & Hk5 & Ht' & Hle' & Hall').
    exists p', w'. split; [exact Hrun' |]. split; [exact Hc' |].
    split.
    { eapply incl_tran; [exact Hk1 |]. eapply incl_tran; [exact Hk2 |].
      eapply incl_tran; [exact Hk3 |]. eapply incl_tran; eassumption. }
    cbn [count_total totalChunks savedChunks skippedChunks] in *.
    rewrite Hlen in *.
    split; [lia |]. split; [lia |].
    intros Heq f messageIds [<- | Hin] Hm.
    + rewrite <- Hids in Hm. apply in_map_iff in Hm.
      destruct Hm as (c & <- & Hcin).
      eapply covered_later; [exact Hk5 |]. apply Hall1; [lia | exact Hcin].
    + eapply Hall'; [lia | exact Hin | exact Hm].
  - assert (Hzero : member_lists chatFile = [])
      by (unfold member_lists; rewrite Ht; reflexivity).
    rewrite Hzero. cbn [List.length Z.of_nat].
    destruct (IH p w2 Hc) as (p' & w' & Hrun' & Hc' & Hk5 & Ht' & Hle' & Hall').
    exists p', w'. split; [exact Hrun' |]. split; [exact Hc' |].
    split; [eapply incl_tran; [exact Hk1 |]; eapply incl_tran; eassumption |].
    split; [lia |]. split; [lia |].
    intros Heq f messageIds [<- | Hin] Hm.
    + rewrite Hzero in Hm. destruct Hm.
    + eapply Hall'; [lia | exact Hin | exact Hm].
Qed.

Lemma index_files_second (chatFiles : list string) :
  forall p w,
    cancelled p = false ->
    (forall f messageIds,
        In f chatFiles -> In messageIds (member_lists f) ->
        covered w messageIds) ->
    exists p' w',
      index_all chatFiles p w = (Normal p', w')
      /\ cancelled p' = false
      /\ incl (written w) (written w')
      /\ totalChunks p' = totalChunks p + chunk_count chatFiles
      /\ savedChunks p' = savedChunks p
      /\ skippedChunks p' = skippedChunks p + chunk_count chatFiles.
Proof.
  unfold index_all.
  induction chatFiles as [| chatFile rest IH]; intros p w Hc Hcov.
  { exists p, w. cbn [index_files chunk_count fold_right].
    split; [reflexivity |]. split; [exact Hc |]. split; [apply incl_refl |].
    split; [lia |]. split; [reflexivity | lia]. }
  cbn [index_files]. rewrite bind_run.
  destruct (check_cancelled_run p w Hc) as (w1 & -> & Hk1).
  rewrite Hc, bind_run.
  destruct (load_run chatFile w1) as (w2 & -> & Hk2).
  cbn [chunk_count fold_right]. fold (chunk_count rest).
  destruct (transcript chatFile) as [messages |] eqn:Ht.
  - rewrite bind_run.
    destruct (date_now_run w2) as (now & w3 & -> & Hk3).
    cbv zeta. rewrite bind_run.
    pose proof (chunks_member_lists chatFile messages now Ht) as Hids.
    set (chunks := createChunksFromChat Number_of_string Date_parse
                     Date_toString settings (fun _ => now) messages
                     characterName) in *.
    assert (Hlen : List.length chunks = List.length (member_lists chatFile))
      by (rewrite <- Hids; rewrite length_map; reflexivity).
    assert (Hk13 : incl (written w) (written w3)).
    { eapply incl_tran; [exact Hk1 |]. eapply incl_tran; eassumption. }
    destruct (index_chunks_second chunks
                (count_total (Z.of_nat (List.length chunks)) p) w3 Hc)
      as (p1 & w4 & Hrun & Hc1 & Ht1 & Hk4 & Hs1 & Hsk1).
    { intros c Hin. eapply covered_later; [exact Hk13 |].
      apply (Hcov chatFile); [left; reflexivity |].
      rewrite <- Hids. apply in_map. exact Hin. }
    unfold index in Hrun. fold collection. rewrite Hrun.
    destruct (IH p1 w4 Hc1) as (p' & w' & Hrun' & Hc' & Hk5 & Ht' & Hs' & Hsk').
    { intros f messageIds Hin Hm.
      eapply covered_later; [eapply incl_tran; [exact Hk13 | exact Hk4] |].
      apply (Hcov f); [right; exact Hin | exact Hm]. }
    exists p', w'. split; [exact Hrun' |]. split; [exact Hc' |].
    split; [eapply incl_tran; [exact Hk13 |]; eapply incl_tran; eassumption |].
    cbn [count_total totalChunks savedChunks skippedChunks] in *.
    rewrite Hlen in *.
    split; [lia |]. split; [lia | lia].
  - assert (Hzero : member_lists chatFile = [])
      by (unfold member_lists; rewrite Ht; reflexivity).
    rewrite Hzero. cbn [List.length Z.of_nat].
    destruct (IH p w2 Hc) as (p' & w' & Hrun' & Hc' & Hk5 & Ht' & Hs' & Hsk').
    { intros f messageIds Hin Hm.
      eapply covered_later; [eapply incl_tran; [exact Hk1 | exact Hk2] |].
      apply (Hcov f); [right; exact Hin | exact Hm]. }
    exists p', w'. split; [exact Hrun' |]. split; [exact Hc' |].
    split; [eapply incl_tran; [exact Hk1 |]; eapply incl_tran; eassumption |].
    split; [lia |]. split; [lia | lia].
Qed.

Let reindex :=
  indexCharacterChats Number_of_string Date_parse Date_toString host rev
                      settings cfg.

Definition fresh_progress : Progress :=
  {| totalChunks := 0; savedChunks := 0; skippedChunks := 0;
     cancelled := false |}.

(** A reindex that finishes has run the loop over the transcript files. *)
Lemma reindex_finished (context : Context) (w w' : W) (p : Progress) :
  name2 context = characterName ->
  reindex context w = (Normal (Finished p), w') ->
  exists wa,
    incl (written w) (written wa)
    /\ index_all files fresh_progress wa = (Normal p, w').
Proof.
  intros Hname. unfold reindex, indexCharacterChats. rewrite Hname.
  destruct (String.eqb characterName ""); [discriminate |].
  destruct (api_key_missing rev settings); [discriminate |].
  unfold try_catch. rewrite bind_run. unfold perform.
  pose proof (same_files faithful w) as Hsame.
  pose proof (kept_list faithful characterName w) as Hk0.
  destruct (list_transcripts host characterName w) as [fs wl].
  cbn [fst snd] in Hsame, Hk0. subst fs.
  destruct files as [| f rest] eqn:Hfiles; [discriminate |].
  rewrite bind_run.
  pose proof (ensureCollection_keeps characterName wl) as Hk1.
  destruct (ensureCollection_settles host rev settings characterName wl)
    as (ready & wa & Hens).
  rewrite Hens in Hk1 |- *. cbn [snd] in Hk1.
  rewrite bind_run.
  destruct (index_files_first (f :: rest) fresh_progress wa eq_refl)
    as (p' & w'' & Hrun & _).
  unfold index_all in Hrun. fold collection. unfold fresh_progress in Hrun.
  rewrite Hrun. intro H. injection H as <- <-.
  exists wa. split; [eapply incl_tran; eassumption |].
  unfold index_all, fresh_progress. rewrite <- Hfiles in Hrun |- *.
  exact Hrun.
Qed.

(** C5, amended.  Run the reindex of an entity twice over a transcript set
    that does not change, against a storage that reports faithfully, with
    neither run cancelled.  If the first run left no chunk unwritten, that
    is, its saved and skipped counts add up to its total, then the second
    run saves nothing and skips every chunk: its skipped count is the sum
    of the first run's saved and skipped counts.  In particular it equals
    the first run's saved count when the first run skipped nothing. *)
Theorem reindex_twice (context : Context) (w0 w1 w2 : W) (p1 p2 : Progress) :
  name2 context = characterName ->
  reindex context w0 = (Normal (Finished p1), w1) ->
  reindex context w1 = (Normal (Finished p2), w2) ->
  savedChunks p1 + skippedChunks p1 = totalChunks p1 ->
  savedChunks p2 = 0
  /\ skippedChunks p2 = savedChunks p1 + skippedChunks p1
  /\ totalChunks p2 = totalChunks p1
  /\ (skippedChunks p1 = 0 -> skippedChunks p2 = savedChunks p1).
Proof.
  intros Hname Hfirst Hsecond Hall.
  destruct (reindex_finished context w0 w1 p1 Hname Hfirst) as (wa & _ & Hrun1).
  destruct (reindex_finished context w1 w2 p2 Hname Hsecond) as (wb & Hk & Hrun2).
  destruct (index_files_first files fresh_progress wa eq_refl)
    as (p1' & w1' & Hrun1' & _ & _ & Ht1 & _ & Hcov).
  rewrite Hrun1 in Hrun1'. injection Hrun1' as <- <-.
  cbn [fresh_progress totalChunks savedChunks skippedChunks] in Ht1, Hcov.
  destruct (index_files_second files fresh_progress wb eq_refl)
    as (p2' & w2' & Hrun2' & _ & _ & Ht2 & Hs2 & Hsk2).
  { intros f messageIds Hin Hm. eapply covered_later; [exact Hk |].
    eapply Hcov; [lia | exact Hin | exact Hm]. }
  rewrite Hrun2 in Hrun2'. injection Hrun2' as <- <-.
  cbn [fresh_progress totalChunks savedChunks skippedChunks] in Ht2, Hs2, Hsk2.
  repeat split; lia.
Qed.

End ReindexFacts.

(** *** The concrete store reports faithfully *)

Lemma chars_inj (a b : string) : Str.chars a = Str.chars b -> a = b.
Proof.
  unfold Str.chars. intro H.
  rewrite <- (string_of_list_ascii_of_string a),
          <- (string_of_list_ascii_of_string b), H.
  reflexivity.
Qed.

Lemma append_cancel_r (a b c : string) : a ++ c = b ++ c -> a = b.
Proof.
  intro H. apply chars_inj.
  apply (f_equal Str.chars) in H. rewrite !chars_append in H.
  eapply app_inv_tail. exact H.
Qed.

Lemma prefix_chars_app (p r : list ascii) : Str.prefix_chars p (p ++ r) = true.
Proof.
  induction p as [| c p IH]; simpl; [reflexivity |].
  rewrite Ascii.eqb_refl, IH. reflexivity.
Qed.

Lemma includes_chars_here (p r : list ascii) :
  Str.includes_chars p (p ++ r) = true.
Proof.
  destruct (p ++ r)%list eqn:E; simpl; rewrite <- E, prefix_chars_app;
    reflexivity.
Qed.

Lemma includes_chars_later (p a s : list ascii) :
  Str.includes_chars p s = true -> Str.includes_chars p (a ++ s) = true.
Proof.
  intro H. induction a as [| c a IH]; simpl; [exact H |].
  rewrite IH. apply orb_true_r.
Qed.

(** The joined text of a list of identifiers holds each of them. *)
Lemma join_includes (members : list string) (member : string) :
  In member members ->
  Str.includes (Str.join "," members) member = true.
Proof.
  unfold Str.includes. induction members as [| x rest IH]; [intros [] |].
  intros [-> | Hin].
  - destruct rest as [| y rest].
    + cbn [Str.join]. rewrite <- (app_nil_r (Str.chars member)) at 2.
      apply includes_chars_here.
    + cbn [Str.join]. rewrite chars_append. apply includes_chars_here.
  - destruct rest as [| y rest]; [destruct Hin |].
    cbn [Str.join]. rewrite !chars_append, app_assoc.
    apply includes_chars_later. apply IH. exact Hin.
Qed.

Definition includes_member (pt : Point) (member : string) : Prop :=
  Str.includes (point_ids pt) member = true.

Lemma test_host_faithful (embedding : fetch_outcome json)
    (found : list Memory.t) (transcripts : list (string * list ChatMessage))
    (characterName : string) :
  Faithful (test_host embedding found transcripts) characterName store
           includes_member (map fst transcripts)
           (fun chatFile => assoc chatFile transcripts).
Proof.
  constructor; try (intros; intro w; apply incl_refl); try reflexivity.
  - intros url pt w. cbn. apply incl_appl, incl_refl.
  - intros url pt w body w' H. cbn in H. injection H as _ <-. cbn.
    apply in_or_app. right. left. reflexivity.
  - intros pt members member Hids Hin. unfold includes_member.
    rewrite Hids. apply join_includes. exact Hin.
  - intros base messageIds w. cbn [test_host fetch_scroll fst hit].
    set (hits := filter (probe_hit (base ++ "/points/scroll") messageIds) (store w)).
    split.
    + intro H. destruct hits as [| [url pt] rest] eqn:E;
        [cbn in H; discriminate |].
      assert (Hin : In (url, pt) hits) by (rewrite E; left; reflexivity).
      unfold hits in Hin. apply filter_In in Hin. destruct Hin as [Hin Hp].
      unfold probe_hit in Hp. cbn [fst snd] in Hp.
      apply andb_true_iff in Hp. destruct Hp as [Hu He].
      apply String.eqb_eq in Hu.
      apply existsb_exists in He. destruct He as (member & Hm & Hinc).
      exists pt, member. split; [| split; assumption].
      replace (base ++ "/points") with url; [exact Hin |].
      apply (append_cancel_r _ _ "/scroll").
      rewrite append_assoc. symmetry. exact Hu.
    + intros (pt & member & Hin & Hm & Hinc).
      assert (Hhit : In (base ++ "/points", pt) hits).
      { unfold hits. apply filter_In. split; [exact Hin |].
        unfold probe_hit. cbn [fst snd].
        apply andb_true_iff. split.
        - apply String.eqb_eq. rewrite append_assoc. reflexivity.
        - apply existsb_exists. exists member. split; assumption. }
      destruct hits as [| e rest]; [destruct Hhit |].
      cbn [List.length]. apply Z.ltb_lt. lia.
Qed.

(** The claim of the design document, as it is stated. *)
Definition second_skips_first_saved : Prop :=
  forall (W : Type) Number_of_string Date_parse Date_toString (host : Host W)
         rev settings cfg characterName written lists files transcript,
    Faithful host characterName written lists files transcript ->
    forall context w0 w1 w2 p1 p2,
      name2 context = characterName ->
      indexCharacterChats Number_of_string Date_parse Date_toString host rev
                          settings cfg context w0 = (Normal (Finished p1), w1) ->
      indexCharacterChats Number_of_string Date_parse Date_toString host rev
                          settings cfg context w1 = (Normal (Finished p2), w2) ->
      savedChunks p2 = 0 /\ skippedChunks p2 = savedChunks p1.

(** A transcript, and a branch of the chat that starts with the same
    turns. *)
Definition morning : list ChatMessage :=
  [ turn_at true "good morning, Bob" 1714557600000;
    turn_at false "good morning to you" 1714557660000 ].

Definition one_file : list (string * list ChatMessage) :=
  [("chat.jsonl", morning)].

Definition with_branch : list (string * list ChatMessage) :=
  [("chat.jsonl", morning); ("chat - branch.jsonl", morning)].

(** The reindex of Bob against the concrete store. *)
Notation "'reindex_on' transcripts w" :=
  (indexCharacterChats digits_Number iso_Date_parse plain_Date_toString
     (test_host good_embedding [] transcripts) Rev2 keyed_settings empty_cfg
     solo_context w)
  (at level 10, transcripts at level 9, w at level 9, only parsing).

Definition counts (r : completion IndexOutcome * TestWorld) : option (Z * Z * Z) :=
  match fst r with
  | Normal (Finished p) => Some (totalChunks p, savedChunks p, skippedChunks p)
  | _ => None
  end.

Example reindex_branch_first :
  counts (reindex_on with_branch start_world) = Some (2, 1, 1).
Proof. vm_compute. reflexivity. Qed.

Example reindex_branch_second :
  counts (reindex_on with_branch (snd (reindex_on with_branch start_world)))
  = Some (2, 0, 2).
Proof. vm_compute. reflexivity. Qed.

(** A first run in which the embedding provider is down saves nothing; the
    second run, with the provider up, saves the chunk. *)
Example reindex_after_failure :
  let first :=
    indexCharacterChats digits_Number iso_Date_parse plain_Date_toString
      (test_host NetError [] one_file) Rev2 keyed_settings empty_cfg
      solo_context start_world in
  counts first = Some (1, 0, 0)
  /\ counts (reindex_on one_file (snd first)) = Some (1, 1, 0).
Proof. vm_compute. split; reflexivity. Qed.

Lemma finished_run (r : completion IndexOutcome * TestWorld) (p : Progress) :
  fst r = Normal (Finished p) -> r = (Normal (Finished p), snd r).
Proof. destruct r as [o w]. cbn [fst snd]. intros ->. reflexivity. Qed.

Definition progress (total saved skipped : Z) : Progress :=
  {| totalChunks := total; savedChunks := saved; skippedChunks := skipped;
     cancelled := false |}.

Lemma branch_first_run :
  fst (reindex_on with_branch start_world) = Normal (Finished (progress 2 1 1)).
Proof. vm_compute. reflexivity. Qed.

Lemma branch_second_run :
  fst (reindex_on with_branch (snd (reindex_on with_branch start_world)))
  = Normal (Finished (progress 2 0 2)).
Proof. vm_compute. reflexivity. Qed.

(** C5, as stated, fails: when a transcript set holds a chat and a branch
    of it, the first run saves the chunk of the one and skips the chunk of
    the other, and the second run skips both; its skipped count is 2, the
    first run's saved count is 1. *)
Lemma second_skips_first_saved_fails : ~ second_skips_first_saved.
Proof.
  intro H.
  pose proof (finished_run _ _ branch_first_run) as R1.
  pose proof (finished_run _ _ branch_second_run) as R2.
  destruct (H TestWorld digits_Number iso_Date_parse plain_Date_toString
              (test_host good_embedding [] with_branch) Rev2 keyed_settings
              empty_cfg "Bob" store includes_member
              (map fst with_branch) (fun f => assoc f with_branch)
              (test_host_faithful good_embedding [] with_branch "Bob")
              solo_context start_world _ _ _ _ eq_refl R1 R2)
    as [_ Hskip].
  discriminate Hskip.
Qed.

Lemma one_file_first_run :
  fst (reindex_on one_file start_world) = Normal (Finished (progress 1 1 0)).
Proof. vm_compute. reflexivity. Qed.

Lemma one_file_second_run :
  fst (reindex_on one_file (snd (reindex_on one_file start_world)))
  = Normal (Finished (progress 1 0 1)).
Proof. vm_compute. reflexivity. Qed.

Lemma reindex_twice_witness :
  exists p1 p2 w1 w2,
    reindex_on one_file start_world = (Normal (Finished p1), w1)
    /\ reindex_on one_file w1 = (Normal (Finished p2), w2)
    /\ savedChunks p1 = 1
    /\ savedChunks p2 = 0
    /\ skippedChunks p2 = 1.
Proof.
  exists (progress 1 1 0), (progress 1 0 1),
         (snd (reindex_on one_file start_world)),
         (snd (reindex_on one_file (snd (reindex_on one_file start_world)))).
  pose proof (finished_run _ _ one_file_first_run) as R1.
  pose proof (finished_run _ _ one_file_second_run) as R2.
  destruct (reindex_twice digits_Number iso_Date_parse plain_Date_toString
              (test_host good_embedding [] one_file) Rev2 keyed_settings
              empty_cfg "Bob" store includes_member
              (map fst one_file) (fun f => assoc f one_file)
              (test_host_faithful good_embedding [] one_file "Bob")
              solo_context start_world _ _ _ _ eq_refl R1 R2 eq_refl)
    as (Hsaved & Hskipped & _ & _).
  split; [exact R1 |]. split; [exact R2 |]. split; [reflexivity |].
  split; [exact Hsaved | exact Hskipped].
Defined.
(** * Further properties of the code *)

(** ** Collection names *)

Lemma chars_of_chars (l : list ascii) : Str.chars (Str.of_chars l) = l.
Proof. apply list_ascii_of_string_of_list_ascii. Qed.

Lemma of_chars_chars (s : string) : Str.of_chars (Str.chars s) = s.
Proof. apply string_of_list_ascii_of_string. Qed.

(** The characters a sanitised name is made of: [a-z], [0-9], [_], [-]. *)
Definition name_character (c : ascii) : Prop :=
  let n := nat_of_ascii c in
  (97 <= n <= 122 \/ 48 <= n <= 57 \/ n = 95 \/ n = 45)%nat.

Lemma name_char_ok_iff (c : ascii) : name_char_ok c = true <-> name_character c.
Proof.
  unfold name_char_ok, name_character. cbv zeta.
  rewrite !orb_true_iff, !andb_true_iff, !Nat.leb_le, !Nat.eqb_eq. lia.
Qed.

Lemma underscore_ok : name_char_ok underscore = true.
Proof. reflexivity. Qed.

Definition double_underscore : list ascii := [underscore; underscore].

(** No two underscores side by side. *)
Definition single (l : list ascii) : Prop :=
  Str.includes_chars double_underscore l = false.

(** The list does not begin with an underscore. *)
Definition clean_start (l : list ascii) : Prop :=
  match l with
  | c :: _ => c <> underscore
  | [] => True
  end.

Lemma single_cons (c : ascii) (l : list ascii) :
  single (c :: l) <-> ~ (c = underscore /\ ~ clean_start l) /\ single l.
Proof.
  unfold single, double_underscore. cbn [Str.includes_chars Str.prefix_chars].
  rewrite orb_false_iff. apply and_iff_compat_r.
  destruct (Ascii.eqb_spec underscore c) as [<- | Hc]; cbn [andb].
  - destruct l as [| b r]; cbn [clean_start].
    + split; [intros _ [_ H]; apply H; exact I | reflexivity].
    + destruct (Ascii.eqb_spec underscore b) as [<- | Hb]; cbn [andb].
      * split; [discriminate |]. intros H. exfalso. apply H. split; [reflexivity |].
        intros Hn. apply Hn. reflexivity.
      * split; [| reflexivity]. intros _ [_ H]. apply H. congruence.
  - split; [| reflexivity]. intros _ [H _]. congruence.
Qed.

Lemma collapse_underscores_single (l : list ascii) :
  forall seen,
    single (collapse_underscores seen l)
    /\ (seen = true -> clean_start (collapse_underscores seen l)).
Proof.
  induction l as [| c r IH]; intros seen; cbn [collapse_underscores].
  - split; [reflexivity | intros _; exact I].
  - destruct (Ascii.eqb_spec c underscore) as [-> | Hc].
    + destruct seen.
      * apply IH.
      * split; [| discriminate]. apply single_cons. split.
        -- intros [_ H]. apply H. apply (IH true). reflexivity.
        -- apply IH.
    + split.
      * apply single_cons. split; [intros [H _]; congruence | apply IH].
      * intros _. exact Hc.
Qed.

Lemma collapse_underscores_Forall (P : ascii -> Prop) (l : list ascii) :
  forall seen, Forall P l -> Forall P (collapse_underscores seen l).
Proof.
  induction l as [| c r IH]; intros seen H; cbn [collapse_underscores].
  - constructor.
  - inversion H as [| ? ? Hc Hr]; subst.
    destruct (Ascii.eqb_spec c underscore) as [<- | _].
    + destruct seen; [apply IH; exact Hr |].
      constructor; [exact Hc | apply IH; exact Hr].
    + constructor; [exact Hc | apply IH; exact Hr].
Qed.

(** The list does not end with an underscore. *)
Definition clean_end (l : list ascii) : Prop :=
  forall r, l <> (r ++ [underscore])%list.

Lemma prefix_chars_longer (p a b : list ascii) :
  Str.prefix_chars p a = true -> Str.prefix_chars p (a ++ b)%list = true.
Proof.
  revert a. induction p as [| x p IH]; intros a H; [reflexivity |].
  destruct a as [| y a]; [discriminate |].
  cbn [Str.prefix_chars app] in *. apply andb_true_iff in H as [Hxy H].
  rewrite Hxy. cbn [andb]. apply IH. exact H.
Qed.

Lemma includes_chars_longer (p a b : list ascii) :
  Str.includes_chars p a = true -> Str.includes_chars p (a ++ b)%list = true.
Proof.
  induction a as [| y a IH]; intros H.
  - cbn [Str.includes_chars] in H. rewrite orb_false_r in H.
    destruct p; [| discriminate]. destruct b; reflexivity.
  - cbn [Str.includes_chars app] in *. apply orb_true_iff in H as [H | H].
    + pose proof (prefix_chars_longer p (y :: a) b H) as Hp.
      cbn [app] in Hp. rewrite Hp. reflexivity.
    + rewrite (IH H). apply orb_true_r.
Qed.

Lemma single_app_l (a b : list ascii) : single (a ++ b)%list -> single a.
Proof.
  unfold single. intros H.
  destruct (Str.includes_chars double_underscore a) eqn:Ha; [| reflexivity].
  rewrite (includes_chars_longer _ _ b Ha) in H. discriminate.
Qed.

Lemma double_end_not_single (z : list ascii) :
  ~ single (z ++ [underscore; underscore])%list.
Proof.
  unfold single. intros H.
  change [underscore; underscore] with double_underscore in H.
  rewrite (includes_chars_later double_underscore z double_underscore) in H;
    [discriminate | reflexivity].
Qed.

Lemma strip_leading_underscore_clean (l : list ascii) :
  single l ->
  single (strip_leading_underscore l)
  /\ clean_start (strip_leading_underscore l).
Proof.
  intros H. destruct l as [| c r]; cbn [strip_leading_underscore].
  - split; [exact H | exact I].
  - apply single_cons in H as [Hpair Hr].
    destruct (Ascii.eqb_spec c underscore) as [-> | Hc].
    + split; [exact Hr |]. destruct r as [| b r']; [exact I |].
      cbn [clean_start]. intros ->. apply Hpair. split; [reflexivity |].
      cbn [clean_start]. intros Hn. apply Hn. reflexivity.
    + split; [| exact Hc]. apply single_cons. split; [| exact Hr].
      intros [Heq _]. congruence.
Qed.

Lemma strip_leading_underscore_Forall (P : ascii -> Prop) (l : list ascii) :
  Forall P l -> Forall P (strip_leading_underscore l).
Proof.
  intros H. destruct l as [| c r]; cbn [strip_leading_underscore]; [exact H |].
  destruct (Ascii.eqb c underscore); [| exact H].
  inversion H; assumption.
Qed.

Lemma strip_underscores_clean (l : list ascii) :
  single l ->
  single (strip_underscores l)
  /\ clean_start (strip_underscores l)
  /\ clean_end (strip_underscores l).
Proof.
  intros H. unfold strip_underscores.
  destruct (strip_leading_underscore_clean l H) as [Hx Hstart].
  set (x := strip_leading_underscore l) in *. clearbody x. clear l H.
  destruct (rev x) as [| c r] eqn:Hrev.
  - cbn [strip_leading_underscore rev]. split; [reflexivity |].
    split; [exact I |]. intros z. destruct z; discriminate.
  - assert (Hxr : x = (rev r ++ [c])%list).
    { rewrite <- (rev_involutive x), Hrev. reflexivity. }
    cbn [strip_leading_underscore].
    destruct (Ascii.eqb_spec c underscore) as [-> | Hc].
    + subst x. split; [| split].
      * apply (single_app_l _ _ Hx).
      * destruct (rev r) as [| a y]; [| exact Hstart].
        exfalso. apply Hstart. reflexivity.
      * intros z Hz. rewrite Hz, <- app_assoc in Hx.
        apply (double_end_not_single z Hx).
    + cbn [rev]. rewrite <- Hxr. split; [exact Hx |]. split; [exact Hstart |].
      intros z Hz. rewrite Hz in Hxr. apply app_inj_tail in Hxr as [_ Heq].
      congruence.
Qed.

Lemma strip_underscores_Forall (P : ascii -> Prop) (l : list ascii) :
  Forall P l -> Forall P (strip_underscores l).
Proof.
  intros H. unfold strip_underscores.
  apply Forall_rev, strip_leading_underscore_Forall, Forall_rev,
        strip_leading_underscore_Forall, H.
Qed.

(** The characters of a sanitised name, before the result is a string again. *)
Lemma sanitize_chars (characterName : string) :
  let l := Str.chars (sanitize characterName) in
  Forall name_character l /\ single l /\ clean_start l /\ clean_end l.
Proof.
  cbv zeta. unfold sanitize. rewrite chars_of_chars.
  set (replaced := map _ _).
  assert (Hok : Forall name_character replaced).
  { unfold replaced. apply Forall_forall. intros c Hc.
    apply in_map_iff in Hc as (c0 & <- & _).
    destruct (name_char_ok c0) eqn:H0; apply name_char_ok_iff;
      [exact H0 | exact underscore_ok]. }
  split.
  - apply strip_underscores_Forall, collapse_underscores_Forall, Hok.
  - apply strip_underscores_clean, collapse_underscores_single.
Qed.

(** X1.  With per-character collections the collection of a character is
    named by the configured prefix, an underscore, and a suffix made of the
    characters [a-z], [0-9], [_] and [-] only, in which no two underscores
    stand side by side and which neither begins nor ends with an
    underscore.  Without per-character collections every character gets the
    configured name. *)
Theorem getCollectionName_shape (settings : Settings) (characterName : string) :
  (usePerCharacterCollections settings = false ->
   getCollectionName settings characterName = collectionName settings)
  /\ (usePerCharacterCollections settings = true ->
      exists suffix,
        getCollectionName settings characterName
        = collectionName settings ++ "_" ++ suffix
        /\ Forall name_character (Str.chars suffix)
        /\ Str.includes suffix "__" = false
        /\ (forall rest, suffix <> "_" ++ rest)
        /\ (forall rest, suffix <> rest ++ "_")).
Proof.
  unfold getCollectionName. split; intros ->; [reflexivity |].
  cbn [negb]. exists (sanitize characterName).
  destruct (sanitize_chars characterName) as (Hok & Hsingle & Hstart & Hend).
  split; [reflexivity |]. split; [exact Hok |]. split; [exact Hsingle |].
  split; intros rest Heq.
  - rewrite Heq in Hstart. cbn in Hstart. apply Hstart. reflexivity.
  - apply (Hend (Str.chars rest)). rewrite Heq. apply chars_append.
Qed.

Lemma getCollectionName_shape_witness :
  exists suffix,
    getCollectionName defaultSettings "__Dr. Bob__" = "mem_" ++ suffix
    /\ Str.includes suffix "__" = false.
Proof.
  destruct (getCollectionName_shape defaultSettings "__Dr. Bob__") as [_ H].
  destruct (H eq_refl) as (suffix & Hname & _ & Hsingle & _).
  exists suffix. split; [exact Hname | exact Hsingle].
Defined.

Lemma lower_name_character (c : ascii) : name_character c -> Str.lower c = c.
Proof.
  unfold name_character, Str.lower. cbv zeta. intros H.
  destruct ((65 <=? nat_of_ascii c)%nat && (nat_of_ascii c <=? 90)%nat) eqn:Hup;
    [| reflexivity].
  apply andb_true_iff in Hup as [H1 H2].
  apply Nat.leb_le in H1. apply Nat.leb_le in H2. lia.
Qed.

Lemma map_fixed {A} (f : A -> A) (l : list A) :
  Forall (fun x => f x = x) l -> map f l = l.
Proof.
  induction 1 as [| x l Hx _ IH]; [reflexivity |].
  cbn [map]. rewrite Hx, IH. reflexivity.
Qed.

Lemma collapse_underscores_fixed (l : list ascii) :
  forall seen,
    single l -> (seen = true -> clean_start l) ->
    collapse_underscores seen l = l.
Proof.
  induction l as [| c r IH]; intros seen Hsingle Hstart; [reflexivity |].
  cbn [collapse_underscores]. apply single_cons in Hsingle as [Hpair Hr].
  destruct (Ascii.eqb_spec c underscore) as [-> | Hc].
  - destruct seen.
    + exfalso. apply (Hstart eq_refl). reflexivity.
    + f_equal. apply IH; [exact Hr |]. intros _.
      destruct r as [| b r']; [exact I |]. cbn [clean_start]. intros ->.
      apply Hpair. split; [reflexivity |]. cbn [clean_start]. intros Hn.
      apply Hn. reflexivity.
  - f_equal. apply IH; [exact Hr | discriminate].
Qed.

Lemma strip_leading_underscore_fixed (l : list ascii) :
  clean_start l -> strip_leading_underscore l = l.
Proof.
  destruct l as [| c r]; [reflexivity |]. cbn [clean_start strip_leading_underscore].
  intros Hc. destruct (Ascii.eqb_spec c underscore); [contradiction | reflexivity].
Qed.

Lemma strip_underscores_fixed (l : list ascii) :
  clean_start l -> clean_end l -> strip_underscores l = l.
Proof.
  intros Hstart Hend. unfold strip_underscores.
  rewrite (strip_leading_underscore_fixed l Hstart).
  rewrite strip_leading_underscore_fixed; [apply rev_involutive |].
  destruct (rev l) as [| c r] eqn:Hrev; [exact I |]. cbn [clean_start].
  intros ->. apply (Hend (rev r)).
  rewrite <- (rev_involutive l), Hrev. reflexivity.
Qed.

(** X2.  Sanitising is idempotent: the suffix of a collection name, read as
    a character name, is its own suffix.  The collection of a character
    whose name is already a suffix is the one every name that sanitises to
    it shares. *)
Theorem sanitize_idempotent (settings : Settings) (characterName : string) :
  sanitize (sanitize characterName) = sanitize characterName
  /\ getCollectionName settings (sanitize characterName)
     = getCollectionName settings characterName.
Proof.
  assert (Hfix : sanitize (sanitize characterName) = sanitize characterName).
  { destruct (sanitize_chars characterName) as (Hok & Hsingle & Hstart & Hend).
    set (s := sanitize characterName) in *.
    unfold sanitize at 1. unfold Str.toLowerCase. rewrite chars_of_chars.
    rewrite (map_fixed Str.lower).
    2:{ eapply Forall_impl; [| exact Hok]. apply lower_name_character. }
    rewrite map_fixed.
    2:{ eapply Forall_impl; [| exact Hok]. intros c Hc. cbv beta.
        apply name_char_ok_iff in Hc. rewrite Hc. reflexivity. }
    rewrite collapse_underscores_fixed; [| exact Hsingle | discriminate].
    rewrite strip_underscores_fixed; [| exact Hstart | exact Hend].
    apply of_chars_chars. }
  split; [exact Hfix |]. unfold getCollectionName. rewrite Hfix. reflexivity.
Qed.

(** ** Collections and the embedding request *)

(** X3.  A model identifier that ends in [text-embedding-3-large], such as
    the namespaced identifiers of OpenRouter, gets 3072 dimensions in the
    second revision.  The first revision knows the three OpenAI identifiers
    only, and gives such an identifier, unless it is the OpenAI one itself,
    the fallback of 1536. *)
Theorem getEmbeddingDimensions_suffix (settings : Settings) :
  endsWith (embeddingModel settings) "text-embedding-3-large" = true ->
  getEmbeddingDimensions Rev2 settings = 3072
  /\ (embeddingModel settings <> "text-embedding-3-large" ->
      getEmbeddingDimensions Rev1 settings = 1536).
Proof.
  intros Hends. unfold getEmbeddingDimensions. cbv zeta.
  destruct (String.eqb_spec (embeddingModel settings) "text-embedding-3-large")
    as [Hlarge | Hlarge].
  - split; [reflexivity | contradiction].
  - destruct (String.eqb_spec (embeddingModel settings) "text-embedding-3-small")
      as [Hsmall | _].
    { rewrite Hsmall in Hends. vm_compute in Hends. discriminate. }
    destruct (String.eqb_spec (embeddingModel settings) "text-embedding-ada-002")
      as [Hada | _].
    { rewrite Hada in Hends. vm_compute in Hends. discriminate. }
    rewrite Hends. split; reflexivity.
Qed.

Definition with_model (model : string) (s : Settings) : Settings :=
  {| enabled := enabled s; provider := provider s; apiKey := apiKey s;
     baseUrl := baseUrl s; qdrantUrl := qdrantUrl s;
     collectionName := collectionName s; openaiApiKey := openaiApiKey s;
     embeddingModel := model; memoryLimit := memoryLimit s;
     scoreThreshold := scoreThreshold s; memoryPosition := memoryPosition s;
     debugMode := debugMode s;
     usePerCharacterCollections := usePerCharacterCollections s;
     autoSaveMemories := autoSaveMemories s;
     saveUserMessages := saveUserMessages s;
     saveCharacterMessages := saveCharacterMessages s;
     minMessageLength := minMessageLength s;
     showMemoryNotifications := showMemoryNotifications s;
     retainRecentMessages := retainRecentMessages s;
     chunkMinSize := chunkMinSize s; chunkMaxSize := chunkMaxSize s;
     chunkTimeout := chunkTimeout s |}.

Lemma getEmbeddingDimensions_suffix_witness :
  let namespaced := with_model "openai/text-embedding-3-large" defaultSettings in
  getEmbeddingDimensions Rev2 namespaced = 3072
  /\ getEmbeddingDimensions Rev1 namespaced = 1536.
Proof.
  cbv zeta.
  destruct (getEmbeddingDimensions_suffix
              (with_model "openai/text-embedding-3-large" defaultSettings))
    as [H2 H1]; [reflexivity |].
  split; [exact H2 | apply H1; discriminate].
Defined.

(** X4.  [ensureCollection] never fails.  It asks the store for the
    collection of the character first and sends the create request, with
    the vector size of the configured model, only when that probe is not
    answered with success; a probe that fails on the network counts as a
    missing collection.  The collection is reported ready exactly when the
    probe found it or the creation was acknowledged. *)
Theorem ensureCollection_probe_then_create {W : Type} (host : Host W)
    (rev : revision) (settings : Settings) (characterName : string) (w : W) :
  let url := collection_url settings (getCollectionName settings characterName) in
  ensureCollection host rev settings characterName w
  = match fetch_collection host url w with
    | (Response true _, w1) => (Normal true, w1)
    | (_, w1) =>
        match fetch_create host url (getEmbeddingDimensions rev settings) w1 with
        | (Response ok _, w2) => (Normal ok, w2)
        | (NetError, w2) => (Normal false, w2)
        end
    end.
Proof.
  cbv zeta. unfold ensureCollection. rewrite bind_run.
  unfold collectionExists, try_catch. rewrite bind_run. unfold await_fetch.
  destruct (fetch_collection host _ w) as [[| found body] w1].
  - cbv beta iota delta [ret negb fst].
    unfold createCollection, try_catch. rewrite bind_run. unfold await_fetch.
    destruct (fetch_create host _ _ w1) as [[| ok created] w2];
      [reflexivity | destruct ok; reflexivity].
  - cbv beta iota delta [ret negb fst]. destruct found; [reflexivity |].
    unfold createCollection, try_catch. rewrite bind_run. unfold await_fetch.
    destruct (fetch_create host _ _ w1) as [[| ok created] w2];
      [reflexivity | destruct ok; reflexivity].
Qed.

(** X5.  The request to the embedding provider always carries the text,
    under [inputs] for Hugging Face and under [input] otherwise.  When a key
    is configured ([apiKey], else [openaiApiKey]) the request carries it as
    a bearer token, whatever the provider; the second revision sends no
    [Authorization] header at all when no key is configured. *)
Theorem embedding_request_contents (rev : revision) (cfg : Cfg.t) (text : string) :
  let request := embedding_request rev cfg text in
  let key := or_else (Cfg.apiKey cfg) (Cfg.openaiApiKey cfg) in
  let provider := Str.toLowerCase (or_else (Cfg.provider cfg) "openai") in
  (if String.eqb provider "huggingface"
   then payload request = [("inputs", text)]
   else assoc "input" (payload request) = Some text)
  /\ (key <> "" ->
      assoc "Authorization" (headers request) = Some ("Bearer " ++ key))
  /\ (rev = Rev2 -> key = "" ->
      assoc "Authorization" (headers request) = None).
Proof.
  cbv zeta. unfold embedding_request. cbv zeta.
  set (key := or_else (Cfg.apiKey cfg) (Cfg.openaiApiKey cfg)).
  set (p := Str.toLowerCase (or_else (Cfg.provider cfg) "openai")).
  assert (Hkey : key <> "" -> optional_bearer key = [bearer key]).
  { intros Hne. unfold optional_bearer.
    destruct (String.eqb_spec key ""); [contradiction | reflexivity]. }
  assert (Hnone : key = "" -> optional_bearer key = []).
  { intros ->. reflexivity. }
  destruct (String.eqb p "openrouter") eqn:Hrouter.
  { destruct (String.eqb_spec p "huggingface") as [Hp | _].
    { rewrite Hp in Hrouter. discriminate. }
    split; [reflexivity |]. split.
    - intros Hne. destruct rev; cbn [headers assoc];
        rewrite ?(Hkey Hne); reflexivity.
    - intros -> Hempty. cbn [headers]. rewrite (Hnone Hempty). reflexivity. }
  destruct (String.eqb p "huggingface") eqn:Hhf.
  { split; [reflexivity |]. split.
    - intros Hne. destruct rev; cbn [headers]; [reflexivity |].
      destruct (String.eqb_spec key ""); [contradiction | reflexivity].
    - intros -> Hempty. cbn [headers]. rewrite Hempty. reflexivity. }
  destruct (String.eqb p "custom") eqn:Hcustom.
  { split; [reflexivity |]. split.
    - intros Hne. cbn [headers]. rewrite (Hkey Hne). reflexivity.
    - intros _ Hempty. cbn [headers]. rewrite (Hnone Hempty). reflexivity. }
  split; [reflexivity |]. split.
  - intros Hne. destruct rev; cbn [headers assoc];
      rewrite ?(Hkey Hne); reflexivity.
  - intros -> Hempty. cbn [headers]. rewrite (Hnone Hempty). reflexivity.
Qed.

Lemma embedding_request_contents_witness :
  assoc "Authorization" (headers (embedding_request Rev2 huggingface_cfg "hello"))
  = Some "Bearer hf_test"
  /\ assoc "Authorization" (headers (embedding_request Rev2 empty_cfg "hello"))
     = None.
Proof.
  split.
  - apply (embedding_request_contents Rev2 huggingface_cfg "hello"). discriminate.
  - apply (embedding_request_contents Rev2 empty_cfg "hello"); reflexivity.
Defined.

(** X6.  The provider name is matched without regard to letter case where
    the request is built, and letter for letter where the answer is
    decoded.  With a provider written like [HuggingFace] the text goes to
    the Hugging Face endpoint, and the array that endpoint answers with is
    decoded as an OpenAI body, which gives the failure result. *)
Theorem generateEmbedding_provider_case {W : Type} (host : Host W)
    (rev : revision) (cfg : Cfg.t) (text : string) (w w1 : W)
    (items : list json) :
  Str.toLowerCase (Cfg.provider cfg) = "huggingface" ->
  Cfg.provider cfg <> "huggingface" ->
  let request := embedding_request rev cfg text in
  apiUrl request
  = "https://api-inference.huggingface.co/pipeline/feature-extraction/"
    ++ or_else (Cfg.embeddingModel cfg) "text-embedding-3-large"
  /\ (fetch_embedding host request w = (Response true (Some (JArr items)), w1) ->
      generateEmbedding host rev cfg text w = (Normal JNull, w1)).
Proof.
  intros Hlower Hcase. cbv zeta.
  assert (Hp : or_else (Cfg.provider cfg) "openai" = Cfg.provider cfg).
  { unfold or_else. destruct (String.eqb_spec (Cfg.provider cfg) "") as [He | _];
      [| reflexivity].
    rewrite He in Hlower. discriminate. }
  split.
  - unfold embedding_request. cbv zeta. rewrite Hp, Hlower. reflexivity.
  - intros Hfetch. unfold generateEmbedding, configured, configuration, try_catch.
    rewrite bind_run.
    unfold await_fetch. rewrite Hfetch. cbv beta iota delta [negb fst snd].
    rewrite bind_run. cbv beta iota delta [response_json ret].
    rewrite Hp. unfold extract_embedding.
    destruct (String.eqb_spec (Cfg.provider cfg) "huggingface");
      [contradiction | reflexivity].
Qed.

Definition capitalised_cfg : Cfg.t :=
  {| Cfg.provider := "HuggingFace"; Cfg.apiKey := "hf_test";
     Cfg.openaiApiKey := "";
     Cfg.embeddingModel := "sentence-transformers/all-MiniLM-L6-v2";
     Cfg.baseUrl := "" |}.

Lemma generateEmbedding_provider_case_witness :
  fst (generateEmbedding
         (test_host (Response true (Some (JArr [unit_vector]))) [] [])
         Rev2 capitalised_cfg "hello" start_world)
  = Normal JNull.
Proof.
  destruct (generateEmbedding_provider_case
              (test_host (Response true (Some (JArr [unit_vector]))) [] [])
              Rev2 capitalised_cfg "hello" start_world start_world
              [unit_vector]) as [_ H]; [reflexivity | discriminate |].
  rewrite H; reflexivity.
Defined.

(** ** Retrieval *)

Section RetrievalEdges.

Context {W : Type}.
Variable Number_of_string : string -> number.
Variable Date_parse : string -> number.
Variable host : Host W.
Variable rev : revision.
Variable settings : Settings.
Variable cfg : ExtensionSettings.

Let search := searchMemories Number_of_string Date_parse host rev settings cfg.
Let conversation := getConversationMessages Number_of_string Date_parse.
Let threshold := timestampThreshold Number_of_string Date_parse settings.

(** X7.  [searchMemories] never fails.  It gives no memories and leaves the
    conversation as it is, synthetic memory turns included, when the
    extension is disabled (no request is made at all), when the collection
    is not ready (nothing follows the collection requests), and when the
    query text gets no embedding (nothing follows the embedding request). *)
Theorem searchMemories_gives_up (ctx_chat : list ChatMessage)
    (query characterName : string) (w : W) :
  (exists found w', search ctx_chat query characterName w = (Normal found, w'))
  /\ (enabled settings = false ->
      search ctx_chat query characterName w = (Normal ([], ctx_chat), w))
  /\ (enabled settings = true ->
      forall w1,
        ensureCollection host rev settings characterName w = (Normal false, w1) ->
        search ctx_chat query characterName w = (Normal ([], ctx_chat), w1))
  /\ (enabled settings = true ->
      forall w1 embedding w2,
        ensureCollection host rev settings characterName w = (Normal true, w1) ->
        generateEmbedding host rev cfg query w1 = (Normal embedding, w2) ->
        truthy embedding = false ->
        search ctx_chat query characterName w = (Normal ([], ctx_chat), w2)).
Proof.
  split; [apply searchMemories_settles |].
  unfold search, searchMemories. split; [intros ->; reflexivity |].
  split; intros -> w1.
  - intros Hready. cbn [negb]. unfold try_catch at 1.
    rewrite bind_run, Hready. reflexivity.
  - intros embedding w2 Hready Hemb Hfalsy. cbn [negb]. unfold try_catch at 1.
    rewrite bind_run, Hready. cbn [negb]. rewrite bind_run, Hemb, Hfalsy.
    reflexivity.
Qed.

(** X8.  The synthetic memory turns never move the recency cutoff: the
    conversation turns, and so the cutoff, are the same whether or not the
    synthetic turns have been stripped, and inserting a synthetic turn
    anywhere leaves them as they were. *)
Theorem cutoff_ignores_memory_entries (chat : list ChatMessage) :
  conversation (removeExistingMemoryEntries chat) = conversation chat
  /\ threshold (conversation (removeExistingMemoryEntries chat))
     = threshold (conversation chat)
  /\ (forall index entry,
         qdrantMemory entry = true ->
         conversation (splice_insert chat index entry) = conversation chat).
Proof.
  assert (Hconv : conversation (removeExistingMemoryEntries chat)
                  = conversation chat).
  { unfold conversation, getConversationMessages.
    induction chat as [| msg rest IH]; [reflexivity |].
    cbn [removeExistingMemoryEntries filter].
    destruct (isQdrantMemoryMessage msg) eqn:Hmsg; [exact IH |].
    cbn [filter]. rewrite Hmsg, IH. reflexivity. }
  split; [exact Hconv |]. split; [rewrite Hconv; reflexivity |].
  intros index entry Hentry.
  destruct (splice_insert_parts chat index entry) as [k ->].
  unfold conversation, getConversationMessages.
  rewrite filter_app. cbn [filter]. unfold isQdrantMemoryMessage at 2.
  rewrite Hentry, <- filter_app, firstn_skipn. reflexivity.
Qed.

(** X9.  No recency condition is sent when [retainRecentMessages] is not
    positive or the conversation has no more turns than that: the cutoff is
    0, and the query carries no filter at all with per-character
    collections, and the character condition alone without them. *)
Theorem no_recency_condition (conv : list ChatMessage) (embedding : json)
    (characterName : string) :
  retainRecentMessages settings <= 0
  \/ Z.of_nat (List.length conv) <= retainRecentMessages settings ->
  threshold conv = Num 0
  /\ filter_must (searchPayload settings embedding (threshold conv) characterName)
     = if usePerCharacterCollections settings then None
       else Some [MatchValue "character" characterName].
Proof.
  intros Hfew.
  assert (Hzero : threshold conv = Num 0).
  { unfold threshold, timestampThreshold. cbv zeta.
    destruct (0 <? retainRecentMessages settings) eqn:Hpos; [| reflexivity].
    destruct (retainRecentMessages settings <? Z.of_nat (List.length conv))
      eqn:Hlt; [| reflexivity].
    apply Z.ltb_lt in Hpos. apply Z.ltb_lt in Hlt. lia. }
  split; [exact Hzero |]. rewrite Hzero.
  unfold searchPayload, filterConditions. cbn [filter_must num_gt0 num_ltb].
  destruct (usePerCharacterCollections settings); reflexivity.
Qed.

End RetrievalEdges.

Lemma searchMemories_gives_up_witness :
  searchMemories digits_Number iso_Date_parse (test_host good_embedding [] [])
                 Rev2 (with_enabled false keyed_settings) empty_cfg live_chat
                 "hello" "Bob" start_world
  = (Normal ([], live_chat), start_world)
  /\ fst (searchMemories digits_Number iso_Date_parse
            (test_host (Response true (Some (openai_body JNull))) [] [])
            Rev2 keyed_settings empty_cfg live_chat "hello" "Bob" start_world)
     = Normal ([], live_chat).
Proof.
  split.
  - destruct (searchMemories_gives_up digits_Number iso_Date_parse
                (test_host good_embedding [] []) Rev2
                (with_enabled false keyed_settings) empty_cfg live_chat "hello"
                "Bob" start_world) as (_ & H & _).
    apply H. reflexivity.
  - destruct (searchMemories_gives_up digits_Number iso_Date_parse
                (test_host (Response true (Some (openai_body JNull))) [] [])
                Rev2 keyed_settings empty_cfg live_chat "hello" "Bob"
                start_world) as (_ & _ & _ & H).
    rewrite (H eq_refl start_world JNull start_world); reflexivity.
Defined.

Lemma cutoff_ignores_memory_entries_witness :
  getConversationMessages digits_Number iso_Date_parse live_chat
  = getConversationMessages digits_Number iso_Date_parse ten_turns.
Proof.
  destruct (cutoff_ignores_memory_entries digits_Number iso_Date_parse
              defaultSettings ten_turns) as (_ & _ & H).
  replace live_chat with (splice_insert ten_turns 8 injected_turn)
    by reflexivity.
  apply H. reflexivity.
Defined.

Lemma no_recency_condition_witness :
  filter_must
    (searchPayload defaultSettings unit_vector
       (timestampThreshold digits_Number iso_Date_parse defaultSettings
          (firstn 5 ten_turns)) "Bob")
  = None.
Proof.
  apply (no_recency_condition digits_Number iso_Date_parse defaultSettings
           (firstn 5 ten_turns) unit_vector "Bob").
  right. cbn. lia.
Defined.

(** ** Participants *)

(** Whether a turn names a participant of a group chat. *)
Definition names_participant (msg : ChatMessage) : bool :=
  negb (is_user msg) && negb (String.eqb (name msg) "")
  && negb (String.eqb (name msg) "System").

Lemma add_participant (acc : list string) (msg : ChatMessage) :
  let acc' :=
    if names_participant msg then set_add acc (name msg) else acc in
  (NoDup acc -> NoDup acc')
  /\ (forall p, In p acc' <->
                In p acc \/ (names_participant msg = true /\ name msg = p))
  /\ (exists more, acc' = (acc ++ more)%list).
Proof.
  cbv zeta. destruct (names_participant msg).
  - split; [apply set_add_NoDup |]. split.
    + intros p. rewrite set_add_In. split.
      * intros [H | H]; [left; exact H |].
        right. split; [reflexivity | symmetry; exact H].
      * intros [H | [_ H]]; [left; exact H |].
        right. symmetry. exact H.
    + unfold set_add. destruct (existsb _ acc).
      * exists []. symmetry. apply app_nil_r.
      * exists [name msg]. reflexivity.
  - split; [tauto |]. split.
    + intros p. split; [tauto |]. intros [H | [H _]]; [exact H | discriminate].
    + exists []. symmetry. apply app_nil_r.
Qed.

Lemma collect_participants (l : list ChatMessage) :
  forall acc,
    let ps :=
      fold_left
        (fun participants msg =>
           if names_participant msg then set_add participants (name msg)
           else participants)
        l acc in
    (NoDup acc -> NoDup ps)
    /\ (forall p, In p ps <->
                  In p acc
                  \/ exists msg, In msg l /\ names_participant msg = true
                                 /\ name msg = p)
    /\ (exists more, ps = (acc ++ more)%list).
Proof.
  induction l as [| msg rest IH]; intros acc; cbn [fold_left].
  - split; [tauto |]. split.
    + intros p. split; [tauto |]. intros [H | (msg & [] & _)]. exact H.
    + exists []. symmetry. apply app_nil_r.
  - destruct (add_participant acc msg) as (Hnodup' & Hin' & more' & Hmore').
    destruct (IH (if names_participant msg then set_add acc (name msg) else acc))
      as (Hnodup & Hin & more & Hmore).
    split; [intros H; apply Hnodup, Hnodup', H |]. split.
    + intros p. rewrite Hin, Hin'. split.
      * intros [[H | [Hn Hp]] | (m & Hm & Hn & Hp)]; [left; exact H | |].
        -- right. exists msg. split; [left; reflexivity | split; assumption].
        -- right. exists m. split; [right; exact Hm | split; assumption].
      * intros [H | (m & [<- | Hm] & Hn & Hp)]; [left; left; exact H | |].
        -- left. right. split; assumption.
        -- right. exists m. split; [exact Hm | split; assumption].
    + exists (more' ++ more)%list. rewrite Hmore, Hmore'. symmetry.
      apply app_assoc.
Qed.

(** X10.  The participants of a chat are listed without repetition.  They
    are the active character, when there is one, and, in a group chat, the
    names on the turns among the last 50 of the conversation that are not
    the user's, that have a name, and whose name is not [System].  The
    active character comes first. *)
Theorem getChatParticipants_members (context : Context) :
  let participants := getChatParticipants context in
  NoDup participants
  /\ (forall p,
         In p participants <->
         (p = name2 context /\ p <> "")
         \/ ((1 < characters context)%nat
             /\ exists msg,
                  In msg (last_n 50 (chat context))
                  /\ is_user msg = false /\ name msg = p
                  /\ p <> "" /\ p <> "System"))
  /\ (name2 context <> "" ->
      exists others, participants = name2 context :: others).
Proof.
  cbv zeta. unfold getChatParticipants. cbv zeta.
  set (start := if String.eqb (name2 context) "" then [] else [name2 context]).
  assert (Hstart : NoDup start
                   /\ (forall p, In p start <-> p = name2 context /\ p <> "")
                   /\ (name2 context <> "" -> start = [name2 context])).
  { unfold start. destruct (String.eqb_spec (name2 context) "") as [He | Hne].
    - split; [constructor |]. split; [| contradiction].
      intros p. split; [intros [] |]. intros [-> Hp]. contradiction.
    - split; [constructor; [intros [] | constructor] |]. split; [| reflexivity].
      intros p. split.
      + intros [<- | []]. split; [reflexivity | exact Hne].
      + intros [-> _]. left. reflexivity. }
  destruct Hstart as (Hnodup & Hin & Hhead).
  destruct (1 <? characters context)%nat eqn:Hgroup.
  - change (fun participants msg =>
              if negb (is_user msg) && negb (String.eqb (name msg) "")
                 && negb (String.eqb (name msg) "System")
              then set_add participants (name msg) else participants)
      with (fun participants msg =>
              if names_participant msg then set_add participants (name msg)
              else participants).
    destruct (collect_participants (last_n 50 (chat context)) start)
      as (Hn & Hi & more & Hmore).
    apply Nat.ltb_lt in Hgroup.
    split; [apply Hn, Hnodup |]. split.
    + intros p. rewrite Hi, Hin. apply or_iff_compat_l. split.
      * intros (msg & Hmsg & Hnames & Hp). split; [exact Hgroup |].
        exists msg. unfold names_participant in Hnames.
        apply andb_true_iff in Hnames as [Hnames Hsys].
        apply andb_true_iff in Hnames as [Huser Hname].
        apply negb_true_iff in Huser, Hname, Hsys.
        apply String.eqb_neq in Hname, Hsys. subst p. tauto.
      * intros (_ & msg & Hmsg & Huser & Hp & Hname & Hsys).
        exists msg. split; [exact Hmsg |]. split; [| exact Hp].
        unfold names_participant. subst p.
        apply String.eqb_neq in Hname, Hsys. rewrite Huser, Hname, Hsys.
        reflexivity.
    + intros Hne. rewrite Hmore, (Hhead Hne). exists more. reflexivity.
  - apply Nat.ltb_ge in Hgroup.
    split; [exact Hnodup |]. split.
    + intros p. rewrite Hin. split; [tauto |].
      intros [H | [Hlt _]]; [exact H | lia].
    + intros Hne. exists []. apply Hhead, Hne.
Qed.

Definition group_context : Context :=
  {| chat :=
       [ turn_at true "hello all" 1000;
         {| name := "Alice"; is_user := false; is_system := false;
            mes := "hello"; send_date := SNumber (Num 2000);
            qdrantMemory := false |};
         {| name := "System"; is_user := false; is_system := true;
            mes := "Alice joined"; send_date := SNumber (Num 2500);
            qdrantMemory := false |};
         turn_at false "hello there" 3000 ];
     name2 := "Bob"; characters := 2 |}.

Lemma getChatParticipants_members_witness :
  exists others,
    getChatParticipants group_context = "Bob" :: others
    /\ ~ In "System" others.
Proof.
  destruct (getChatParticipants_members group_context) as (_ & Hin & Hhead).
  destruct (Hhead ltac:(discriminate)) as [others Hothers].
  exists others. split; [exact Hothers |]. intros Hsys.
  assert (H : In "System" (getChatParticipants group_context)).
  { rewrite Hothers. right. exact Hsys. }
  apply Hin in H. destruct H as [[H _] | (_ & msg & _ & _ & _ & _ & H)].
  - discriminate.
  - apply H. reflexivity.
Defined.

(** ** Point identifiers *)

Definition hex_char (c : ascii) : Prop := In c (Str.chars "0123456789abcdef").

Definition variant_char (c : ascii) : Prop := In c (Str.chars "89ab").

(** What stands in an identifier at a position of the template: a
    hexadecimal digit for [x], one of [8], [9], [a], [b] for [y], and the
    character of the template otherwise. *)
Definition uuid_position (t c : ascii) : Prop :=
  if Ascii.eqb t "x" then hex_char c
  else if Ascii.eqb t "y" then variant_char c
  else c = t.

Definition uuid_template : string := "xxxxxxxx-xxxx-4xxx-yxxx-xxxxxxxxxxxx".

Ltac by_value r :=
  let H := fresh in
  assert (H : r = 0 \/ r = 1 \/ r = 2 \/ r = 3 \/ r = 4 \/ r = 5 \/ r = 6
              \/ r = 7 \/ r = 8 \/ r = 9 \/ r = 10 \/ r = 11 \/ r = 12
              \/ r = 13 \/ r = 14 \/ r = 15) by lia;
  repeat (destruct H as [H | H]; [subst r; vm_compute; tauto |]);
  subst r; vm_compute; tauto.

Lemma hex_digit_hex (r : Z) : 0 <= r < 16 -> hex_char (hex_digit r).
Proof. intros Hr. unfold hex_char. by_value r. Qed.

Lemma hex_digit_variant (r : Z) :
  0 <= r < 16 -> variant_char (hex_digit (Z.lor (Z.land r 3) 8)).
Proof. intros Hr. unfold variant_char. by_value r. Qed.

Lemma chars_length (s : string) : List.length (Str.chars s) = String.length s.
Proof.
  unfold Str.chars. induction s as [| c s IH]; [reflexivity |].
  cbn [list_ascii_of_string List.length String.length]. rewrite IH. reflexivity.
Qed.

Section Identifiers.

Context {W : Type}.
Variable host : Host W.

(** [(Math.random() * 16) | 0] is one of 0, ..., 15. *)
Hypothesis random16_range : forall w, 0 <= fst (random16 host w) < 16.

Lemma uuid_chars_shape (template : list ascii) :
  forall w,
    exists l w',
      uuid_chars host template w = (Normal l, w')
      /\ Forall2 uuid_position template l.
Proof.
  induction template as [| c rest IH]; intros w; cbn [uuid_chars].
  - exists [], w. split; [reflexivity | constructor].
  - destruct (Ascii.eqb c "x") eqn:Hx; cbn [orb].
    + rewrite bind_run. unfold perform.
      pose proof (random16_range w) as Hr.
      destruct (random16 host w) as [r w1]. cbn [fst] in Hr.
      rewrite bind_run. destruct (IH w1) as (tail & w2 & -> & Hshape).
      exists (hex_digit r :: tail), w2. split; [reflexivity |].
      constructor; [| exact Hshape]. unfold uuid_position. rewrite Hx.
      apply hex_digit_hex, Hr.
    + destruct (Ascii.eqb c "y") eqn:Hy.
      * rewrite bind_run. unfold perform.
        pose proof (random16_range w) as Hr.
        destruct (random16 host w) as [r w1]. cbn [fst] in Hr.
        rewrite bind_run. destruct (IH w1) as (tail & w2 & -> & Hshape).
        exists (hex_digit (Z.lor (Z.land r 3) 8) :: tail), w2.
        split; [reflexivity |].
        constructor; [| exact Hshape]. unfold uuid_position. rewrite Hx, Hy.
        apply hex_digit_variant, Hr.
      * rewrite bind_run. destruct (IH w) as (tail & w2 & -> & Hshape).
        exists (c :: tail), w2. split; [reflexivity |].
        constructor; [| exact Hshape]. unfold uuid_position. rewrite Hx, Hy.
        reflexivity.
Qed.

(** X11.  A point identifier has the layout of a random UUID: 36
    characters that follow the template [xxxxxxxx-xxxx-4xxx-yxxx-xxxxxxxxxxxx]
    position by position, with a hexadecimal digit for every [x], one of
    [8], [9], [a], [b] for the [y], and the hyphens and the [4] in their
    places. *)
Theorem generateUUID_shape (w : W) :
  exists pointId w',
    generateUUID host w = (Normal pointId, w')
    /\ Forall2 uuid_position (Str.chars uuid_template) (Str.chars pointId)
    /\ String.length pointId = 36%nat.
Proof.
  unfold generateUUID. rewrite bind_run.
  destruct (uuid_chars_shape (Str.chars uuid_template) w)
    as (l & w' & Hrun & Hshape).
  change (Str.chars "xxxxxxxx-xxxx-4xxx-yxxx-xxxxxxxxxxxx")
    with (Str.chars uuid_template).
  rewrite Hrun. exists (Str.of_chars l), w'. split; [reflexivity |].
  rewrite chars_of_chars. split; [exact Hshape |].
  rewrite <- chars_length, chars_of_chars.
  rewrite <- (Forall2_length Hshape). reflexivity.
Qed.

End Identifiers.

Lemma generateUUID_shape_witness :
  exists pointId w',
    generateUUID (test_host good_embedding [] []) start_world
    = (Normal pointId, w')
    /\ String.length pointId = 36%nat.
Proof.
  destruct (generateUUID_shape (test_host good_embedding [] [])) with
    (w := start_world) as (pointId & w' & Hrun & _ & Hlength).
  - intros w. cbn [random16 test_host fst]. apply Z.mod_pos_bound. lia.
  - exists pointId, w'. split; [exact Hrun | exact Hlength].
Defined.

(** ** Storage write *)

(** X12.  A chunk is not written without participants or without an
    embedding.  With no participant [saveChunkToQdrant] reports failure and
    makes no request.  When the text of the chunk gets no embedding it
    reports failure, and nothing follows the embedding request: no
    identifier is drawn and no point is sent to the store. *)
Theorem saveChunkToQdrant_refuses {W : Type} (host : Host W) (rev : revision)
    (settings : Settings) (cfg : ExtensionSettings) (chunk : Chunk.t)
    (participants : list string) :
  (forall w,
      participants = [] ->
      saveChunkToQdrant host rev settings cfg chunk participants w
      = (Normal false, w))
  /\ (forall w embedding w1,
         participants <> [] ->
         generateEmbedding host rev cfg (Chunk.text chunk) w
         = (Normal embedding, w1) ->
         truthy embedding = false ->
         saveChunkToQdrant host rev settings cfg chunk participants w
         = (Normal false, w1))
  /\ (forall (wl : W * Sent) embedding wl1,
         generateEmbedding (recording host) rev cfg (Chunk.text chunk) wl
         = (Normal embedding, wl1) ->
         truthy embedding = false ->
         snd (snd (saveChunkToQdrant (recording host) rev settings cfg chunk
                                     participants wl))
         = snd wl).
Proof.
  assert (Hrefuse :
            forall (V : Type) (h : Host V) w embedding w1,
              participants <> [] ->
              generateEmbedding h rev cfg (Chunk.text chunk) w
              = (Normal embedding, w1) ->
              truthy embedding = false ->
              saveChunkToQdrant h rev settings cfg chunk participants w
              = (Normal false, w1)).
  { intros V h w embedding w1 Hne Hemb Hfalsy. unfold saveChunkToQdrant.
    destruct participants as [| p ps]; [contradiction |].
    unfold try_catch. rewrite bind_run, Hemb, Hfalsy. reflexivity. }
  split; [intros w ->; reflexivity |]. split; [apply Hrefuse |].
  intros wl embedding wl1 Hemb Hfalsy.
  destruct participants as [| p ps] eqn:Hps; [reflexivity |].
  rewrite <- Hps in *.
  rewrite (Hrefuse _ (recording host) wl embedding wl1);
    [| rewrite Hps; discriminate | exact Hemb | exact Hfalsy].
  cbn [snd]. pose proof (generateEmbedding_silent host rev cfg (Chunk.text chunk) wl)
    as Hsilent.
  rewrite Hemb in Hsilent. exact Hsilent.
Qed.

Lemma saveChunkToQdrant_refuses_witness :
  saveChunkToQdrant (test_host good_embedding [] []) Rev2 keyed_settings
                    empty_cfg hi_hey_chunk [] start_world
  = (Normal false, start_world)
  /\ saveChunkToQdrant (test_host NetError [] []) Rev2 keyed_settings
                       empty_cfg hi_hey_chunk ["Bob"] start_world
     = (Normal false, start_world).
Proof.
  split.
  - apply (saveChunkToQdrant_refuses (test_host good_embedding [] []) Rev2
             keyed_settings empty_cfg hi_hey_chunk []).
    reflexivity.
  - destruct (saveChunkToQdrant_refuses (test_host NetError [] []) Rev2
                keyed_settings empty_cfg hi_hey_chunk ["Bob"]) as (_ & H & _).
    apply (H start_world JNull start_world); [discriminate | | ]; reflexivity.
Defined.

(** ** Buffering state machine: what every run keeps *)

Section MachineInvariants.

Variable rev : revision.
Variable settings : Settings.
Variable context : Context.

Lemma run_keeps (P : Machine -> Prop) :
  (forall m e, P m -> P (step rev settings context m e)) ->
  forall events m, P m -> P (run rev settings context m events).
Proof.
  intros Hstep events. unfold run.
  induction events as [| e rest IH]; intros m Hm; [exact Hm |].
  cbn [fold_left]. apply IH, Hstep, Hm.
Qed.

Lemma start_flush_timers (now : Z) (m : Machine) :
  timers (start_flush now context m) = timers m
  /\ chunkTimer (start_flush now context m) = chunkTimer m
  /\ accepted (start_flush now context m) = accepted m.
Proof.
  unfold start_flush.
  destruct (flush_start now context (messageBuffer m)); repeat split.
Qed.

(** At most one timeout is armed, and it is the one whose handle
    [chunkTimer] holds. *)
Definition one_timer (m : Machine) : Prop :=
  timers m = []
  \/ exists h delay,
       timers m = [(h, delay)]
       /\ chunkTimer m = Some h
       /\ (delay = 5000 \/ delay = chunkTimeout settings).

Lemma one_timer_cleared (m : Machine) :
  one_timer m ->
  match chunkTimer m with
  | Some h => clearTimeout h (timers m)
  | None => timers m
  end = [].
Proof.
  intros [Hnone | (h & delay & Htimers & Hhandle & _)].
  - rewrite Hnone. destruct (chunkTimer m); reflexivity.
  - rewrite Hhandle, Htimers. unfold clearTimeout. cbn [filter fst].
    rewrite Nat.eqb_refl. reflexivity.
Qed.

Lemma step_one_timer (m : Machine) (e : Event) :
  one_timer m -> one_timer (step rev settings context m e).
Proof.
  intros Hm. destruct e as [now text characterName isUser messageId | h now | k];
    cbn [step].
  - unfold bufferMessage. destruct (rejects rev settings text isUser); [exact Hm |].
    cbv zeta. rewrite (one_timer_cleared m Hm).
    destruct (chunkMaxSize settings <=? _).
    + left. rewrite (proj1 (start_flush_timers _ _)). reflexivity.
    + right. unfold arm. cbn [timers chunkTimer next_timer app].
      exists (next_timer m).
      destruct (chunkMinSize settings <=? _); eexists;
        (split; [reflexivity | split; [reflexivity | tauto]]).
  - unfold timer_fires.
    destruct (existsb (fun t => Nat.eqb (fst t) h) (timers m)) eqn:Hfound;
      [| exact Hm].
    destruct Hm as [Hnone | (h' & delay & Htimers & Hhandle & _)].
    + rewrite Hnone in Hfound. discriminate.
    + left. rewrite (proj1 (start_flush_timers _ _)). cbn [timers].
      rewrite Htimers in *. cbn [existsb fst orb] in Hfound.
      rewrite orb_false_r in Hfound. unfold clearTimeout. cbn [filter fst].
      rewrite Hfound. reflexivity.
  - unfold finish_flush. destruct (nth_error (inflight m) k); exact Hm.
Qed.

(** X13.  However turns arrive, timeouts expire and saves settle, at most
    one flush timeout is armed at any moment; when one is armed it is the
    one whose handle [chunkTimer] holds, and its delay is 5000 ms or the
    configured [chunkTimeout]. *)
Theorem one_timer_pending (events : list Event) :
  let m := run rev settings context initial events in
  timers m = []
  \/ exists h delay,
       timers m = [(h, delay)]
       /\ chunkTimer m = Some h
       /\ (delay = 5000 \/ delay = chunkTimeout settings).
Proof.
  cbv zeta. apply (run_keeps one_timer step_one_timer). left. reflexivity.
Qed.

End MachineInvariants.

Section MachineHistory.

Variable rev : revision.
Variable settings : Settings.
Variable context : Context.

(** A chunk made of a run of consecutive accepted turns. *)
Definition run_of (accepted : list Turn.t) (chunk : Chunk.t) : Prop :=
  exists before turns after,
    accepted = (before ++ turns ++ after)%list
    /\ turns <> []
    /\ Chunk.messageIds chunk = map Turn.messageId turns
    /\ Chunk.messageCount chunk = Z.of_nat (List.length turns).

Definition passed_guards (turn : Turn.t) : Prop :=
  rejects rev settings (Turn.text turn) (Turn.isUser turn) = false.

Definition history (buffer accepted : list Turn.t) (handed : list Chunk.t)
    (inflight : list (Chunk.t * list string)) : Prop :=
  (exists earlier, accepted = (earlier ++ buffer)%list)
  /\ (forall chunk, In chunk handed -> run_of accepted chunk)
  /\ (forall entry, In entry inflight -> In (fst entry) handed)
  /\ Forall passed_guards accepted.

Definition kept_history (m : Machine) : Prop :=
  history (messageBuffer m) (accepted m) (handed m) (inflight m).

Lemma run_of_later (accepted : list Turn.t) (turn : Turn.t) (chunk : Chunk.t) :
  run_of accepted chunk -> run_of (accepted ++ [turn]) chunk.
Proof.
  intros (before & turns & after & -> & Hne & Hids & Hcount).
  exists before, turns, (after ++ [turn])%list.
  rewrite <- !app_assoc. repeat split; assumption.
Qed.

Lemma createChunkFromBuffer_count (now : Z) (buffer : list Turn.t)
    (chunk : Chunk.t) :
  createChunkFromBuffer now buffer = Some chunk ->
  buffer <> []
  /\ Chunk.messageCount chunk = Z.of_nat (List.length buffer).
Proof.
  unfold createChunkFromBuffer. destruct buffer as [| t r]; [discriminate |].
  intros H. injection H as <-. split; [discriminate | reflexivity].
Qed.

Lemma start_flush_history (now : Z) (m : Machine) :
  kept_history m -> kept_history (start_flush now context m).
Proof.
  intros (Hbuffer & Hhanded & Hinflight & Hguards). unfold start_flush.
  destruct (flush_start now context (messageBuffer m)) as [| | chunk ps] eqn:Hstart.
  - repeat split; assumption.
  - unfold kept_history, set_buffer. cbn [messageBuffer accepted handed inflight].
    split; [| repeat split; assumption].
    exists (accepted m). symmetry. apply app_nil_r.
  - unfold kept_history. cbn [messageBuffer accepted handed inflight].
    apply flush_start_saving in Hstart as (Hchunk & _ & _).
    pose proof (createChunkFromBuffer_ids _ _ _ Hchunk) as Hids.
    apply createChunkFromBuffer_count in Hchunk as [Hne Hcount].
    split; [exact Hbuffer |]. split; [| split; [| exact Hguards]].
    + intros c Hc. apply in_app_or in Hc as [Hc | [<- | []]];
        [apply Hhanded, Hc |].
      destruct Hbuffer as [earlier Hearlier].
      exists earlier, (messageBuffer m), []. rewrite app_nil_r.
      repeat split; assumption.
    + intros entry Hentry. apply in_or_app.
      apply in_app_or in Hentry as [Hentry | [<- | []]];
        [left; apply Hinflight, Hentry | right; left; reflexivity].
Qed.

Lemma step_history (m : Machine) (e : Event) :
  kept_history m -> kept_history (step rev settings context m e).
Proof.
  intros Hm. destruct e as [now text characterName isUser messageId | h now | k];
    cbn [step].
  - unfold bufferMessage.
    destruct (rejects rev settings text isUser) eqn:Hguard; [exact Hm |].
    cbv zeta.
    match goal with
    | |- kept_history (if _ then start_flush _ _ ?m1
                       else if _ then arm _ ?m1 else arm _ ?m1) =>
        assert (H1 : kept_history m1)
    end.
    { destruct Hm as ([earlier Hearlier] & Hhanded & Hinflight & Hguards).
      unfold kept_history. cbn [messageBuffer accepted handed inflight].
      split; [| split; [| split]].
      - exists earlier. rewrite Hearlier. symmetry. apply app_assoc.
      - intros chunk Hchunk. apply run_of_later, Hhanded, Hchunk.
      - exact Hinflight.
      - apply Forall_app. split; [exact Hguards |].
        constructor; [exact Hguard | constructor]. }
    destruct (chunkMaxSize settings <=? _); [apply start_flush_history, H1 |].
    destruct (chunkMinSize settings <=? _); exact H1.
  - unfold timer_fires.
    destruct (existsb (fun t => Nat.eqb (fst t) h) (timers m)); [| exact Hm].
    apply start_flush_history. exact Hm.
  - unfold finish_flush. destruct (nth_error (inflight m) k); [| exact Hm].
    destruct Hm as (_ & Hhanded & Hinflight & Hguards).
    unfold kept_history. cbn [messageBuffer accepted handed inflight].
    split; [exists (accepted m); symmetry; apply app_nil_r |].
    split; [exact Hhanded |]. split; [| exact Hguards].
    intros entry Hentry. apply Hinflight.
    apply in_app_or in Hentry as [Hentry | Hentry].
    + rewrite <- (firstn_skipn k (inflight m)). apply in_or_app. left.
      exact Hentry.
    + rewrite <- (firstn_skipn (S k) (inflight m)). apply in_or_app. right.
      exact Hentry.
Qed.

(** X14.  However turns arrive, timeouts expire and saves settle: the
    buffer holds the most recent accepted turns, in the order of their
    arrival; every chunk handed to storage is made of a run of consecutive
    accepted turns, in that order, and counts them; every flush in flight
    carries a chunk that was handed to storage; and no turn that one of the
    guards of [bufferMessage] rejects is ever accepted. *)
Theorem handed_chunks_are_runs (events : list Event) :
  let m := run rev settings context initial events in
  (exists earlier, accepted m = (earlier ++ messageBuffer m)%list)
  /\ (forall chunk,
         In chunk (handed m) ->
         exists before turns after,
           accepted m = (before ++ turns ++ after)%list
           /\ turns <> []
           /\ Chunk.messageIds chunk = map Turn.messageId turns
           /\ Chunk.messageCount chunk = Z.of_nat (List.length turns))
  /\ (forall entry, In entry (inflight m) -> In (fst entry) (handed m))
  /\ Forall (fun turn =>
               rejects rev settings (Turn.text turn) (Turn.isUser turn) = false)
            (accepted m).
Proof.
  cbv zeta. apply (run_keeps rev settings context kept_history step_history).
  split; [exists []; reflexivity |]. split; [intros chunk [] |].
  split; [intros entry [] | constructor].
Qed.

End MachineHistory.

Lemma handed_chunks_are_runs_witness :
  let m := run Rev2 (with_sizes 10 20 keyed_settings) solo_context initial
               full_buffer in
  exists chunk before turns after,
    In chunk (handed m)
    /\ accepted m = (before ++ turns ++ after)%list
    /\ Chunk.messageIds chunk = map Turn.messageId turns.
Proof.
  cbv zeta.
  destruct (handed (run Rev2 (with_sizes 10 20 keyed_settings) solo_context
                        initial full_buffer)) as [| chunk rest] eqn:Hhanded;
    [vm_compute in Hhanded; discriminate |].
  destruct (handed_chunks_are_runs Rev2 (with_sizes 10 20 keyed_settings)
              solo_context full_buffer) as (_ & Hruns & _).
  destruct (Hruns chunk) as (before & turns & after & Haccepted & _ & Hids & _).
  - rewrite Hhanded. left. reflexivity.
  - exists chunk, before, turns, after.
    split; [left; reflexivity |]. split; [exact Haccepted | exact Hids].
Defined.

(** ** Replay of a transcript *)

(** An entry of an array sits at its index in the array paired with its
    indices. *)
Lemma position_listed {A} (l : list A) (x : A) :
  forall start position,
    nth_error l position = Some x ->
    In ((start + position)%nat, x) (combine (seq start (List.length l)) l).
Proof.
  induction l as [| y rest IH]; intros start position Hnth.
  - destruct position; discriminate Hnth.
  - cbn [List.length seq combine]. destruct position as [| position].
    + injection Hnth as ->. left. rewrite Nat.add_0_r. reflexivity.
    + right. replace (start + S position)%nat with (S start + position)%nat
        by lia.
      apply IH. exact Hnth.
Qed.

Section Replay.

Variable Number_of_string : string -> number.
Variable Date_parse : string -> number.
Variable Date_toString : number -> string.
Variable settings : Settings.
Variable characterName : string.

Let pack := pack_message Number_of_string Date_parse Date_toString settings
                         characterName.
Let close := close_chunk Number_of_string Date_parse.
Let chunk_of := createChunkFromMessages Number_of_string Date_parse.

(** Whether the replay keeps a turn of a transcript: it is not a system
    turn, its trimmed text is not empty and not shorter than
    [minMessageLength], and turns of its kind are saved. *)
Definition replayed (msg : ChatMessage) : bool :=
  negb (is_system msg)
  && negb (String.eqb (Str.trim (mes msg)) "")
  && (minMessageLength settings <=? Str.length (Str.trim (mes msg)))
  && (if is_user msg then saveUserMessages settings
      else saveCharacterMessages settings).

(** The identifier the replay gives the turn at a position of a transcript. *)
Definition replay_id (im : nat * ChatMessage) : string :=
  characterName ++ "_" ++ date_to_string Date_toString (send_date (snd im))
  ++ "_" ++ Str.of_Z (Z.of_nat (fst im)).

Definition replay_turn (now : nat -> Z) (im : nat * ChatMessage) : Turn.t :=
  {| Turn.text := Str.trim (mes (snd im));
     Turn.characterName := characterName;
     Turn.isUser := is_user (snd im);
     Turn.messageId := replay_id im;
     Turn.timestamp :=
       if date_truthy (send_date (snd im)) then send_date (snd im)
       else SNumber (Num (now (fst im))) |}.

Definition push (p : Packing) (turn : Turn.t) : Packing :=
  {| chunks := chunks p;
     currentChunk := (currentChunk p ++ [turn])%list;
     currentSize := currentSize p + turn_size turn |}.

(** One iteration of the packing loop, by cases. *)
Lemma pack_cases (now : nat -> Z) (p : Packing) (im : nat * ChatMessage) :
  pack now p im
  = if replayed (snd im) then
      let turn := replay_turn now im in
      let p1 :=
        if (chunkMaxSize settings <? currentSize p + turn_size turn)
           && (0 <? List.length (currentChunk p))%nat
        then close (now (fst im)) p else p in
      let p2 := push p1 turn in
      if (chunkMinSize settings <=? currentSize p2)
         && (3 <=? List.length (currentChunk p2))%nat
      then close (now (fst im)) p2 else p2
    else p.
Proof.
  destruct im as [i msg].
  unfold pack, pack_message, replayed, replay_turn, replay_id. cbn [fst snd].
  cbv zeta.
  destruct (is_system msg); [reflexivity |]. cbn [negb andb].
  destruct (String.eqb (Str.trim (mes msg)) ""); [reflexivity |].
  cbn [negb orb andb].
  rewrite (Z.leb_antisym (Str.length (Str.trim (mes msg)))
                         (minMessageLength settings)).
  destruct (Str.length (Str.trim (mes msg)) <? minMessageLength settings);
    [reflexivity |].
  cbn [negb andb].
  destruct (is_user msg); cbn [negb andb].
  - destruct (saveUserMessages settings); reflexivity.
  - destruct (saveCharacterMessages settings); reflexivity.
Qed.

(** The identifiers a packing holds, in the order of the turns. *)
Definition all_ids (p : Packing) : list string :=
  (List.concat (map Chunk.messageIds (chunks p))
   ++ map Turn.messageId (currentChunk p))%list.

Lemma all_ids_close (now : Z) (p : Packing) : all_ids (close now p) = all_ids p.
Proof.
  unfold all_ids, close, close_chunk. cbn [chunks currentChunk map].
  rewrite map_app, concat_app. cbn [map List.concat].
  rewrite createChunkFromMessages_ids, !app_nil_r. reflexivity.
Qed.

Lemma all_ids_push (p : Packing) (turn : Turn.t) :
  all_ids (push p turn) = (all_ids p ++ [Turn.messageId turn])%list.
Proof.
  unfold all_ids, push. cbn [chunks currentChunk].
  rewrite map_app, app_assoc. reflexivity.
Qed.

Lemma all_ids_pack (now : nat -> Z) (p : Packing) (im : nat * ChatMessage) :
  all_ids (pack now p im)
  = (all_ids p ++ if replayed (snd im) then [replay_id im] else [])%list.
Proof.
  rewrite pack_cases. destruct (replayed (snd im)); [| symmetry; apply app_nil_r].
  cbv zeta.
  match goal with
  | |- all_ids (if ?b then close ?n ?q else ?q) = _ =>
      replace (all_ids (if b then close n q else q)) with (all_ids q)
        by (destruct b; [symmetry; apply all_ids_close | reflexivity])
  end.
  rewrite all_ids_push.
  match goal with
  | |- (all_ids (if ?b then close ?n ?q else ?q) ++ _)%list = _ =>
      replace (all_ids (if b then close n q else q)) with (all_ids q)
        by (destruct b; [symmetry; apply all_ids_close | reflexivity])
  end.
  reflexivity.
Qed.

Lemma all_ids_fold (now : nat -> Z) (l : list (nat * ChatMessage)) :
  forall p,
    all_ids (fold_left (pack now) l p)
    = (all_ids p
       ++ map replay_id (filter (fun im => replayed (snd im)) l))%list.
Proof.
  induction l as [| im rest IH]; intros p; cbn [fold_left filter map].
  - symmetry. apply app_nil_r.
  - rewrite IH, all_ids_pack.
    destruct (replayed (snd im)); cbn [map]; rewrite <- app_assoc; reflexivity.
Qed.

(** X15.  The replay of a transcript loses no turn and repeats none: the
    identifiers of the chunks it makes, read chunk after chunk, are the
    identifiers of the turns the replay keeps, each once, in the order of
    the transcript.  The identifier of a turn is made of the character, the
    turn's [send_date] and the turn's position in the transcript. *)
Theorem createChunksFromChat_partition (now : nat -> Z)
    (messages : list ChatMessage) :
  List.concat (map Chunk.messageIds
              (createChunksFromChat Number_of_string Date_parse Date_toString
                                    settings now messages characterName))
  = map replay_id
        (filter (fun im => replayed (snd im))
                (combine (seq 0 (List.length messages)) messages)).
Proof.
  unfold createChunksFromChat. cbv zeta. fold pack.
  set (p := fold_left _ _ _).
  assert (Hp : all_ids p
               = map replay_id
                     (filter (fun im => replayed (snd im))
                             (combine (seq 0 (List.length messages)) messages))).
  { unfold p. rewrite all_ids_fold. reflexivity. }
  rewrite <- Hp.
  destruct (currentChunk p) as [| t r] eqn:Hcurrent; cbn [List.length Nat.ltb Nat.leb].
  - unfold all_ids. rewrite Hcurrent. symmetry. apply app_nil_r.
  - rewrite <- (all_ids_close (now (List.length messages)) p).
    unfold all_ids, close, close_chunk. cbn [chunks currentChunk map].
    symmetry. apply app_nil_r.
Qed.


(** The identifier the replay gives a turn it keeps, made of the turn's
    position in the transcript, is among the identifiers of the chunks the
    replay makes. *)
Lemma replayed_id_made (now : nat -> Z) (messages : list ChatMessage)
    (position : nat) (msg : ChatMessage) :
  nth_error messages position = Some msg ->
  replayed msg = true ->
  In (replay_id (position, msg))
     (List.concat
        (map Chunk.messageIds
             (createChunksFromChat Number_of_string Date_parse Date_toString
                                   settings now messages characterName))).
Proof.
  intros Hnth Hkept.
  unfold createChunksFromChat. cbv zeta. fold pack.
  set (p := fold_left _ _ _).
  assert (Hp : In (replay_id (position, msg)) (all_ids p)).
  { unfold p. rewrite all_ids_fold. apply in_or_app. right.
    apply in_map, filter_In. split; [| exact Hkept].
    apply (position_listed messages msg 0 position Hnth). }
  destruct (currentChunk p) as [| t r] eqn:Hcurrent;
    cbn [List.length Nat.ltb Nat.leb].
  - unfold all_ids in Hp. rewrite Hcurrent in Hp.
    cbn [map List.concat] in Hp. rewrite app_nil_r in Hp. exact Hp.
  - rewrite <- (all_ids_close (now (List.length messages)) p) in Hp.
    unfold all_ids, close, close_chunk in Hp.
    cbn [chunks currentChunk map List.concat] in Hp.
    rewrite app_nil_r in Hp. exact Hp.
Qed.

(** A turn as the replay keeps it. *)
Definition kept_turn (turn : Turn.t) : Prop :=
  Turn.characterName turn = characterName
  /\ minMessageLength settings <= Str.length (Turn.text turn).

(** The turns of one chunk: there is one turn at least, and more than one
    only within [chunkMaxSize]. *)
Definition packed (turns : list Turn.t) : Prop :=
  turns <> []
  /\ (List.length turns = 1%nat \/ bufferSize turns <= chunkMaxSize settings)
  /\ Forall kept_turn turns.

Definition made (c : Chunk.t) : Prop :=
  exists now turns, c = chunk_of now turns /\ packed turns.

Definition tidy (p : Packing) : Prop :=
  (forall c, In c (chunks p) -> made c)
  /\ Forall kept_turn (currentChunk p)
  /\ currentSize p = bufferSize (currentChunk p)
  /\ ((List.length (currentChunk p) <= 1)%nat
      \/ currentSize p <= chunkMaxSize settings).

Lemma bufferSize_push (turns : list Turn.t) (turn : Turn.t) :
  bufferSize (turns ++ [turn]) = bufferSize turns + turn_size turn.
Proof. unfold bufferSize. rewrite fold_left_app. reflexivity. Qed.

Lemma tidy_close (now : Z) (p : Packing) :
  tidy p -> currentChunk p <> [] -> tidy (close now p).
Proof.
  intros (Hchunks & Hturns & Hsize & Hbound) Hne.
  unfold tidy, close, close_chunk. cbn [chunks currentChunk currentSize].
  split; [| split; [constructor | split; [reflexivity | left; cbn; lia]]].
  intros c Hc. apply in_app_or in Hc as [Hc | [<- | []]]; [apply Hchunks, Hc |].
  exists now, (currentChunk p). split; [reflexivity |].
  split; [exact Hne |]. split; [| exact Hturns].
  destruct Hbound as [Hone | Hmax]; [left | right; rewrite <- Hsize; exact Hmax].
  destruct (currentChunk p) as [| t [| t' r]]; [contradiction | reflexivity |].
  cbn [List.length] in Hone. lia.
Qed.

Lemma tidy_push (p : Packing) (turn : Turn.t) :
  tidy p -> kept_turn turn ->
  currentChunk p = [] \/ currentSize p + turn_size turn <= chunkMaxSize settings ->
  tidy (push p turn).
Proof.
  intros (Hchunks & Hturns & Hsize & _) Hturn Hroom.
  unfold tidy, push. cbn [chunks currentChunk currentSize].
  split; [exact Hchunks |]. split.
  { apply Forall_app. split; [exact Hturns | constructor; [exact Hturn | constructor]]. }
  split; [rewrite bufferSize_push, Hsize; reflexivity |].
  destruct Hroom as [Hempty | Hroom]; [left; rewrite Hempty; cbn; lia |].
  right. exact Hroom.
Qed.

Lemma replayed_kept (now : nat -> Z) (im : nat * ChatMessage) :
  replayed (snd im) = true -> kept_turn (replay_turn now im).
Proof.
  unfold replayed, kept_turn, replay_turn. cbn [Turn.characterName Turn.text].
  intros H. apply andb_true_iff in H as [H _].
  apply andb_true_iff in H as [_ H]. apply Z.leb_le in H.
  split; [reflexivity | exact H].
Qed.

Lemma tidy_pack (now : nat -> Z) (p : Packing) (im : nat * ChatMessage) :
  tidy p -> tidy (pack now p im).
Proof.
  intros Hp. rewrite pack_cases.
  destruct (replayed (snd im)) eqn:Hkept; [| exact Hp]. cbv zeta.
  set (turn := replay_turn now im).
  match goal with
  | |- tidy (if _ then close _ (push ?q _) else push ?q _) => set (p1 := q)
  end.
  assert (H1 : tidy p1
               /\ (currentChunk p1 = []
                   \/ currentSize p1 + turn_size turn <= chunkMaxSize settings)).
  { unfold p1.
    destruct (chunkMaxSize settings <? currentSize p + turn_size turn) eqn:Hover;
      cbn [andb].
    - destruct (currentChunk p) as [| t r] eqn:Hcurrent;
        cbn [List.length Nat.ltb Nat.leb].
      + split; [exact Hp | left; exact Hcurrent].
      + split; [| left; reflexivity].
        apply tidy_close; [exact Hp | rewrite Hcurrent; discriminate].
    - apply Z.ltb_ge in Hover. split; [exact Hp | right; exact Hover]. }
  destruct H1 as [H1 Hroom]. clearbody p1.
  assert (H2 : tidy (push p1 turn)).
  { apply tidy_push; [exact H1 | apply replayed_kept, Hkept | exact Hroom]. }
  match goal with
  | |- tidy (if ?b then _ else _) => destruct b; [| exact H2]
  end.
  apply tidy_close; [exact H2 |]. unfold push. cbn [currentChunk].
  intros Hnil. apply app_eq_nil in Hnil as [_ Hnil]. discriminate.
Qed.

Lemma tidy_fold (now : nat -> Z) (l : list (nat * ChatMessage)) :
  forall p, tidy p -> tidy (fold_left (pack now) l p).
Proof.
  induction l as [| im rest IH]; intros p Hp; [exact Hp |].
  cbn [fold_left]. apply IH, tidy_pack, Hp.
Qed.

(** X16.  Every chunk the replay makes is built by [createChunkFromMessages]
    from one turn at least; the turns are the character's, with texts not
    shorter than [minMessageLength]; and a chunk of more than one turn stays
    within [chunkMaxSize], by the size the packing counts (text, character
    name and four more characters a turn).  Only a single turn that is too
    large by itself makes a chunk above [chunkMaxSize]. *)
Theorem createChunksFromChat_bounded (now : nat -> Z)
    (messages : list ChatMessage) (c : Chunk.t) :
  In c (createChunksFromChat Number_of_string Date_parse Date_toString settings
                             now messages characterName) ->
  exists now' turns,
    c = createChunkFromMessages Number_of_string Date_parse now' turns
    /\ turns <> []
    /\ (List.length turns = 1%nat \/ bufferSize turns <= chunkMaxSize settings)
    /\ Forall (fun turn =>
                 Turn.characterName turn = characterName
                 /\ minMessageLength settings <= Str.length (Turn.text turn))
              turns.
Proof.
  unfold createChunksFromChat. cbv zeta. fold pack.
  set (p := fold_left _ _ _).
  assert (Hp : tidy p).
  { unfold p. apply tidy_fold. split; [intros c' [] |].
    split; [constructor |]. split; [reflexivity | left; cbn; lia]. }
  intros Hc.
  assert (Hmade : made c).
  { destruct (currentChunk p) as [| t r] eqn:Hcurrent;
      cbn [List.length Nat.ltb Nat.leb] in Hc.
    - apply Hp, Hc.
    - assert (Hclosed : tidy (close (now (List.length messages)) p)).
      { apply tidy_close; [exact Hp | rewrite Hcurrent; discriminate]. }
      apply Hclosed, Hc. }
  destruct Hmade as (now' & turns & -> & Hne & Hbound & Hturns).
  exists now', turns. repeat split; assumption.
Qed.

End Replay.

Lemma createChunksFromChat_bounded_witness :
  exists c now' turns,
    In c (createChunksFromChat digits_Number iso_Date_parse plain_Date_toString
                               keyed_settings (fun _ => 0) morning "Bob")
    /\ c = createChunkFromMessages digits_Number iso_Date_parse now' turns
    /\ turns <> [].
Proof.
  destruct (createChunksFromChat digits_Number iso_Date_parse
              plain_Date_toString keyed_settings (fun _ => 0) morning "Bob")
    as [| c rest] eqn:Hchunks.
  - vm_compute in Hchunks. discriminate.
  - destruct (createChunksFromChat_bounded digits_Number iso_Date_parse
                plain_Date_toString keyed_settings "Bob" (fun _ => 0) morning c)
      as (now' & turns & Hc & Hne & _).
    + rewrite Hchunks. left. reflexivity.
    + exists c, now', turns. split; [left; reflexivity |].
      split; [exact Hc | exact Hne].
Defined.

(** ** Bulk reindexer: counters *)

Section ReindexCounters.

Context {W : Type}.
Variable Number_of_string : string -> number.
Variable Date_parse : string -> number.
Variable Date_toString : number -> string.
Variable host : Host W.
Variable rev : revision.
Variable settings : Settings.
Variable cfg : ExtensionSettings.

(** The counters add up: nothing is counted twice. *)
Definition sound (p : Progress) : Prop :=
  0 <= savedChunks p /\ 0 <= skippedChunks p
  /\ savedChunks p + skippedChunks p <= totalChunks p.

Lemma check_cancelled_counters (p : Progress) (w : W) :
  exists p' w',
    check_cancelled host p w = (Normal p', w')
    /\ totalChunks p' = totalChunks p
    /\ savedChunks p' = savedChunks p
    /\ skippedChunks p' = skippedChunks p.
Proof.
  unfold check_cancelled. rewrite bind_run. unfold perform.
  destruct (cancel_clicked host w) as [clicked w'].
  eexists. exists w'. split; [reflexivity |]. repeat split.
Qed.

Lemma index_chunks_counters (collectionName characterName : string)
    (chunks : list Chunk.t) :
  forall p w,
    exists p' w',
      index_chunks host rev settings cfg collectionName characterName chunks p w
      = (Normal p', w')
      /\ totalChunks p' = totalChunks p
      /\ savedChunks p <= savedChunks p'
      /\ skippedChunks p <= skippedChunks p'
      /\ savedChunks p' + skippedChunks p'
         <= savedChunks p + skippedChunks p + Z.of_nat (List.length chunks).
Proof.
  induction chunks as [| chunk rest IH]; intros p w; cbn [index_chunks].
  - exists p, w. split; [reflexivity |]. cbn [List.length]. lia.
  - rewrite bind_run.
    destruct (check_cancelled_counters p w) as (p0 & w0 & -> & Ht & Hs & Hk).
    destruct (cancelled p0).
    { exists p0, w0. split; [reflexivity |]. cbn [List.length]. lia. }
    rewrite bind_run.
    destruct (chunkExists_settles host settings collectionName
                (Chunk.messageIds chunk) w0) as (found & w1 & ->).
    destruct found.
    + destruct (IH (count_skipped p0) w1) as (p' & w' & -> & Ht' & Hs' & Hk' & Hsum).
      exists p', w'. split; [reflexivity |].
      cbn [count_skipped totalChunks savedChunks skippedChunks] in *.
      cbn [List.length]. lia.
    + rewrite bind_run.
      destruct (saveChunkToQdrant_settles host rev settings cfg chunk
                  [characterName] w1) as (success & w2 & ->).
      destruct (IH (if success then count_saved p0 else p0) w2)
        as (p' & w' & -> & Ht' & Hs' & Hk' & Hsum).
      exists p', w'. split; [reflexivity |].
      destruct success;
        cbn [count_saved totalChunks savedChunks skippedChunks] in *;
        cbn [List.length]; lia.
Qed.

Lemma index_files_counters (collectionName characterName : string)
    (chatFiles : list string) :
  forall p w,
    sound p ->
    exists p' w',
      index_files Number_of_string Date_parse Date_toString host rev settings
                  cfg collectionName characterName chatFiles p w
      = (Normal p', w')
      /\ sound p'.
Proof.
  induction chatFiles as [| chatFile rest IH]; intros p w Hp; cbn [index_files].
  - exists p, w. split; [reflexivity | exact Hp].
  - rewrite bind_run.
    destruct (check_cancelled_counters p w) as (p0 & w0 & -> & Ht & Hs & Hk).
    assert (Hp0 : sound p0) by (unfold sound in *; lia).
    destruct (cancelled p0); [exists p0, w0; split; [reflexivity | exact Hp0] |].
    rewrite bind_run. unfold perform at 1.
    destruct (load_transcript host characterName chatFile w0) as [chatData w1].
    destruct chatData as [messages |]; [| apply IH, Hp0].
    rewrite bind_run. unfold perform at 1.
    destruct (date_now host w1) as [now w2].
    rewrite bind_run.
    set (chunks := createChunksFromChat _ _ _ _ _ _ _).
    destruct (index_chunks_counters collectionName characterName chunks
                (count_total (Z.of_nat (List.length chunks)) p0) w2)
      as (p1 & w3 & -> & Ht1 & Hs1 & Hk1 & Hsum).
    apply IH. unfold sound in *.
    cbn [count_total totalChunks savedChunks skippedChunks] in *. lia.
Qed.

(** X17.  [indexCharacterChats] never fails.  Without an active character,
    or when the API-key guard fires, it stops before any request.  When it
    runs to its end the counters add up, whatever the store and the
    embedding provider answer and whether or not it was cancelled: the
    chunks saved and the chunks skipped are counted apart, and together
    they are not more than the chunks counted in total. *)
Theorem indexCharacterChats_counters (context : Context) (w : W) :
  (exists outcome w',
      indexCharacterChats Number_of_string Date_parse Date_toString host rev
                          settings cfg context w = (Normal outcome, w'))
  /\ (name2 context = "" ->
      indexCharacterChats Number_of_string Date_parse Date_toString host rev
                          settings cfg context w = (Normal NoCharacter, w))
  /\ (name2 context <> "" -> api_key_missing rev settings = true ->
      indexCharacterChats Number_of_string Date_parse Date_toString host rev
                          settings cfg context w = (Normal NoApiKey, w))
  /\ (forall p w',
         indexCharacterChats Number_of_string Date_parse Date_toString host rev
                             settings cfg context w = (Normal (Finished p), w') ->
         0 <= savedChunks p /\ 0 <= skippedChunks p
         /\ savedChunks p + skippedChunks p <= totalChunks p).
Proof.
  unfold indexCharacterChats.
  destruct (String.eqb_spec (name2 context) "") as [Hname | Hname].
  { split; [exists NoCharacter, w; reflexivity |].
    split; [reflexivity |]. split; [contradiction | discriminate]. }
  destruct (api_key_missing rev settings).
  { split; [exists NoApiKey, w; reflexivity |].
    split; [contradiction |]. split; [reflexivity | discriminate]. }
  unfold try_catch. rewrite bind_run. unfold perform.
  destruct (list_transcripts host (name2 context) w) as [chatFiles w0].
  destruct chatFiles as [| chatFile rest].
  { split; [exists NoChatFiles, w0; reflexivity |].
    split; [contradiction |].
    split; [intros _ H; discriminate H |].
    intros p w' H. discriminate H. }
  rewrite bind_run.
  destruct (ensureCollection_settles host rev settings (name2 context) w0)
    as (ready & w1 & ->).
  rewrite bind_run.
  destruct (index_files_counters
              (getCollectionName settings (name2 context)) (name2 context)
              (chatFile :: rest)
              {| totalChunks := 0; savedChunks := 0; skippedChunks := 0;
                 cancelled := false |} w1) as (p' & w' & -> & Hsound).
  { unfold sound. cbn. lia. }
  split; [exists (Finished p'), w'; reflexivity |].
  split; [contradiction |]. split; [intros _ H; discriminate H |].
  intros p w2 H. injection H as <- _. exact Hsound.
Qed.

End ReindexCounters.

Lemma indexCharacterChats_counters_witness :
  exists p w',
    indexCharacterChats digits_Number iso_Date_parse plain_Date_toString
      (test_host good_embedding [] with_branch) Rev2 keyed_settings empty_cfg
      solo_context start_world = (Normal (Finished p), w')
    /\ savedChunks p + skippedChunks p <= totalChunks p.
Proof.
  exists (progress 2 1 1). eexists.
  split; [apply finished_run, branch_first_run |].
  destruct (indexCharacterChats_counters digits_Number iso_Date_parse
              plain_Date_toString (test_host good_embedding [] with_branch)
              Rev2 keyed_settings empty_cfg solo_context start_world)
    as (_ & _ & _ & H).
  apply (H (progress 2 1 1) _ (finished_run _ _ branch_first_run)).
Defined.

(** ** Injection *)

Section Injection.

Context {W : Type}.
Variable Number_of_string : string -> number.
Variable Date_parse : string -> number.
Variable score_percent : Q -> string.
Variable host : Host W.
Variable rev : revision.
Variable settings : Settings.
Variable cfg : ExtensionSettings.

Let intercept :=
  qdrantMemoryInterceptor Number_of_string Date_parse score_percent host rev
                          settings cfg.

(** The lines one memory takes in the injected text. *)
Definition memory_block (memory : Memory.t) : string :=
  bullet ++ " "
  ++ (if Memory.isChunk memory
      then "Conversation (" ++ Memory.speakers memory ++ ")"
      else if String.eqb (Memory.speaker memory) "user"
           then "You said" else "Character said")
  ++ ": " ++ dquote ++ Str.flatten_newlines (Memory.text memory) ++ dquote
  ++ " (score: " ++ score_percent (Memory.score memory) ++ "%)"
  ++ Str.nl ++ Str.nl.

Lemma fold_blocks (memories : list Memory.t) :
  forall formatted,
    fold_left (fun formatted memory => formatted ++ memory_block memory)
              memories formatted
    = formatted ++ Str.concat (map memory_block memories).
Proof.
  induction memories as [| memory rest IH]; intros formatted;
    cbn [fold_left map Str.concat].
  - symmetry. apply append_empty_r.
  - rewrite IH. apply append_assoc.
Qed.

Lemma flatten_newlines_chars (text : string) :
  Str.chars (Str.flatten_newlines text)
  = map (fun c => if (nat_of_ascii c =? 10)%nat then " "%char else c)
        (Str.chars text).
Proof. unfold Str.flatten_newlines. apply chars_of_chars. Qed.

(** X18.  The injected text is empty when there is no memory.  Otherwise it
    is the heading [[Past chat memories]] followed by one block for every
    memory, in the order of the ranking.  The text of a memory is quoted in
    full, whatever its length, with every line feed replaced by a space, so
    that it stands on one line. *)
Theorem formatMemories_layout :
  formatMemories score_percent [] = ""
  /\ (forall memory rest,
         formatMemories score_percent (memory :: rest)
         = Str.nl ++ "[Past chat memories]" ++ Str.nl ++ Str.nl
           ++ Str.concat (map memory_block (memory :: rest)))
  /\ (forall text,
         Str.length (Str.flatten_newlines text) = Str.length text
         /\ ~ In (ascii_of_nat 10) (Str.chars (Str.flatten_newlines text))).
Proof.
  split; [reflexivity |]. split.
  - intros memory rest. unfold formatMemories.
    change (fun formatted memory0 => _)
      with (fun formatted memory0 => formatted ++ memory_block memory0).
    rewrite fold_blocks, !append_assoc. reflexivity.
  - intros text. split.
    + unfold Str.length. rewrite <- !chars_length, flatten_newlines_chars.
      rewrite length_map. reflexivity.
    + rewrite flatten_newlines_chars. intros Hin.
      apply in_map_iff in Hin as (c & Hc & _).
      destruct (nat_of_ascii c =? 10)%nat eqn:Hnl; [discriminate |].
      apply Nat.eqb_neq in Hnl. apply Hnl. rewrite Hc. reflexivity.
Qed.

(** X19.  A pass of the interceptor never fails, and never adds, drops or
    reorders a turn of the conversation: what it returns differs from what
    it was given in synthetic memory turns only.  With the extension
    disabled or without an active character the pass returns the
    conversation as it was given, earlier memory turns included, and makes
    no request.  With both, and no user turn that has a text, it returns
    the conversation without its memory turns and makes no request. *)
Theorem interceptor_quiet_passes (context : Context) (chat : list ChatMessage)
    (w : W) :
  (exists chat' w',
      intercept context chat w = (Normal chat', w')
      /\ removeExistingMemoryEntries chat' = removeExistingMemoryEntries chat)
  /\ (enabled settings = false \/ name2 context = "" ->
      intercept context chat w = (Normal chat, w))
  /\ (enabled settings = true -> name2 context <> "" ->
      (forall msg,
          lastUserMessage (removeExistingMemoryEntries chat) = Some msg ->
          mes msg = "") ->
      intercept context chat w
      = (Normal (removeExistingMemoryEntries chat), w)).
Proof.
  unfold intercept, qdrantMemoryInterceptor.
  destruct (enabled settings); cbn [negb].
  2:{ split; [exists chat, w; split; reflexivity |].
      split; [reflexivity | discriminate]. }
  destruct (String.eqb_spec (name2 context) "") as [Hname | Hname].
  { split; [exists chat, w; split; reflexivity |].
    split; [reflexivity | contradiction]. }
  set (stripped := removeExistingMemoryEntries chat).
  assert (Hquiet : exists chat' w',
             (Normal stripped, w) = (Normal chat', w')
             /\ removeExistingMemoryEntries chat' = stripped).
  { exists stripped, w. split; [reflexivity |].
    apply removeExistingMemoryEntries_idempotent. }
  unfold try_catch.
  destruct (lastUserMessage stripped) as [lastUserMsg |].
  2:{ split; [exact Hquiet |]. split; [intros [H | H]; congruence | reflexivity]. }
  destruct (String.eqb_spec (mes lastUserMsg) "") as [Hmes | Hmes].
  { split; [exact Hquiet |]. split; [intros [H | H]; congruence | reflexivity]. }
  split; [| split; [intros [H | H]; congruence |]].
  2:{ intros _ _ H. specialize (H lastUserMsg eq_refl). contradiction. }
  rewrite bind_run.
  destruct (searchMemories_settles Number_of_string Date_parse host rev settings
              cfg (context_chat context) (mes lastUserMsg) (name2 context) w)
    as ([memories c] & w1 & ->).
  cbn [fst]. destruct memories as [| memory rest].
  { exists stripped, w1. split; [reflexivity |].
    apply removeExistingMemoryEntries_idempotent. }
  cbn [List.length Nat.ltb Nat.leb]. rewrite bind_run. unfold perform.
  destruct (date_now host w1) as [now w2].
  eexists. exists w2. split; [reflexivity |].
  rewrite splice_insert_unmarked by reflexivity.
  apply removeExistingMemoryEntries_idempotent.
Qed.

End Injection.

Lemma interceptor_quiet_passes_witness :
  qdrantMemoryInterceptor digits_Number iso_Date_parse rounded_percent
    (test_host good_embedding [one_memory] []) Rev2
    (with_enabled false keyed_settings) empty_cfg live_context live_chat
    start_world
  = (Normal live_chat, start_world).
Proof.
  destruct (interceptor_quiet_passes digits_Number iso_Date_parse
              rounded_percent (test_host good_embedding [one_memory] []) Rev2
              (with_enabled false keyed_settings) empty_cfg live_context
              live_chat start_world) as (_ & H & _).
  apply H. left. reflexivity.
Defined.

(** ** Message hook *)

Lemma append_cancel_l (a b c : string) : a ++ b = a ++ c -> b = c.
Proof.
  induction a as [| x a IH]; cbn [String.append]; intros H; [exact H |].
  injection H as H. apply IH, H.
Qed.

Lemma of_Z_inj (a b : Z) : Str.of_Z a = Str.of_Z b -> a = b.
Proof.
  unfold Str.of_Z. intros H.
  assert (Hnil : forall z, Z.to_int z <> Decimal.Pos Decimal.Nil
                           /\ Z.to_int z <> Decimal.Neg Decimal.Nil).
  { intros z. split; intros Hz; pose proof (DecimalZ.of_to z) as Hof;
      rewrite Hz in Hof; cbn in Hof; subst z; discriminate Hz. }
  apply DecimalZ.to_int_inj.
  pose proof (NilZero.isi (Z.to_int a) (proj1 (Hnil a)) (proj2 (Hnil a))) as Ha.
  pose proof (NilZero.isi (Z.to_int b) (proj1 (Hnil b)) (proj2 (Hnil b))) as Hb.
  rewrite H, Hb in Ha. injection Ha as Ha. symmetry. exact Ha.
Qed.

Lemma length_zero (s : string) : Str.length s = 0 <-> s = "".
Proof.
  unfold Str.length. destruct s; cbn [String.length]; split; intros H;
    try reflexivity; try discriminate; lia.
Qed.

Lemma bufferMessage_accepts (rev : revision) (settings : Settings) (now : Z)
    (context : Context) (text characterName : string) (isUser : bool)
    (messageId : string) (m : Machine) :
  rejects rev settings text isUser = false ->
  accepted (bufferMessage rev settings now context text characterName isUser
                          messageId m)
  = (accepted m
     ++ [ {| Turn.text := text; Turn.characterName := characterName;
             Turn.isUser := isUser; Turn.messageId := messageId;
             Turn.timestamp := SUndefined |} ])%list.
Proof.
  intros Hguard. unfold bufferMessage. rewrite Hguard. cbv zeta.
  destruct (chunkMaxSize settings <=? _).
  - rewrite (proj2 (proj2 (start_flush_timers context now _))). reflexivity.
  - destruct (chunkMinSize settings <=? _); reflexivity.
Qed.

Lemma bufferMessage_rejects (rev : revision) (settings : Settings) (now : Z)
    (context : Context) (text characterName : string) (isUser : bool)
    (messageId : string) (m : Machine) :
  rejects rev settings text isUser = true ->
  bufferMessage rev settings now context text characterName isUser messageId m
  = m.
Proof. intros Hguard. unfold bufferMessage. rewrite Hguard. reflexivity. Qed.

Section HookFacts.

Variable Date_toString : number -> string.
Variable rev : revision.
Variable settings : Settings.
Variable now : Z.
Variable context : Context.

Let hook := onMessageSent Date_toString rev settings now context.

(** The identifier [onMessageSent] gives the last turn of a conversation
    that has [before] turns before it. *)
Definition live_id (before : nat) (last : ChatMessage) : string :=
  name2 context ++ "_" ++ date_to_string Date_toString (send_date last) ++ "_"
  ++ Str.of_Z (Z.of_nat before + 1).

Definition live_turn (before : nat) (last : ChatMessage) : Turn.t :=
  {| Turn.text := mes last; Turn.characterName := name2 context;
     Turn.isUser := is_user last; Turn.messageId := live_id before last;
     Turn.timestamp := SUndefined |}.

Lemma onMessageSent_last (front : list ChatMessage) (last : ChatMessage)
    (m : Machine) :
  context_chat context = (front ++ [last])%list ->
  hook m
  = if autoSaveMemories settings && negb (String.eqb (name2 context) "")
       && negb (String.eqb (Str.trim (mes last)) "")
    then bufferMessage rev settings now context (mes last) (name2 context)
                       (is_user last) (live_id (List.length front) last) m
    else m.
Proof.
  intros Hchat. unfold hook, onMessageSent.
  destruct (autoSaveMemories settings); cbn [negb andb]; [| reflexivity].
  cbv zeta. rewrite Hchat.
  destruct (String.eqb (name2 context) ""); cbn [negb andb orb]; [reflexivity |].
  rewrite length_app. cbn [List.length].
  replace (List.length front + 1 - 1)%nat with (List.length front) by lia.
  replace (List.length front + 1 =? 0)%nat with false
    by (symmetry; apply Nat.eqb_neq; lia).
  rewrite nth_error_app2, Nat.sub_diag by lia. cbn [nth_error].
  replace (Z.of_nat (List.length front + 1)) with (Z.of_nat (List.length front) + 1)
    by lia.
  fold (live_id (List.length front) last).
  destruct (String.eqb_spec (Str.trim (mes last)) "") as [Hblank | Htext];
    cbn [negb].
  - rewrite Hblank. cbn [Str.length String.length Z.of_nat Z.ltb Z.compare].
    rewrite andb_false_r. reflexivity.
  - assert (Hmes : String.eqb (mes last) "" = false).
    { apply String.eqb_neq. intros Hempty. apply Htext. rewrite Hempty.
      reflexivity. }
    rewrite Hmes. cbn [negb andb].
    replace (0 <? Str.length (Str.trim (mes last))) with true; [reflexivity |].
    symmetry. apply Z.ltb_lt.
    assert (Str.length (Str.trim (mes last)) <> 0)
      by (rewrite length_zero; exact Htext).
    unfold Str.length in *. lia.
Qed.

(** X20.  [onMessageSent] hands [bufferMessage] the last turn of the
    conversation: its text as it stands, not trimmed, under the name of the
    active character, with an identifier made of that name, the turn's
    [send_date] and the length of the conversation.  The turn is accepted
    when there is an active character, the text is not blank, and no guard
    of [bufferMessage] rejects it; otherwise, and when the conversation is
    empty, nothing changes. *)
Theorem onMessageSent_hands_last_turn (m : Machine) :
  (context_chat context = [] -> hook m = m)
  /\ (forall front last,
         context_chat context = (front ++ [last])%list ->
         (name2 context <> "" -> Str.trim (mes last) <> "" ->
          rejects rev settings (mes last) (is_user last) = false ->
          hook m
          = bufferMessage rev settings now context (mes last) (name2 context)
                          (is_user last)
                          (name2 context ++ "_"
                           ++ date_to_string Date_toString (send_date last)
                           ++ "_"
                           ++ Str.of_Z (Z.of_nat (List.length front) + 1)) m
          /\ accepted (hook m)
             = (accepted m
                ++ [ {| Turn.text := mes last;
                        Turn.characterName := name2 context;
                        Turn.isUser := is_user last;
                        Turn.messageId :=
                          name2 context ++ "_"
                          ++ date_to_string Date_toString (send_date last)
                          ++ "_"
                          ++ Str.of_Z (Z.of_nat (List.length front) + 1);
                        Turn.timestamp := SUndefined |} ])%list)
         /\ (name2 context = "" \/ Str.trim (mes last) = ""
             \/ rejects rev settings (mes last) (is_user last) = true ->
             hook m = m)).
Proof.
  split.
  - intros Hchat. unfold hook, onMessageSent. cbv zeta. rewrite Hchat.
    destruct (autoSaveMemories settings); cbn [negb]; [| reflexivity].
    rewrite orb_true_r. reflexivity.
  - intros front last Hchat. rewrite (onMessageSent_last front last m Hchat).
    split.
    + intros Hname Htext Hguard.
      assert (Hauto : autoSaveMemories settings = true).
      { unfold rejects in Hguard. destruct (autoSaveMemories settings);
          [reflexivity | discriminate]. }
      apply String.eqb_neq in Hname, Htext. rewrite Hauto, Hname, Htext.
      cbn [negb andb]. split; [reflexivity |].
      apply bufferMessage_accepts, Hguard.
    + intros Hquiet.
      destruct (autoSaveMemories settings && negb (String.eqb (name2 context) "")
                && negb (String.eqb (Str.trim (mes last)) "")) eqn:Hcond;
        [| reflexivity].
      apply andb_true_iff in Hcond as [Hcond Htext].
      apply andb_true_iff in Hcond as [_ Hname].
      apply negb_true_iff in Hname, Htext. apply String.eqb_neq in Hname, Htext.
      destruct Hquiet as [H | [H | H]]; [contradiction | contradiction |].
      apply bufferMessage_rejects, H.
Qed.

Variable Number_of_string : string -> number.
Variable Date_parse : string -> number.

(** X21.  A turn that is buffered live as the last of a conversation gets
    an identifier that ends in the length of the conversation.  When the
    replay of a transcript keeps the same turn, the identifier it gives
    ends in the turn's position in the transcript and is among the
    identifiers of the chunks the replay makes.  The two identifiers are
    equal exactly when that position is the length of the conversation,
    that is when the transcript holds one more entry before the turn than
    the conversation did; a turn that sits at the same position in both
    gets two different identifiers. *)
Theorem live_and_replay_ids (m : Machine) (front : list ChatMessage)
    (last : ChatMessage) (turn : Turn.t) (clock : nat -> Z)
    (transcript : list ChatMessage) (position : nat) :
  context_chat context = (front ++ [last])%list ->
  accepted (hook m) = (accepted m ++ [turn])%list ->
  nth_error transcript position = Some last ->
  replayed settings last = true ->
  let replayed_id := replay_id Date_toString (name2 context) (position, last) in
  Turn.messageId turn
  = name2 context ++ "_" ++ date_to_string Date_toString (send_date last) ++ "_"
    ++ Str.of_Z (Z.of_nat (List.length (front ++ [last])))
  /\ replayed_id
     = name2 context ++ "_" ++ date_to_string Date_toString (send_date last)
       ++ "_" ++ Str.of_Z (Z.of_nat position)
  /\ In replayed_id
        (List.concat
           (map Chunk.messageIds
                (createChunksFromChat Number_of_string Date_parse Date_toString
                                      settings clock transcript
                                      (name2 context))))
  /\ (Turn.messageId turn = replayed_id
      <-> position = List.length (front ++ [last]))
  /\ (position = List.length front -> Turn.messageId turn <> replayed_id).
Proof.
  intros Hchat Haccepted Hnth Hkept replayed_id.
  rewrite (onMessageSent_last front last m Hchat) in Haccepted.
  assert (Hturn : turn = live_turn (List.length front) last).
  { assert (Hsame : accepted m <> (accepted m ++ [turn])%list).
    { intros H. apply (f_equal (@List.length _)) in H.
      rewrite length_app in H. cbn [List.length] in H. lia. }
    destruct (_ && _) in Haccepted; [| contradiction].
    destruct (rejects rev settings (mes last) (is_user last)) eqn:Hguard.
    - rewrite bufferMessage_rejects in Haccepted by exact Hguard. contradiction.
    - rewrite bufferMessage_accepts in Haccepted by exact Hguard.
      apply app_inv_head in Haccepted. injection Haccepted as <-. reflexivity. }
  subst turn. cbn [live_turn Turn.messageId].
  assert (Hlength : Z.of_nat (List.length (front ++ [last]))
                    = Z.of_nat (List.length front) + 1).
  { rewrite length_app. cbn [List.length]. lia. }
  assert (Hequal : live_id (List.length front) last = replayed_id
                   <-> position = List.length (front ++ [last])).
  { unfold live_id, replayed_id, replay_id. cbn [fst snd]. split.
    - intros H. do 4 apply append_cancel_l in H. apply of_Z_inj in H. lia.
    - intros ->. rewrite Hlength. reflexivity. }
  split; [unfold live_id; rewrite Hlength; reflexivity |].
  split; [reflexivity |].
  split; [apply replayed_id_made; assumption |].
  split; [exact Hequal |].
  intros Hsame Heq. apply Hequal in Heq. rewrite length_app in Heq.
  cbn [List.length] in Heq. lia.
Qed.

End HookFacts.

Definition rendered_context : Context :=
  {| chat := [turn_at true "hello there" 1000; turn_at false "  hello to you  " 2000];
     name2 := "Bob"; characters := 1 |}.

Lemma onMessageSent_hands_last_turn_witness :
  map (fun turn => (Turn.text turn, Turn.messageId turn))
      (accepted (onMessageSent plain_Date_toString Rev2 keyed_settings 3000
                               rendered_context initial))
  = [("  hello to you  ", "Bob_2000_2")].
Proof.
  destruct (onMessageSent_hands_last_turn plain_Date_toString Rev2
              keyed_settings 3000 rendered_context initial) as [_ H].
  destruct (H [turn_at true "hello there" 1000]
              (turn_at false "  hello to you  " 2000) eq_refl) as [Haccepted _].
  destruct Haccepted as [_ Haccepted];
    [discriminate | vm_compute; discriminate | reflexivity |].
  rewrite Haccepted. reflexivity.
Defined.

(** The first entry of a stored transcript: the header of the file, which
    is no turn and has no text. *)
Definition transcript_header : ChatMessage :=
  {| name := ""; is_user := false; is_system := false; mes := "";
     send_date := SUndefined; qdrantMemory := false |}.

Definition stored_transcript : list ChatMessage :=
  transcript_header :: chat rendered_context.

Lemma live_and_replay_ids_witness :
  exists turn,
    accepted (onMessageSent plain_Date_toString Rev2 keyed_settings 3000
                            rendered_context initial) = [turn]
    /\ Turn.messageId turn = "Bob_2000_2"
    /\ replay_id plain_Date_toString "Bob"
                 (2%nat, turn_at false "  hello to you  " 2000)
       = Turn.messageId turn
    /\ In "Bob_2000_2"
          (List.concat
             (map Chunk.messageIds
                  (createChunksFromChat digits_Number iso_Date_parse
                                        plain_Date_toString keyed_settings
                                        (fun _ => 3000) stored_transcript
                                        "Bob"))).
Proof.
  destruct (accepted (onMessageSent plain_Date_toString Rev2 keyed_settings 3000
                                    rendered_context initial))
    as [| turn rest] eqn:Haccepted; [vm_compute in Haccepted; discriminate |].
  assert (Hrest : rest = []).
  { vm_compute in Haccepted. injection Haccepted as _ <-. reflexivity. }
  subst rest. exists turn. split; [reflexivity |].
  destruct (live_and_replay_ids plain_Date_toString Rev2 keyed_settings
              3000 rendered_context digits_Number iso_Date_parse initial
              [turn_at true "hello there" 1000]
              (turn_at false "  hello to you  " 2000) turn (fun _ => 3000)
              stored_transcript 2%nat eq_refl Haccepted eq_refl eq_refl)
    as (Hlive & Hreplay & Hmade & Hequal & _).
  split; [exact Hlive |].
  split; [symmetry; apply Hequal; reflexivity |].
  exact Hmade.
Defined.

(** ** Transcripts of the host application *)

(** An entry of a transcript list that names its file. *)
Definition file_entry (name : string) : json := JObj [("file_name", JStr name)].

Lemma entry_names_files (names : list string) :
  Forall (fun n => n <> "") names ->
  entry_names (map file_entry names)
  = Normal (map (fun n => Some (JStr n)) names).
Proof.
  intros Hnames. unfold entry_names.
  assert (H : map_completion entry_name (map file_entry names)
              = Normal (map (fun n => Some (JStr n)) names)).
  { induction Hnames as [| n rest Hn _ IH]; [reflexivity |].
    cbn [map map_completion]. rewrite IH.
    unfold entry_name, file_entry. cbn [prop assoc String.eqb Ascii.eqb Bool.eqb].
    cbn [truthy]. apply String.eqb_neq in Hn. rewrite Hn. reflexivity. }
  rewrite H. f_equal. clear H Hnames.
  induction names as [| n rest IH]; [reflexivity |].
  cbn [map somes]. rewrite IH. reflexivity.
Qed.

Lemma member_files (names : list string) :
  map_completion (member "file_name") (map file_entry names)
  = Normal (map (fun n => Some (JStr n)) names).
Proof.
  induction names as [| n rest IH]; [reflexivity |].
  cbn [map map_completion]. rewrite IH. reflexivity.
Qed.

Lemma chat_files_entries (names : list string) :
  Forall (fun n => n <> "") names ->
  chat_files (JArr (map file_entry names))
  = Normal (map (fun n => Some (JStr n)) names).
Proof.
  intros Hnames. destruct names as [| n rest]; [reflexivity |].
  inversion Hnames as [| ? ? Hn _]; subst.
  rewrite <- (member_files (n :: rest)). unfold chat_files.
  cbn [map].
  replace (truthy (file_entry n)
           && truthy_value (prop "file_name" (file_entry n))) with true;
    [reflexivity |].
  unfold file_entry.
  change (prop "file_name" (JObj [("file_name", JStr n)])) with (Some (JStr n)).
  cbn [truthy truthy_value andb]. apply String.eqb_neq in Hn. rewrite Hn.
  reflexivity.
Qed.

Lemma entry_names_null (items : list json) :
  In JNull items -> entry_names items = Throw.
Proof.
  intros Hin. unfold entry_names.
  assert (H : map_completion entry_name items = Throw).
  { induction items as [| item rest IH]; [destruct Hin |].
    cbn [map_completion]. destruct Hin as [-> | Hin]; [reflexivity |].
    rewrite (IH Hin). destruct (entry_name item); reflexivity. }
  rewrite H. reflexivity.
Qed.

Section TranscriptFacts.

Context {W : Type}.
Variable backend : Backend W.
Variable characters : list Character.
Variable characterName : string.

Let chats := getCharacterChats backend characters characterName.
Let asked := fetch_chats backend (avatar_url characters characterName).

Lemma getCharacterChats_run (w : W) :
  chats w
  = match asked w with
    | (Response true (Some data), w1) =>
        (Normal (match chat_files data with
                 | Normal files => files
                 | Throw => []
                 end), w1)
    | (_, w1) => (Normal [], w1)
    end.
Proof.
  unfold chats, getCharacterChats, try_catch. rewrite bind_run.
  unfold await_fetch. fold asked.
  destruct (asked w) as [[| ok body] w1]; [reflexivity |].
  cbn [fst snd]. destruct ok; cbn [negb]; [| reflexivity].
  rewrite bind_run. destruct body as [data |]; [| reflexivity].
  cbn [response_json ret]. destruct (chat_files data); reflexivity.
Qed.

(** X22.  [getCharacterChats] never fails, and an answer that is missing,
    refused or unreadable gives no transcript.  A list of file names is
    returned as it is.  Entries that carry their file name under
    [file_name], whether they come as a list or under [files] or [chats],
    give those names, in order.  One [null] entry in a list under [files]
    or [chats] makes the whole answer count as unreadable. *)
Theorem getCharacterChats_names (w : W) :
  (exists files w', chats w = (Normal files, w'))
  /\ (forall w1,
         asked w = (NetError, w1)
         \/ (exists body, asked w = (Response false body, w1))
         \/ asked w = (Response true None, w1) ->
         chats w = (Normal [], w1))
  /\ (forall data w1,
         asked w = (Response true (Some data), w1) ->
         (forall names,
             data = JArr (map JStr names) ->
             chats w = (Normal (map (fun n => Some (JStr n)) names), w1))
         /\ (forall names,
                Forall (fun n => n <> "") names ->
                data = JArr (map file_entry names)
                \/ data = JObj [("files", JArr (map file_entry names))]
                \/ data = JObj [("chats", JArr (map file_entry names))] ->
                chats w = (Normal (map (fun n => Some (JStr n)) names), w1))
         /\ (forall items,
                In JNull items ->
                data = JObj [("files", JArr items)]
                \/ data = JObj [("chats", JArr items)] ->
                chats w = (Normal [], w1))).
Proof.
  rewrite getCharacterChats_run. split; [| split].
  - destruct (asked w) as [[| [] [data |]] w1]; eexists; eexists; reflexivity.
  - intros w1 [-> | [[body ->] | ->]]; reflexivity.
  - intros data w1 ->. split; [| split].
    + intros names ->. destruct names as [| n rest]; [reflexivity |].
      cbn [map chat_files]. rewrite map_map. reflexivity.
    + intros names Hnames [-> | [-> | ->]].
      * rewrite (chat_files_entries names Hnames). reflexivity.
      * cbn [chat_files assoc String.eqb Ascii.eqb Bool.eqb].
        rewrite (entry_names_files names Hnames). reflexivity.
      * cbn [chat_files assoc String.eqb Ascii.eqb Bool.eqb].
        rewrite (entry_names_files names Hnames). reflexivity.
    + intros items Hnull [-> | ->];
        cbn [chat_files assoc String.eqb Ascii.eqb Bool.eqb];
        rewrite (entry_names_null items Hnull); reflexivity.
Qed.

End TranscriptFacts.

(** A host application that answers every request with the same outcome. *)
Definition test_backend (answer : fetch_outcome json) : Backend unit :=
  {| fetch_chats := fun _ w => (answer, w);
     fetch_chat := fun _ _ _ w => (answer, w) |}.

Definition listed_files : json :=
  JObj [("files", JArr [file_entry "chat.jsonl"; file_entry "chat - branch.jsonl"])].

Lemma getCharacterChats_names_witness :
  getCharacterChats (test_backend (Response true (Some listed_files))) [] "Bob" tt
  = (Normal [Some (JStr "chat.jsonl"); Some (JStr "chat - branch.jsonl")], tt)
  /\ getCharacterChats (test_backend NetError) [] "Bob" tt = (Normal [], tt).
Proof.
  split.
  - destruct (getCharacterChats_names
                (test_backend (Response true (Some listed_files))) [] "Bob" tt)
      as (_ & _ & H).
    destruct (H listed_files tt eq_refl) as (_ & Hfiles & _).
    apply (Hfiles ["chat.jsonl"; "chat - branch.jsonl"]).
    + repeat constructor; discriminate.
    + right. left. reflexivity.
  - destruct (getCharacterChats_names (test_backend NetError) [] "Bob" tt)
      as (_ & H & _).
    apply H. left. reflexivity.
Defined.

Lemma endsWith_append (s suffix : string) : endsWith (s ++ suffix) suffix = true.
Proof.
  unfold endsWith. rewrite chars_append, rev_app_distr. apply prefix_chars_app.
Qed.

Lemma strip_jsonl_append (base : string) : strip_jsonl (base ++ ".jsonl") = base.
Proof.
  unfold strip_jsonl. rewrite endsWith_append, chars_append, length_app.
  change (List.length (Str.chars ".jsonl")) with 6%nat.
  replace (List.length (Str.chars base) + 6 - 6)%nat
    with (List.length (Str.chars base) + 0)%nat by lia.
  rewrite firstn_app_2. cbn [firstn]. rewrite app_nil_r. apply of_chars_chars.
Qed.

Section ChatFileFacts.

Context {W : Type}.
Variable backend : Backend W.
Variable characters : list Character.
Variable characterName : string.

Let load := loadChatFile backend characters characterName.

(** What the answer to the request for a file gives. *)
Definition answered (name : string) (w : W)
  : completion (option (list json)) * W :=
  match fetch_chat backend characterName name
                   (avatar_url characters characterName) w with
  | (Response true (Some chatData), w1) => (Normal (chat_messages chatData), w1)
  | (_, w1) => (Normal None, w1)
  end.

Lemma loadChatFile_run (chatFile : js_value) (w : W) :
  load chatFile w
  = match chat_file_name chatFile with
    | Some name => answered (strip_jsonl name) w
    | None => (Normal None, w)
    end.
Proof.
  unfold load, loadChatFile, try_catch, answered.
  destruct (chat_file_name chatFile) as [name |]; [| reflexivity].
  rewrite bind_run. unfold await_fetch.
  destruct (fetch_chat backend characterName (strip_jsonl name) _ w)
    as [[| ok body] w1]; [reflexivity |].
  cbn [fst snd]. destruct ok; cbn [negb]; [| reflexivity].
  rewrite bind_run. destruct body as [chatData |]; reflexivity.
Qed.

(** X23.  [loadChatFile] never fails, and gives [null] for an answer that
    is missing, refused or unreadable.  It asks for the file under its name
    without the ending [.jsonl], which the host application adds again; a
    name without that ending is asked for as it is.  An entry that carries
    the name under [file_name] is loaded like the name itself, and an entry
    that is no string and has no [file_name] gives [null] without a
    request. *)
Theorem loadChatFile_requests (w : W) :
  (forall chatFile, exists messages w', load chatFile w = (Normal messages, w'))
  /\ (forall base,
         load (Some (JStr (base ++ ".jsonl"))) w = answered base w)
  /\ (forall name,
         endsWith name ".jsonl" = false ->
         load (Some (JStr name)) w = answered name w)
  /\ (forall name,
         name <> "" ->
         load (Some (file_entry name)) w = load (Some (JStr name)) w)
  /\ load None w = (Normal None, w)
  /\ load (Some JNull) w = (Normal None, w)
  /\ (forall members,
         assoc "file_name" members = None ->
         load (Some (JObj members)) w = (Normal None, w)).
Proof.
  split.
  { intros chatFile. rewrite loadChatFile_run.
    destruct (chat_file_name chatFile) as [name |];
      [| exists None, w; reflexivity].
    unfold answered.
    destruct (fetch_chat backend characterName (strip_jsonl name) _ w)
      as [[| [] [chatData |]] w1]; eexists; eexists; reflexivity. }
  split.
  { intros base. rewrite loadChatFile_run. cbn [chat_file_name].
    rewrite strip_jsonl_append. reflexivity. }
  split.
  { intros name Hname. rewrite loadChatFile_run. cbn [chat_file_name].
    unfold strip_jsonl. rewrite Hname. reflexivity. }
  split.
  { intros name Hname. rewrite !loadChatFile_run.
    replace (chat_file_name (Some (file_entry name))) with (Some name);
      [reflexivity |].
    unfold file_entry, chat_file_name. cbn [truthy].
    change (prop "file_name" (JObj [("file_name", JStr name)]))
      with (Some (JStr name)).
    cbv beta iota. apply String.eqb_neq in Hname. rewrite Hname. reflexivity. }
  split; [apply loadChatFile_run |]. split; [apply loadChatFile_run |].
  intros members Hmembers. rewrite loadChatFile_run.
  cbn [chat_file_name truthy prop]. rewrite Hmembers. reflexivity.
Qed.

End ChatFileFacts.

Definition stored_chat : json :=
  JObj [("chat", JArr [JObj [("mes", JStr "hello there")]])].

Lemma loadChatFile_requests_witness :
  loadChatFile (test_backend (Response true (Some stored_chat))) [] "Bob"
               (Some (file_entry "chat")) tt
  = (Normal (Some [JObj [("mes", JStr "hello there")]]), tt).
Proof.
  destruct (loadChatFile_requests
              (test_backend (Response true (Some stored_chat))) [] "Bob" tt)
    as (_ & _ & Hname & Hentry & _).
  rewrite (Hentry "chat") by discriminate.
  rewrite (Hname "chat") by reflexivity. reflexivity.
Defined.

(** ** Model menu *)

Lemma has_value_In (value : string) (unique : list (string * string)) :
  has_value value unique = true <-> In value (map fst unique).
Proof.
  unfold has_value. rewrite existsb_exists, in_map_iff. split.
  - intros (entry & Hin & Heq). apply String.eqb_eq in Heq.
    exists entry. split; [exact Heq | exact Hin].
  - intros (entry & Heq & Hin). exists entry. split; [exact Hin |].
    apply String.eqb_eq. exact Heq.
Qed.

Lemma unique_options_from (options : list ModelOption) :
  forall unique,
    NoDup (map fst unique) ->
    let filled :=
      fold_left
        (fun unique opt =>
           if String.eqb (option_value opt) "" then unique
           else if has_value (option_value opt) unique then unique
           else (unique
                 ++ [(option_value opt,
                      or_else (option_label opt) (option_value opt))])%list)
        options unique in
    NoDup (map fst filled)
    /\ (forall v, In v (map fst filled) <->
                  In v (map fst unique)
                  \/ (v <> "" /\ In v (map option_value options))).
Proof.
  induction options as [| opt rest IH]; intros unique Hnodup; cbn [fold_left map].
  - split; [exact Hnodup |]. intros v. split; [tauto |].
    intros [H | [_ []]]. exact H.
  - destruct (String.eqb_spec (option_value opt) "") as [Hempty | Hvalue].
    { destruct (IH unique Hnodup) as [Hn Hin]. split; [exact Hn |].
      intros v. rewrite Hin. split.
      - intros [H | [Hv H]]; [left; exact H | right; split; [exact Hv |]].
        right. exact H.
      - intros [H | [Hv [H | H]]]; [left; exact H | congruence |].
        right. split; assumption. }
    destruct (has_value (option_value opt) unique) eqn:Hhas.
    { destruct (IH unique Hnodup) as [Hn Hin]. split; [exact Hn |].
      intros v. rewrite Hin. apply has_value_In in Hhas. split.
      - intros [H | [Hv H]]; [left; exact H | right; split; [exact Hv |]].
        right. exact H.
      - intros [H | [Hv [H | H]]]; [left; exact H | left; subst v; exact Hhas |].
        right. split; assumption. }
    assert (Hfresh : ~ In (option_value opt) (map fst unique)).
    { intros H. apply has_value_In in H. congruence. }
    destruct (IH (unique ++ [(option_value opt,
                              or_else (option_label opt) (option_value opt))])%list)
      as [Hn Hin].
    { rewrite map_app. cbn [map fst]. apply NoDup_app; [exact Hnodup | |].
      - constructor; [intros [] | constructor].
      - intros v Hv [<- | []]. contradiction. }
    split; [exact Hn |]. intros v. rewrite Hin, map_app, in_app_iff.
    cbn [map fst In]. split.
    + intros [[H | [H | []]] | [Hv H]].
      * left. exact H.
      * right. subst v. split; [exact Hvalue | left; reflexivity].
      * right. split; [exact Hv | right; exact H].
    + intros [H | [Hv [H | H]]].
      * left. left. exact H.
      * left. right. left. exact H.
      * right. split; assumption.
Qed.

Lemma unique_options_values (options : list ModelOption) :
  NoDup (map fst (unique_options options))
  /\ (forall v, In v (map fst (unique_options options)) <->
                v <> "" /\ In v (map option_value options)).
Proof.
  destruct (unique_options_from options [] (NoDup_nil _)) as [Hn Hin].
  split; [exact Hn |]. intros v. unfold unique_options. rewrite Hin.
  cbn [map In]. tauto.
Qed.

(** X24.  The model menu never shows a value twice, and the value it
    selects is always one of the values it shows.  A saved model is never
    replaced: it is selected when the list has it, and added to the menu,
    marked [(saved)], and selected when the list does not have it.  Without
    a saved model the first option is selected; only a menu without any
    option selects nothing and leaves the configured model as it is. *)
Theorem setModelOptions_keeps_saved (options : list ModelOption)
    (selectedModel embeddingModel : string) :
  let menu := fst (setModelOptions options selectedModel embeddingModel) in
  let model := snd (setModelOptions options selectedModel embeddingModel) in
  NoDup (map fst (rendered menu))
  /\ (forall v, In v (map fst (rendered menu)) <->
                (v <> "" /\ In v (map option_value options))
                \/ (v = selectedModel /\ v <> ""))
  /\ (forall v, selected menu = Some v ->
                In v (map fst (rendered menu)) /\ model = v)
  /\ (selectedModel <> "" -> selected menu = Some selectedModel)
  /\ (selectedModel = "" ->
      selected menu = option_map fst (hd_error (rendered menu)))
  /\ (selected menu = None -> rendered menu = [] /\ model = embeddingModel).
Proof.
  cbv zeta. unfold setModelOptions. cbv zeta.
  destruct (unique_options_values options) as [Hnodup Hvalues].
  set (unique := unique_options options) in *.
  destruct (String.eqb_spec selectedModel "") as [Hnone | Hsaved]; cbn [negb andb].
  - subst selectedModel. cbn [fst snd rendered selected].
    split; [exact Hnodup |]. split.
    { intros v. rewrite Hvalues. split; [tauto |]. intros [H | [-> H]]; tauto. }
    destruct unique as [| [v text] rest]; cbn [fst snd hd_error option_map].
    + split; [discriminate |]. split; [congruence |]. split; [reflexivity |].
      intros _. split; reflexivity.
    + split.
      { intros v' H. injection H as <-. split; [left; reflexivity | reflexivity]. }
      split; [congruence |]. split; [reflexivity | discriminate].
  - destruct (has_value selectedModel unique) eqn:Hhas;
      cbn [fst snd rendered selected].
    + apply has_value_In in Hhas. split; [exact Hnodup |]. split.
      { intros v. rewrite Hvalues. split; [tauto |].
        intros [H | [-> _]]; [exact H |]. apply Hvalues, Hhas. }
      split.
      { intros v H. injection H as <-. split; [exact Hhas | reflexivity]. }
      split; [reflexivity |]. split; [contradiction | discriminate].
    + assert (Hfresh : ~ In selectedModel (map fst unique)).
      { intros H. apply has_value_In in H. congruence. }
      split.
      { rewrite map_app. cbn [map fst]. apply NoDup_app; [exact Hnodup | |].
        - constructor; [intros [] | constructor].
        - intros v Hv [<- | []]. contradiction. }
      split.
      { intros v. rewrite map_app, in_app_iff, Hvalues. cbn [map fst In].
        split.
        - intros [H | [<- | []]]; [left; exact H | right; tauto].
        - intros [H | [-> _]]; [left; exact H | right; left; reflexivity]. }
      split.
      { intros v H. injection H as <-. split; [| reflexivity].
        rewrite map_app. apply in_or_app. right. left. reflexivity. }
      split; [reflexivity |]. split; [contradiction | discriminate].
Qed.

Lemma setModelOptions_keeps_saved_witness :
  selected (fst (setModelOptions
                   [ {| option_value := "text-embedding-3-large";
                        option_label := "" |} ]
                   "my-own-model" "text-embedding-3-large"))
  = Some "my-own-model".
Proof.
  apply (setModelOptions_keeps_saved
           [ {| option_value := "text-embedding-3-large"; option_label := "" |} ]
           "my-own-model" "text-embedding-3-large").
  discriminate.
Defined.

(** ** Stored settings *)

(** X25.  Settings that are saved and loaded again come back as they were,
    in the first revision; in the second they come back with [apiKey]
    filled from [openaiApiKey] when [apiKey] was empty, which changes
    neither the key that is used nor whether the API-key guard fires.  A
    stored text that cannot be read leaves the settings as they are, and a
    stored object without members gives the default settings, whatever the
    settings were. *)
Theorem settings_round_trip (current settings : Settings) :
  loadSettings Rev1 current (saveSettings settings) = settings
  /\ loadSettings Rev2 current (saveSettings settings) = migrate_api_key settings
  /\ (apiKey settings <> "" \/ openaiApiKey settings = "" ->
      loadSettings Rev2 current (saveSettings settings) = settings)
  /\ getEffectiveEmbeddingApiKey
       (loadSettings Rev2 current (saveSettings settings))
     = getEffectiveEmbeddingApiKey settings
  /\ api_key_missing Rev2 (loadSettings Rev2 current (saveSettings settings))
     = api_key_missing Rev2 settings
  /\ (forall rev, loadSettings rev current Unparsable = current
                  /\ loadSettings rev current NothingStored = current)
  /\ (forall rev, loadSettings rev current (Parsed no_members) = defaultSettings).
Proof.
  assert (Hmerge : merge_settings (stored_of settings) = settings)
    by (destruct settings; reflexivity).
  assert (Hkey : getEffectiveEmbeddingApiKey (migrate_api_key settings)
                 = getEffectiveEmbeddingApiKey settings).
  { unfold migrate_api_key.
    destruct (String.eqb_spec (openaiApiKey settings) "") as [Ho | Ho];
      cbn [negb andb]; [reflexivity |].
    destruct (String.eqb_spec (apiKey settings) "") as [Ha | Ha];
      [| reflexivity].
    unfold getEffectiveEmbeddingApiKey, or_else. cbn [apiKey openaiApiKey].
    rewrite Ha. apply String.eqb_neq in Ho. rewrite Ho. reflexivity. }
  assert (Hprovider : provider (migrate_api_key settings) = provider settings).
  { unfold migrate_api_key. destruct (_ && _); reflexivity. }
  cbn [saveSettings loadSettings]. rewrite Hmerge.
  split; [reflexivity |]. split; [reflexivity |]. split.
  { intros Hfilled. unfold migrate_api_key.
    destruct (String.eqb_spec (openaiApiKey settings) "") as [Ho | Ho];
      cbn [negb andb]; [reflexivity |].
    destruct (String.eqb_spec (apiKey settings) "") as [Ha | Ha];
      [| reflexivity].
    destruct Hfilled; contradiction. }
  split; [exact Hkey |]. split.
  { unfold api_key_missing. rewrite Hkey, Hprovider. reflexivity. }
  split; [intros rev; split; reflexivity |].
  intros rev; destruct rev; reflexivity.
Qed.

Lemma settings_round_trip_witness :
  loadSettings Rev2 defaultSettings (saveSettings keyed_settings) = keyed_settings.
Proof.
  apply (settings_round_trip defaultSettings keyed_settings).
  left. discriminate.
Defined.

(** ** Buffering state machine: nothing is left behind *)

Section MachinePending.

Variable rev : revision.
Variable settings : Settings.
Variable context : Context.

Definition attended (m : Machine) : Prop :=
  messageBuffer m = [] \/ timers m <> [] \/ inflight m <> [].

Lemma start_flush_attended (now : Z) (m : Machine) :
  attended (start_flush now context m).
Proof.
  unfold attended, start_flush.
  destruct (messageBuffer m) as [| turn rest] eqn:Hbuffer.
  - cbn [flush_start]. left. exact Hbuffer.
  - destruct (flush_start_cases now context (turn :: rest))
      as (chunk & _ & ->); [discriminate |].
    destruct (getChatParticipants context) as [| p ps].
    + left. reflexivity.
    + right. right. cbn [inflight]. intros H.
      apply app_eq_nil in H as [_ H]. discriminate.
Qed.

Lemma step_attended (m : Machine) (e : Event) :
  attended m -> attended (step rev settings context m e).
Proof.
  intros Hm. destruct e as [now text characterName isUser messageId | h now | k];
    cbn [step].
  - unfold bufferMessage. destruct (rejects rev settings text isUser); [exact Hm |].
    cbv zeta. destruct (chunkMaxSize settings <=? _);
      [apply start_flush_attended |].
    right. left. unfold arm. cbn [timers].
    destruct (chunkMinSize settings <=? _); intros H;
      apply app_eq_nil in H as [_ H]; discriminate.
  - unfold timer_fires. destruct (existsb _ (timers m)); [| exact Hm].
    apply start_flush_attended.
  - unfold finish_flush. destruct (nth_error (inflight m) k); [| exact Hm].
    left. reflexivity.
Qed.

(** X26.  However turns arrive, timeouts expire and saves settle, a turn
    is never left in the buffer with nothing pending: whenever the buffer
    holds a turn, a flush timeout is armed or a flush is in flight. *)
Theorem buffer_never_stranded (events : list Event) :
  let m := run rev settings context initial events in
  messageBuffer m = [] \/ timers m <> [] \/ inflight m <> [].
Proof.
  cbv zeta. apply (run_keeps rev settings context attended step_attended).
  left. reflexivity.
Qed.

End MachinePending.

(** ** Polling *)

Section PollFacts.

Variable Date_toString : number -> string.
Variable rev : revision.
Variable settings : Settings.
Variable now : Z.
Variable context : Context.



End PollFacts.


(** ** Storage write: what success means *)

Section WriteFacts.

Context {W : Type}.
Variable host : Host W.
Variable rev : revision.
Variable settings : Settings.
Variable cfg : ExtensionSettings.

Lemma save_to_participant_true (pointId : string) (embedding : json)
    (payload : Payload.t) (characterName : string) (w w' : W) :
  save_to_participant host rev settings pointId embedding payload
                      characterName w = (Normal true, w') ->
  exists w1 body,
    fetch_upsert host (points_url settings characterName)
                 (participant_point pointId embedding payload characterName) w1
    = (Response true body, w').
Proof.
  unfold save_to_participant. rewrite bind_run.
  destruct (ensureCollection host rev settings characterName w)
    as [[ready |] w1]; [| discriminate].
  destruct ready; cbn [negb]; [| discriminate].
  rewrite bind_run. unfold await_fetch.
  destruct (fetch_upsert host (points_url settings characterName)
              (participant_point pointId embedding payload characterName) w1)
    as [[| ok body] w2] eqn:Hup; [discriminate |].
  cbn [fst negb]. destruct ok; cbn [negb]; [| discriminate].
  intro H. injection H as <-. exists w1, body. exact Hup.
Qed.

Lemma promise_all_true {A} (f : A -> Async W bool) (l : list A) :
  forall w results w',
    promise_all (map f l) w = (Normal results, w') ->
    In true results ->
    exists x w1 w2, In x l /\ f x w1 = (Normal true, w2).
Proof.
  induction l as [| x rest IH]; intros w results w'; cbn [map promise_all].
  - intros H. injection H as <- _. intros [].
  - destruct (f x w) as [r w1] eqn:Hx.
    destruct (promise_all (map f rest) w1) as [rs w2] eqn:Hrest.
    destruct r as [b |]; [| discriminate].
    destruct rs as [bs |]; [| discriminate].
    intros H. injection H as <- _. intros [-> | Hin].
    + exists x, w, w1. split; [left; reflexivity | exact Hx].
    + destruct (IH w1 bs w2 Hrest Hin) as (y & wa & wb & Hy & Hrun).
      exists y, wa, wb. split; [right; exact Hy | exact Hrun].
Qed.

Lemma filter_true (results : list bool) :
  (0 <? List.length (filter (fun r => r) results))%nat = true ->
  In true results.
Proof.
  induction results as [| r rest IH]; cbn [filter]; [discriminate |].
  destruct r; [intros _; left; reflexivity |].
  intros H. right. apply IH, H.
Qed.

(** X28.  [saveChunkToQdrant] reports success only when the store has
    acknowledged a write: for one of the participants at least, the point
    that holds the payload of the chunk under that participant's name was
    sent to the participant's collection and answered with success. *)
Theorem saveChunkToQdrant_success_means_written (chunk : Chunk.t)
    (participants : list string) (w w' : W) :
  saveChunkToQdrant host rev settings cfg chunk participants w
  = (Normal true, w') ->
  exists characterName point w1 w2 body,
    In characterName participants
    /\ fetch_upsert host (points_url settings characterName) point w1
       = (Response true body, w2)
    /\ base (point_payload point) = chunk_payload chunk
    /\ character (point_payload point) = characterName.
Proof.
  unfold saveChunkToQdrant.
  destruct participants as [| p ps] eqn:Hps; [discriminate |].
  rewrite <- Hps. unfold try_catch. rewrite bind_run.
  destruct (generateEmbedding host rev cfg (Chunk.text chunk) w)
    as [[embedding |] w1]; [| discriminate].
  destruct (truthy embedding); cbn [negb]; [| discriminate].
  rewrite bind_run.
  destruct (generateUUID host w1) as [[pointId |] w2]; [| discriminate].
  rewrite bind_run.
  destruct (promise_all
              (map (save_to_participant host rev settings pointId embedding
                      (chunk_payload chunk)) participants) w2)
    as [[results |] w3] eqn:Hall; [| discriminate].
  destruct (0 <? List.length (filter (fun r => r) results))%nat eqn:Hcount;
    [| discriminate].
  intros _. apply filter_true in Hcount.
  destruct (promise_all_true _ _ _ _ _ Hall Hcount)
    as (characterName & wa & wb & Hin & Hrun).
  apply save_to_participant_true in Hrun as (wc & body & Hup).
  exists characterName,
         (participant_point pointId embedding (chunk_payload chunk) characterName),
         wc, wb, body.
  split; [exact Hin |]. split; [exact Hup |]. split; reflexivity.
Qed.

End WriteFacts.

Lemma saveChunkToQdrant_success_means_written_witness :
  exists characterName point w1 w2 body,
    In characterName ["Bob"; "Alice"]
    /\ fetch_upsert (test_host good_embedding [] [])
                    (points_url keyed_settings characterName) point w1
       = (Response true body, w2)
    /\ base (point_payload point) = chunk_payload hi_hey_chunk.
Proof.
  destruct (saveChunkToQdrant (test_host good_embedding [] []) Rev2
              keyed_settings empty_cfg hi_hey_chunk ["Bob"; "Alice"] start_world)
    as [r w'] eqn:Hrun.
  assert (Hr : r = Normal true).
  { apply (f_equal fst) in Hrun. cbn [fst] in Hrun. rewrite <- Hrun.
    vm_compute. reflexivity. }
  subst r.
  destruct (saveChunkToQdrant_success_means_written
              (test_host good_embedding [] []) Rev2 keyed_settings empty_cfg
              hi_hey_chunk ["Bob"; "Alice"] start_world w' Hrun)
    as (characterName & point & w1 & w2 & body & Hin & Hup & Hbase & _).
  exists characterName, point, w1, w2, body.
  split; [exact Hin |]. split; [exact Hup | exact Hbase].
Defined.

(** ** Repeated passes of the interceptor *)

Section RepeatedPasses.

Context {W : Type}.
Variable Number_of_string : string -> number.
Variable Date_parse : string -> number.
Variable score_percent : Q -> string.
Variable host : Host W.
Variable rev : revision.
Variable settings : Settings.
Variable cfg : ExtensionSettings.
Variable context : Context.

Let intercept :=
  qdrantMemoryInterceptor Number_of_string Date_parse score_percent host rev
                          settings cfg context.

(** One generation after the other, each on the conversation the one before
    has left. *)
Fixpoint passes (n : nat) (chat : list ChatMessage)
  : Async W (list ChatMessage) :=
  match n with
  | O => ret chat
  | S k => chat' <- intercept chat ;; passes k chat'
  end.

Lemma intercept_once (chat : list ChatMessage) (w : W) :
  enabled settings = true ->
  name2 context <> "" ->
  exists chat' w',
    intercept chat w = (Normal chat', w')
    /\ removeExistingMemoryEntries chat' = removeExistingMemoryEntries chat
    /\ (marked chat' <= 1)%nat.
Proof.
  intros Hen Hname. unfold intercept, qdrantMemoryInterceptor.
  rewrite Hen. apply String.eqb_neq in Hname. rewrite Hname. cbn [negb].
  set (stripped := removeExistingMemoryEntries chat).
  assert (Hquiet : forall w' : W,
             exists (chat' : list ChatMessage) (w'' : W),
               (Normal stripped, w') = (Normal chat', w'')
               /\ removeExistingMemoryEntries chat' = stripped
               /\ (marked chat' <= 1)%nat).
  { intros w'. exists stripped, w'. split; [reflexivity |].
    split; [apply removeExistingMemoryEntries_idempotent |].
    unfold stripped. rewrite removeExistingMemoryEntries_marked. lia. }
  unfold try_catch.
  destruct (lastUserMessage stripped) as [lastUserMsg |]; [| apply Hquiet].
  destruct (String.eqb (mes lastUserMsg) ""); [apply Hquiet |].
  rewrite bind_run.
  destruct (searchMemories_settles Number_of_string Date_parse host rev settings
              cfg (context_chat context) (mes lastUserMsg) (name2 context) w)
    as ([memories c] & w1 & ->).
  cbn [fst]. destruct memories as [| memory rest]; [apply Hquiet |].
  cbn [List.length Nat.ltb Nat.leb]. rewrite bind_run. unfold perform.
  destruct (date_now host w1) as [now w2].
  eexists. exists w2. split; [reflexivity |]. split.
  - rewrite splice_insert_unmarked by reflexivity.
    apply removeExistingMemoryEntries_idempotent.
  - rewrite splice_insert_marked. unfold stripped.
    rewrite removeExistingMemoryEntries_marked. cbn. lia.
Qed.

(** X29.  Generation after generation, with the extension enabled and a
    character selected, the conversation never gathers memory turns: after
    any number of passes, one at least, it holds at most one, and its other
    turns are those it had at the start, in their order. *)
Theorem interceptor_repeated_passes (n : nat) :
  enabled settings = true ->
  name2 context <> "" ->
  forall chat w,
    exists chat' w',
      passes (S n) chat w = (Normal chat', w')
      /\ removeExistingMemoryEntries chat' = removeExistingMemoryEntries chat
      /\ (marked chat' <= 1)%nat.
Proof.
  intros Hen Hname. induction n as [| n IH]; intros chat w.
  - cbn [passes]. rewrite bind_run.
    destruct (intercept_once chat w Hen Hname) as (chat' & w' & -> & Hsame & Hone).
    exists chat', w'. split; [reflexivity |]. split; assumption.
  - change (passes (S (S n)) chat) with (chat' <- intercept chat ;; passes (S n) chat').
    rewrite bind_run.
    destruct (intercept_once chat w Hen Hname) as (chat1 & w1 & -> & Hsame & _).
    destruct (IH chat1 w1) as (chat' & w' & -> & Hsame' & Hone).
    exists chat', w'. split; [reflexivity |]. split; [| exact Hone].
    rewrite Hsame'. exact Hsame.
Qed.

End RepeatedPasses.

Lemma interceptor_repeated_passes_witness :
  exists chat' w',
    passes digits_Number iso_Date_parse rounded_percent
           (test_host good_embedding [one_memory] []) Rev2 keyed_settings
           empty_cfg live_context 3 live_chat start_world = (Normal chat', w')
    /\ (marked chat' <= 1)%nat.
Proof.
  destruct (interceptor_repeated_passes digits_Number iso_Date_parse
              rounded_percent (test_host good_embedding [one_memory] []) Rev2
              keyed_settings empty_cfg live_context 2 eq_refl
              ltac:(discriminate) live_chat start_world)
    as (chat' & w' & Hrun & _ & Hone).
  exists chat', w'. split; [exact Hrun | exact Hone].
Defined.

(** ** Switching the provider *)

Lemma take_segment_all (l r : list ascii) :
  Forall (fun c => c <> "/"%char) l ->
  take_segment (l ++ "/"%char :: r) = l.
Proof.
  induction 1 as [| c l Hc _ IH]; cbn [app take_segment].
  - reflexivity.
  - destruct (Ascii.eqb_spec c "/"%char); [contradiction |]. rewrite IH.
    reflexivity.
Qed.

Lemma no_slash_chars (l : list ascii) :
  Str.includes_chars ["/"%char] l = false -> Forall (fun c => c <> "/"%char) l.
Proof.
  induction l as [| c r IH]; intros H; [constructor |].
  cbn [Str.includes_chars Str.prefix_chars] in H.
  apply orb_false_iff in H as [Hc Hr].
  constructor; [| apply IH, Hr].
  intros ->. cbn in Hc. destruct r; discriminate.
Qed.

Lemma last_segment_namespaced (prefix model : string) :
  Str.includes model "/" = false ->
  last_segment (prefix ++ "/" ++ model) = model.
Proof.
  intros Hmodel. unfold last_segment.
  rewrite !chars_append, !rev_app_distr. cbn [Str.chars list_ascii_of_string rev app].
  rewrite <- app_assoc. cbn [app].
  rewrite take_segment_all.
  - rewrite rev_involutive. apply of_chars_chars.
  - apply Forall_rev, no_slash_chars, Hmodel.
Qed.

Lemma includes_namespaced (prefix model : string) :
  Str.includes (prefix ++ "/" ++ model) "/" = true.
Proof.
  unfold Str.includes. rewrite chars_append.
  apply includes_chars_later. rewrite chars_append. apply includes_chars_here.
Qed.

Lemma setModelOptions_model (options : list ModelOption)
    (selectedModel embeddingModel : string) :
  selectedModel <> "" ->
  snd (setModelOptions options selectedModel embeddingModel) = selectedModel.
Proof.
  intros Hsaved. unfold setModelOptions. cbv zeta.
  apply String.eqb_neq in Hsaved. rewrite Hsaved. cbn [negb andb].
  destruct (has_value selectedModel (unique_options options)); reflexivity.
Qed.

(** X30.  Switching the provider from OpenAI to OpenRouter and back keeps
    the model.  On the way to OpenRouter a model of the OpenAI list that
    OpenRouter offers under [openai/] is replaced by that namespaced
    identifier; on the way back the identifier is cut to the part after the
    last [/], which the OpenAI list has.  With the lists built in, this
    holds for [text-embedding-3-large] and [text-embedding-3-small]. *)
Theorem provider_switch_round_trip (fetched : completion (list ModelOption))
    (model : string) :
  let offered :=
    match fetched with
    | Normal (first :: more) => first :: more
    | _ => openrouter_models
    end in
  In model (map option_value openai_models) ->
  listed ("openai/" ++ model) offered = true ->
  updateModelControls "openrouter" fetched model = "openai/" ++ model
  /\ updateModelControls "openai" fetched
                        (updateModelControls "openrouter" fetched model)
     = model.
Proof.
  cbv zeta. intros Hmodel Hoffered.
  assert (Hplain : model <> "" /\ Str.includes model "/" = false
                   /\ listed model openai_models = true).
  { cbn [map openai_models option_value In] in Hmodel.
    destruct Hmodel as [<- | [<- | [<- | []]]];
      (split; [discriminate | split; reflexivity]). }
  destruct Hplain as (Hne & Hslash & Hlisted).
  assert (Hthere : updateModelControls "openrouter" fetched model
                   = "openai/" ++ model).
  { unfold updateModelControls. cbv zeta.
    change (Str.toLowerCase "openrouter") with "openrouter".
    cbn [String.eqb Ascii.eqb Bool.eqb orb andb].
    change (getDefaultModelsForProvider "openrouter") with openrouter_models.
    set (offered := match fetched with
                    | Normal (first :: more) => first :: more
                    | _ => openrouter_models
                    end) in *.
    clearbody offered.
    destruct offered as [| first more]; [discriminate |].
    assert (Hdesired : desiredModel "openrouter" (first :: more) model
                       = "openai/" ++ model).
    { unfold desiredModel. cbv zeta.
      cbn [String.eqb Ascii.eqb Bool.eqb andb].
      apply String.eqb_neq in Hne. rewrite Hne, Hslash. cbn [negb andb].
      rewrite Hoffered. reflexivity. }
    rewrite Hdesired. apply setModelOptions_model. discriminate. }
  split; [exact Hthere |]. rewrite Hthere.
  unfold updateModelControls. cbv zeta.
  change (Str.toLowerCase "openai") with "openai".
  cbn [String.eqb Ascii.eqb Bool.eqb orb andb].
  change (getDefaultModelsForProvider "openai") with openai_models.
  assert (Hdesired : desiredModel "openai" openai_models ("openai/" ++ model)
                     = model).
  { unfold desiredModel. cbv zeta.
    cbn [String.eqb Ascii.eqb Bool.eqb andb].
    change ("openai/" ++ model) with ("openai" ++ "/" ++ model).
    rewrite includes_namespaced, (last_segment_namespaced "openai" model Hslash).
    apply String.eqb_neq in Hne. rewrite Hne, Hlisted.
    replace (String.eqb ("openai" ++ "/" ++ model) "") with false by reflexivity.
    reflexivity. }
  unfold openai_models at 1. rewrite Hdesired.
  apply (setModelOptions_model _ model _ Hne).
Qed.

Lemma provider_switch_round_trip_witness :
  updateModelControls "openrouter" Throw "text-embedding-3-large"
  = "openai/text-embedding-3-large"
  /\ updateModelControls "openai" Throw "openai/text-embedding-3-large"
     = "text-embedding-3-large".
Proof.
  destruct (provider_switch_round_trip Throw "text-embedding-3-large")
    as [Hthere Hback]; [left; reflexivity | reflexivity |].
  split; [exact Hthere |]. rewrite Hthere in Hback. exact Hback.
Defined.
